(** * ToothSeeker: the [images] table, its writer and its queries

    A shallow embedding of the relational core of ToothSeeker:
    - [toothbase.py]: [init_db], [read_base_param], [read_job_param],
      [combine_lists], [insert_data_to_table], [process_folder],
      [process_all_folders], [create_csv], [remove_duplicate_images],
      [construct_database];
    - [stackview.py]: [find_rows_differing_by_param];
    - [helper_functions.py]: [export_row_to_file].

    Python values are kept as Python has them (str and int, insertion-ordered
    dicts, exceptions), SQLite values as SQLite has them (NULL, INTEGER, REAL,
    TEXT, three-valued comparison), a table as the list of its rows in rowid
    order.  The file system is seen through what the functions read of it
    (the image paths of a folder, the lines of a text file) and write to it.

    What lies outside the repository is a parameter: how SQLite stores a
    literal under the affinity of a column, [os.path.join],
    [os.path.basename], the project root, the text an f-string gives for a
    fetched value, the time stamp of a file name. *)

From Stdlib Require Import ZArith QArith List String Ascii Bool Lia.
From Stdlib Require Import DecimalString Sorted Permutation.
Import ListNotations.

Local Open Scope string_scope.
Local Open Scope list_scope.
Local Open Scope Z_scope.

(** ** Python side: exceptions, values, dicts *)

Module Py.

(** The exceptions the modelled code can raise. *)
Inductive exn : Type :=
| KeyError          (* d[k] on a missing key *)
| IndexError        (* re.findall(...)[0] without a match *)
| ValueError        (* list.index on a missing item, a bad unpacking *)
| TypeError         (* subscripting None *)
| AttributeError    (* method call on None *)
| UnboundLocalError (* a local read before it is bound *)
| SystemExit        (* sys.exit *)
| OperationalError  (* sqlite3: malformed statement *)
| IntegrityError.   (* sqlite3: constraint violated *)

Definition result (A : Type) : Type := (exn + A)%type.

Definition ret {A} (a : A) : result A := inr a.
Definition raise {A} (e : exn) : result A := inl e.
Definition bind {A B} (m : result A) (k : A -> result B) : result B :=
  match m with
  | inl e => inl e
  | inr a => k a
  end.

(** [for x in xs: acc = body(acc, x)], stopping at the first exception. *)
Fixpoint for_each {A S} (body : S -> A -> result S) (xs : list A) (s : S)
  : result S :=
  match xs with
  | [] => ret s
  | x :: xs' => bind (body s x) (for_each body xs')
  end.

(** [[f(x) for x in xs]], stopping at the first exception. *)
Fixpoint comprehension {A B} (f : A -> result B) (xs : list A)
  : result (list B) :=
  match xs with
  | [] => ret []
  | x :: xs' =>
      bind (f x) (fun y =>
      bind (comprehension f xs') (fun ys => ret (y :: ys)))
  end.

(** The items a row list of [combine_lists] holds. *)
Inductive value : Type :=
| Str (s : string)
| Int (n : Z).

(** A dict with str keys: its items in insertion order. *)
Definition dict (V : Type) : Type := list (string * V).

Fixpoint get {V} (d : dict V) (k : string) : option V :=
  match d with
  | [] => None
  | (k', v) :: d' => if String.eqb k' k then Some v else get d' k
  end.

Definition mem {V} (d : dict V) (k : string) : bool :=
  match get d k with
  | Some _ => true
  | None => false
  end.

(** [d[k]]. *)
Definition item {V} (d : dict V) (k : string) : result V :=
  match get d k with
  | Some v => ret v
  | None => raise KeyError
  end.

(** [d[k] = v]: a present key keeps its place, a new one goes last. *)
Fixpoint set {V} (d : dict V) (k : string) (v : V) : dict V :=
  match d with
  | [] => [(k, v)]
  | (k', v') :: d' =>
      if String.eqb k' k then (k', v) :: d' else (k', v') :: set d' k v
  end.

Definition keys {V} (d : dict V) : list string := map fst d.

(** Methods of str, on strings of ASCII characters. *)

Definition newline : ascii := Ascii.ascii_of_nat 10.

Definition nl : string := String newline EmptyString.

(** Whitespace as [str.strip] takes it: tab to carriage return, the four
    separators, the space. *)
Definition isspace (c : ascii) : bool :=
  let n := Ascii.nat_of_ascii c in
  (Nat.leb 9 n && Nat.leb n 13) || (Nat.leb 28 n && Nat.leb n 32).

Fixpoint lstrip (s : string) : string :=
  match s with
  | EmptyString => EmptyString
  | String c s' => if isspace c then lstrip s' else s
  end.

Fixpoint rstrip (s : string) : string :=
  match s with
  | EmptyString => EmptyString
  | String c s' =>
      match rstrip s' with
      | EmptyString => if isspace c then EmptyString else String c EmptyString
      | r => String c r
      end
  end.

Definition strip (s : string) : string := rstrip (lstrip s).

(** [s.split('==')]: cut at every [==], from the left. *)
Fixpoint split_eqeq (s : string) : list string :=
  match s with
  | EmptyString => [EmptyString]
  | String c s' =>
      let keep :=
        match split_eqeq s' with
        | part :: parts => String c part :: parts
        | [] => [String c EmptyString]
        end in
      if Ascii.eqb c "="%char then
        match s' with
        | String c' s'' =>
            if Ascii.eqb c' "="%char then EmptyString :: split_eqeq s''
            else keep
        | EmptyString => keep
        end
      else keep
  end.

(** [s.replace(c, '')] for a one-character [c]. *)
Fixpoint remove_char (c : ascii) (s : string) : string :=
  match s with
  | EmptyString => EmptyString
  | String a s' =>
      if Ascii.eqb a c then remove_char c s' else String a (remove_char c s')
  end.

(** Iterating a text file: its lines, each with its newline (the last one
    may have none). *)
Fixpoint file_lines (text : string) : list string :=
  match text with
  | EmptyString => []
  | String c text' =>
      if Ascii.eqb c newline then String c EmptyString :: file_lines text'
      else
        match file_lines text' with
        | [] => [String c EmptyString]
        | l :: ls => String c l :: ls
        end
  end.

(** [enumerate(xs)]. *)
Definition enumerate {A} (xs : list A) : list (nat * A) :=
  combine (seq 0 (List.length xs)) xs.

End Py.

Notation "x <- m ;; k" := (Py.bind m (fun x => k))
  (at level 61, m at next level, right associativity).

(** ** SQLite side: values, comparison, three-valued logic, aggregates *)

Module Sql.

(** A stored non-NULL value.  A REAL is held by its numeric value; every
    finite double is a rational, and SQLite stores NaN as NULL.  The
    program writes no BLOB. *)
Inductive scalar : Type :=
| Int (n : Z)
| Real (x : Q)
| Text (s : string).

(** A cell of a table or of a result row; [None] is NULL. *)
Definition cell : Type := option scalar.

Definition numeric (v : scalar) : option Q :=
  match v with
  | Int n => Some (inject_Z n)
  | Real x => Some x
  | Text _ => None
  end.

(** SQLite's comparison of two non-NULL values of one column: INTEGER and
    REAL compare by numeric value, TEXT byte by byte (collation BINARY),
    and every number sorts before every text. *)
Definition compare (a b : scalar) : comparison :=
  match numeric a, numeric b with
  | Some x, Some y => Qcompare x y
  | Some _, None => Lt
  | None, Some _ => Gt
  | None, None =>
      match a, b with
      | Text s, Text t => String.compare s t
      | _, _ => Eq
      end
  end.

Definition same (a b : scalar) : bool :=
  match numeric a, numeric b with
  | Some x, Some y => Qeq_bool x y
  | Some _, None | None, Some _ => false
  | None, None =>
      match a, b with
      | Text s, Text t => String.eqb s t
      | _, _ => true
      end
  end.

(** Equality as GROUP BY, PARTITION BY and DISTINCT take it ([IS]): two
    NULLs are the same. *)
Definition same_cell (a b : cell) : bool :=
  match a, b with
  | None, None => true
  | Some x, Some y => same x y
  | _, _ => false
  end.

(** A truth value of SQL: [None] is NULL (unknown). *)
Definition truth : Type := option bool.

(** [a = b] and [a != b]: NULL as soon as one side is NULL. *)
Definition eq (a b : cell) : truth :=
  match a, b with
  | Some x, Some y => Some (same x y)
  | _, _ => None
  end.

Definition not3 (a : truth) : truth := option_map negb a.

Definition ne (a b : cell) : truth := not3 (eq a b).

Definition and3 (a b : truth) : truth :=
  match a, b with
  | Some false, _ | _, Some false => Some false
  | Some true, Some true => Some true
  | _, _ => None
  end.

Definition or3 (a b : truth) : truth :=
  match a, b with
  | Some true, _ | _, Some true => Some true
  | Some false, Some false => Some false
  | _, _ => None
  end.

Definition all3 (l : list truth) : truth := fold_right and3 (Some true) l.
Definition any3 (l : list truth) : truth := fold_right or3 (Some false) l.

(** A WHERE or HAVING clause keeps a row only when it is true. *)
Definition holds (a : truth) : bool :=
  match a with
  | Some true => true
  | _ => false
  end.

(** Row values: [(a1, ..., an) = (b1, ..., bn)]. *)
Definition row_eq (a b : list cell) : truth :=
  all3 (map (fun ab => eq (fst ab) (snd ab)) (combine a b)).

(** [a IN (SELECT ...)] for a scalar and for a row value. *)
Definition is_in (a : cell) (s : list cell) : truth :=
  any3 (map (eq a) s).

Definition row_in (a : list cell) (s : list (list cell)) : truth :=
  any3 (map (row_eq a) s).

(** The aggregate [MIN] over INTEGER values that are never NULL (the
    rowid): NULL only on no rows. *)
Definition min_int (l : list Z) : option Z :=
  match l with
  | [] => None
  | x :: l' => Some (fold_left Z.min l' x)
  end.

(** The aggregate [MIN]: NULLs are skipped, NULL when nothing is left. *)
Definition lesser (a b : scalar) : scalar :=
  match compare b a with
  | Lt => b
  | _ => a
  end.

Definition min_cell (l : list cell) : cell :=
  fold_left
    (fun acc c =>
       match acc, c with
       | _, None => acc
       | None, Some v => Some v
       | Some a, Some v => Some (lesser a v)
       end)
    l None.

End Sql.

(** ** toothbase.py *)

Module Toothbase.

(** *** The table created by [init_db] *)

(** Declared column types and the affinity SQLite derives from them. *)
Inductive affinity : Type := AffText | AffInteger | AffReal | AffNumeric.

Inductive coltype : Type :=
| INTEGER_PRIMARY_KEY | TEXT_UNIQUE | TEXT | REAL | INTEGER | BOOL.

Definition affinity_of (ty : coltype) : affinity :=
  match ty with
  | INTEGER_PRIMARY_KEY | INTEGER => AffInteger
  | TEXT_UNIQUE | TEXT => AffText
  | REAL => AffReal
  | BOOL => AffNumeric
  end.

(** The column list of the CREATE TABLE statement. *)
Definition schema : list (string * coltype) :=
  [ ("id", INTEGER_PRIMARY_KEY); ("path", TEXT_UNIQUE); ("model", TEXT);
    ("viewthresh", REAL); ("viewmode", INTEGER); ("iter", INTEGER);
    ("Egr", REAL); ("Mgr", REAL); ("Rep", REAL); ("Swi", REAL);
    ("Adh", REAL); ("Act", REAL); ("Inh", REAL); ("Sec", REAL);
    ("Da", REAL); ("Di", REAL); ("Ds", REAL); ("Int", REAL);
    ("Set", REAL); ("Boy", REAL); ("Dff", REAL); ("Bgr", REAL);
    ("Abi", REAL); ("Pbi", REAL); ("Lbi", REAL); ("Bbi", REAL);
    ("Rad", REAL); ("Deg", REAL); ("Dgr", REAL); ("Ntr", REAL);
    ("Bwi", REAL); ("Ina", REAL); ("uMgr", REAL); ("faulty", BOOL) ].

Definition all_column_names : list string := map fst schema.

(** A row: the rowid [id] (INTEGER PRIMARY KEY: an integer, never NULL),
    the [path] cell and the cells of the columns [model] .. [faulty]. *)
Record row : Type := mkRow {
  id : Z;
  path : Sql.cell;
  params : list Sql.cell
}.

(** A table: its rows in rowid order, the order of a full scan. *)
Definition table : Type := list row.

(** The tuple [SELECT *] yields for a row. *)
Definition tuple_of (r : row) : list Sql.cell :=
  Some (Sql.Int (id r)) :: path r :: params r.

(** [t[i]] on such a tuple, for an index within the column list. *)
Definition at_index (r : row) (i : nat) : Sql.cell := nth i (tuple_of r) None.

(** [names.index(name)]. *)
Fixpoint index (names : list string) (name : string) : option nat :=
  match names with
  | [] => None
  | n :: ns =>
      if String.eqb n name then Some 0%nat
      else option_map S (index ns name)
  end.

(** The value of the column called [name] in a row, as a statement that
    names the column reads it. *)
Definition column (r : row) (name : string) : Sql.cell :=
  match index all_column_names name with
  | Some i => at_index r i
  | None => None
  end.

(** [init_db]: a fresh table; [sys.exit] when the file is there already. *)
Definition init_db (db_exists : bool) : Py.result table :=
  if db_exists then Py.raise Py.SystemExit else Py.ret [].

(** *** Assembling rows *)

(** The first match of [re.findall] for a pattern made of a literal
    [prefix], a greedy group of any characters but the newline, and a
    literal [suffix] of at most one character: the leftmost place where the
    prefix starts and the suffix follows on the same line; the group runs to
    the last such suffix (to the end of the line when there is none to
    match). *)
Fixpoint strip_prefix (p s : string) : option string :=
  match p, s with
  | EmptyString, _ => Some s
  | String a p', String b s' =>
      if Ascii.eqb a b then strip_prefix p' s' else None
  | String _ _, EmptyString => None
  end.

Fixpoint line_of (s : string) : string :=
  match s with
  | EmptyString => EmptyString
  | String c s' =>
      if Ascii.eqb c Py.newline then EmptyString else String c (line_of s')
  end.

(** The part of [s] before the last [c]. *)
Fixpoint before_last (c : ascii) (s : string) : option string :=
  match s with
  | EmptyString => None
  | String a s' =>
      match before_last c s' with
      | Some g => Some (String a g)
      | None => if Ascii.eqb a c then Some EmptyString else None
      end
  end.

Definition group_of (suffix : option ascii) (rest : string) : option string :=
  match suffix with
  | Some c => before_last c (line_of rest)
  | None => Some (line_of rest)
  end.

Fixpoint first_match (prefix : string) (suffix : option ascii) (s : string)
  : option string :=
  match s with
  | EmptyString => None
  | String _ s' =>
      match strip_prefix prefix s with
      | Some rest =>
          match group_of suffix rest with
          | Some g => Some g
          | None => first_match prefix suffix s'
          end
      | None => first_match prefix suffix s'
      end
  end.

(** [re.findall(pattern, s)[0]]. *)
Definition findall_0 (prefix : string) (suffix : option ascii) (s : string)
  : Py.result string :=
  match first_match prefix suffix s with
  | Some g => Py.ret g
  | None => Py.raise Py.IndexError
  end.

(** The index string of an image, from its path. *)
Definition image_id_str (path : string) : Py.result string :=
  findall_0 "ToothMaker_" (Some "_"%char) path.

(** [read_base_param], on the lines of [parameters_base.txt] as iterating
    the file yields them. *)
Definition skipped_lines : list nat := [0; 1; 2; 3; 4; 9; 10]%nat.

Definition read_base_param (lines : list string)
  : Py.result (Py.dict string) :=
  let params :=
    map (fun il => Py.split_eqeq (Py.strip (snd il)))
      (filter (fun il => negb (existsb (Nat.eqb (fst il)) skipped_lines))
         (Py.enumerate lines)) in
  Py.for_each
    (fun d parts =>
       match parts with
       | [param; value] => Py.ret (Py.set d param value)
       | _ => Py.raise Py.ValueError
       end)
    params [].

(** What a base parameters file says, whatever reads it.  A line defines
    [name] as [value] when it reads [name==value]; the file defines [name]
    when one of its lines does, and the default of [name] is the value of
    the last line that defines it. *)
Definition defines (lines : list string) (name value : string) : Prop :=
  exists i line,
    nth_error lines i = Some line /\
    Py.split_eqeq (Py.strip line) = [name; value].

Definition default_of (lines : list string) (name value : string) : Prop :=
  exists i line,
    nth_error lines i = Some line /\
    Py.split_eqeq (Py.strip line) = [name; value] /\
    forall i' line' value',
      (i < i')%nat -> nth_error lines i' = Some line' ->
      Py.split_eqeq (Py.strip line') <> [name; value'].

(** The layout of the file as the simulator writes it: three lines of
    comment, an empty line, the heading of the settings, the four settings,
    an empty line, the heading of the parameters, the parameters.  The
    places of the comments and the empty lines, counted from 0, hold no
    definition. *)
Definition comment_places : list nat := [0; 1; 2; 3; 4; 9; 10]%nat.

Definition base_layout (lines : list string) : Prop :=
  forall i line,
    In i comment_places -> nth_error lines i = Some line ->
    forall name value, Py.split_eqeq (Py.strip line) <> [name; value].

(** [read_job_param], on the lines of [job_parameters.txt].  The locals of
    the loop: [idx_nums] is unbound until the first header line. *)
Record job_locals : Type := mkJobLocals {
  job_dict : Py.dict (Py.dict string);
  n_variables : nat;
  param_dict : Py.dict string;
  idx_nums : option string
}.

Definition read_job_line (st : job_locals) (il : nat * string)
  : Py.result job_locals :=
  let (i, line) := il in
  if String.eqb line Py.nl then Py.ret st
  else if Nat.eqb (Nat.modulo i (n_variables st + 2)) 0 then
    st1 <- (if Nat.eqb i 0 then Py.ret st
            else
              match idx_nums st with
              | None => Py.raise Py.UnboundLocalError
              | Some k =>
                  Py.ret {| job_dict := Py.set (job_dict st) k (param_dict st);
                            n_variables := n_variables st;
                            param_dict := [];
                            idx_nums := idx_nums st |}
              end) ;;
    middle_line <- findall_0 "i:" (Some " "%char) line ;;
    found <- findall_0 "--- " None middle_line ;;
    let idx := Py.remove_char " "%char found in
    Py.ret {| job_dict := job_dict st1;
              n_variables :=
                if Nat.eqb i 0
                then String.length (Py.remove_char "X"%char idx)
                else n_variables st1;
              param_dict := param_dict st1;
              idx_nums := Some idx |}
  else
    par_name <- findall_0 "par: " (Some ","%char) line ;;
    par_value <- findall_0 "val: " None line ;;
    Py.ret {| job_dict := job_dict st;
              n_variables := n_variables st;
              param_dict := Py.set (param_dict st) par_name par_value;
              idx_nums := idx_nums st |}.

Definition read_job_param (lines : list string)
  : Py.result (Py.dict (Py.dict string)) :=
  st <- Py.for_each read_job_line (Py.enumerate lines)
          {| job_dict := []; n_variables := 0; param_dict := [];
             idx_nums := None |} ;;
  match idx_nums st with
  | None => Py.raise Py.UnboundLocalError
  | Some k => Py.ret (Py.set (job_dict st) k (param_dict st))
  end.

(** The inner loop of [combine_lists]: one item per parameter name. *)
Definition param_item (base_param_dict : Py.dict string)
    (job_param_dict : Py.dict (Py.dict string)) (id_str param_name : string)
  : Py.result Py.value :=
  overrides <- Py.item job_param_dict id_str ;;
  if Py.mem overrides param_name then
    v <- Py.item overrides param_name ;; Py.ret (Py.Str v)
  else
    v <- Py.item base_param_dict param_name ;; Py.ret (Py.Str v).

Definition combine_row (base_param_dict : Py.dict string)
    (job_param_dict : Py.dict (Py.dict string)) (image : string * string)
  : Py.result (list Py.value) :=
  let (path, id_str) := image in
  items <- Py.comprehension
             (param_item base_param_dict job_param_dict id_str)
             (Py.keys base_param_dict) ;;
  Py.ret ([Py.Str path] ++ items ++ [Py.Int 0]).

Definition combine_lists (image_path_list image_id_str_list : list string)
    (base_param_dict : Py.dict string)
    (job_param_dict : Py.dict (Py.dict string))
  : Py.result (list (list Py.value)) :=
  Py.comprehension (combine_row base_param_dict job_param_dict)
    (combine image_path_list image_id_str_list).

(** *** Inserting rows *)

(** What SQLite reads for one item of the row tuple: a string literal or an
    integer literal. *)
Inductive literal : Type :=
| LText (s : string)
| LInt (n : Z).

(** The statement is [str(tuple(row))] with every opening parenthesis
    replaced by an opening parenthesis and [NULL, ]: the first one makes
    room for the id, and one inside a str item is replaced all the same.
    [repr] doubles a backslash, which SQLite does not undo.  (Items are
    taken to hold printable characters and no quote character.) *)
Fixpoint statement_text (s : string) : string :=
  match s with
  | EmptyString => EmptyString
  | String c s' =>
      if Ascii.eqb c "("%char then "(NULL, " ++ statement_text s'
      else if Ascii.eqb c "\"%char then
        String c (String c (statement_text s'))
      else String c (statement_text s')
  end.

Definition literal_of (v : Py.value) : literal :=
  match v with
  | Py.Str s => LText (statement_text s)
  | Py.Int n => LInt n
  end.

(** The rowid SQLite gives to a row inserted with a NULL id: one more than
    the largest in use, 1 in an empty table. *)
Definition next_rowid (t : table) : Z :=
  match map id t with
  | [] => 1
  | i :: ids => fold_left Z.max ids i + 1
  end.

Section Writer.

(** How SQLite stores a literal in a column of a given affinity (a text
    that reads as a number becomes that number in a numeric column, and
    so on).  It never makes NULL of a literal that is not NULL. *)
Variable store : affinity -> literal -> Sql.scalar.

Fixpoint store_row (cols : list (string * coltype)) (lits : list literal)
  : list Sql.cell :=
  match cols, lits with
  | (_, ty) :: cols', l :: lits' =>
      Some (store (affinity_of ty) l) :: store_row cols' lits'
  | _, _ => []
  end.

(** One [INSERT INTO images VALUES (NULL, ...)]. *)
Definition insert_row (t : table) (r : list Py.value) : Py.result table :=
  let lits := map literal_of r in
  if negb (Nat.eqb (S (List.length lits)) (List.length schema)) then
    Py.raise Py.OperationalError
  else
    match store_row (tl schema) lits with
    | p :: ps =>
        if existsb (fun r' => Sql.holds (Sql.eq (path r') p)) t then
          Py.raise Py.IntegrityError
        else Py.ret (t ++ [mkRow (next_rowid t) p ps])
    | [] => Py.raise Py.OperationalError
    end.

Definition insert_data_to_table (complete_list : list (list Py.value))
    (t : table) : Py.result table :=
  Py.for_each insert_row complete_list t.

(** What [process_folder] reads from one export folder: the image paths
    (the listing of [screenshots], joined to the folder path) and the lines
    of the two parameter files. *)
Record folder : Type := mkFolder {
  image_path_list : list string;
  parameters_base_txt : list string;
  job_parameters_txt : list string
}.

Definition process_folder (t : table) (f : folder) : Py.result table :=
  image_id_str_list <- Py.comprehension image_id_str (image_path_list f) ;;
  base_param_dict <- read_base_param (parameters_base_txt f) ;;
  job_param_dict <- read_job_param (job_parameters_txt f) ;;
  complete_list <- combine_lists (image_path_list f) image_id_str_list
                     base_param_dict job_param_dict ;;
  insert_data_to_table complete_list t.

Definition process_all_folders (src : list folder) (t : table)
  : Py.result table :=
  Py.for_each process_folder src t.

End Writer.

(** *** Duplicate rows *)

(** The column list of every PARTITION BY and GROUP BY of
    [remove_duplicate_images]. *)
Definition partition_columns : list string :=
  [ "model"; "viewthresh"; "viewmode"; "iter"; "Egr"; "Mgr"; "Rep"; "Swi";
    "Adh"; "Act"; "Inh"; "Sec"; "Da"; "Di"; "Ds"; "Int"; "Set"; "Boy";
    "Dff"; "Bgr"; "Abi"; "Pbi"; "Lbi"; "Bbi"; "Rad"; "Deg"; "Dgr"; "Ntr";
    "Bwi"; "Ina"; "uMgr"; "faulty" ].

Definition key (r : row) : list Sql.cell := map (column r) partition_columns.

Definition same_key (a b : list Sql.cell) : bool :=
  forallb (fun ab => Sql.same_cell (fst ab) (snd ab)) (combine a b).

(** Two rows fall in one partition, or one group. *)
Definition same_group (r1 r2 : row) : bool := same_key (key r1) (key r2).

Definition partition_of (t : table) (r : row) : list row :=
  filter (same_group r) t.

(** A row none of whose partition columns is NULL. *)
Definition complete (r : row) : Prop :=
  forall c, In c partition_columns -> column r c <> None.

(** A row with the lowest id of its group, and a row alone in its group. *)
Definition lowest_in_group (t : table) (r : row) : Prop :=
  forall r', In r' t -> same_group r r' = true -> id r <= id r'.

Definition alone_in_group (t : table) (r : row) : Prop :=
  forall r', In r' t -> same_group r r' = true -> r' = r.

(** A row of the first SELECT: [(min_id, id, path, min_path)]. *)
Record duplicate : Type := mkDuplicate {
  dup_min_id : Sql.cell;
  dup_id : Sql.cell;
  dup_path : Sql.cell;
  dup_min_path : Sql.cell
}.

Definition windowed (t : table) (r : row) : duplicate :=
  let part := partition_of t r in
  {| dup_min_id := option_map Sql.Int (Sql.min_int (map id part));
     dup_id := Some (Sql.Int (id r));
     dup_path := path r;
     dup_min_path := Sql.min_cell (map path part) |}.

(** ORDER BY: NULL first, then by [Sql.compare]; rows that tie keep the
    order they had. *)
Definition cell_le (a b : Sql.cell) : bool :=
  match a, b with
  | None, _ => true
  | Some _, None => false
  | Some x, Some y =>
      match Sql.compare x y with
      | Gt => false
      | _ => true
      end
  end.

Fixpoint insert_by {A} (k : A -> Sql.cell) (x : A) (l : list A) : list A :=
  match l with
  | [] => [x]
  | y :: l' =>
      if cell_le (k y) (k x) then y :: insert_by k x l' else x :: l
  end.

Definition order_by {A} (k : A -> Sql.cell) (l : list A) : list A :=
  fold_left (fun sorted x => insert_by k x sorted) l [].

Definition select_duplicates (t : table) : list duplicate :=
  order_by dup_min_id
    (filter (fun d => Sql.holds (Sql.ne (dup_id d) (dup_min_id d)))
       (map (windowed t) t)).

(** A field and a line of a CSV file as [csv.writer] gets them. *)
Inductive field : Type :=
| FStr (s : string)
| FCell (c : Sql.cell).

Definition line : Type := list field.

Definition preserved_line (dup : duplicate) : line :=
  [FCell (dup_min_id dup); FCell (dup_min_id dup); FCell (dup_min_path dup);
   FStr "preserved"].

Definition removed_line (dup : duplicate) : line :=
  [FCell (dup_min_id dup); FCell (dup_id dup); FCell (dup_path dup);
   FStr "removed"].

(** The loop over [enumerate(duplicates)]; [prev] is [duplicates[idx - 1]],
    absent at [idx == 0]. *)
Fixpoint audit_lines (prev : option duplicate) (duplicates : list duplicate)
  : list line :=
  match duplicates with
  | [] => []
  | dup :: rest =>
      let first_of_group :=
        match prev with
        | None => true
        | Some p => negb (Sql.same_cell (dup_min_id dup) (dup_min_id p))
        end in
      (if first_of_group then [preserved_line dup] else [])
      ++ [removed_line dup] ++ audit_lines (Some dup) rest
  end.

Definition audit_csv (duplicates : list duplicate) : list line :=
  [FStr "min_id"; FStr "id"; FStr "path"; FStr "status"]
  :: audit_lines None duplicates.

(** GROUP BY: one group per distinct key, in order of first appearance. *)
Fixpoint group_keys (seen : list row) (t : table) : list row :=
  match t with
  | [] => []
  | r :: t' =>
      if existsb (fun k => same_group k r) seen then group_keys seen t'
      else r :: group_keys (r :: seen) t'
  end.

Definition groups (t : table) : list (list row) :=
  map (partition_of t) (group_keys [] t).

(** ... GROUP BY ... HAVING COUNT( * ) > 1 *)
Definition groups_having_count_gt_1 (t : table) : list (list row) :=
  filter (fun g => Nat.ltb 1 (List.length g)) (groups t).

Definition representative (g : list row) : list Sql.cell :=
  match g with
  | r :: _ => key r
  | [] => []
  end.

(** The ids the inner SELECT of the DELETE statement yields. *)
Definition ids_to_delete (t : table) : list Sql.cell :=
  let duplicated := map representative (groups_having_count_gt_1 t) in
  let kept :=
    map (fun g => option_map Sql.Int (Sql.min_int (map id g)))
      (groups_having_count_gt_1 t) in
  map (fun r => Some (Sql.Int (id r)))
    (filter
       (fun r =>
          Sql.holds
            (Sql.and3 (Sql.row_in (key r) duplicated)
               (Sql.not3 (Sql.is_in (Some (Sql.Int (id r))) kept))))
       t).

Definition delete_duplicates (t : table) : table :=
  filter
    (fun r =>
       negb (Sql.holds (Sql.is_in (Some (Sql.Int (id r))) (ids_to_delete t))))
    t.

(** The WHERE clause of the inner SELECT of the DELETE statement, read as
    a proposition. *)
Definition doomed (t : table) (r : row) : Prop :=
  (exists g, In g (groups_having_count_gt_1 t) /\
             Sql.row_eq (key r) (representative g) = Some true) /\
  (forall g, In g (groups_having_count_gt_1 t) ->
             Sql.eq (Some (Sql.Int (id r)))
               (option_map Sql.Int (Sql.min_int (map id g)))
             = Some false).

(** [remove_duplicate_images]: the audit file it writes and the table it
    leaves. *)
Definition remove_duplicate_images (t : table) : list line * table :=
  let duplicates := select_duplicates t in
  (audit_csv duplicates, delete_duplicates t).

(** The id a line of the first SELECT keeps for its group, and the test
    that a line of the audit file is the [preserved] line of the group kept
    under id [m]. *)
Definition min_id_of (d : duplicate) : Z :=
  match dup_min_id d with
  | Some (Sql.Int m) => m
  | _ => 0
  end.

Definition int_keyed (d : duplicate) : Prop :=
  dup_min_id d = Some (Sql.Int (min_id_of d)).

Definition by_min_id (a b : duplicate) : Prop := min_id_of a <= min_id_of b.

Definition preserved_for (m : Z) (l : line) : bool :=
  match l with
  | [FCell (Some (Sql.Int a)); _; _; FStr status] =>
      Z.eqb a m && String.eqb status "preserved"
  | _ => false
  end.

(** *** The whole run *)

(** [create_csv]: the column names, then every row of the table. *)
Definition create_csv (t : table) : list line :=
  map FStr all_column_names :: map (fun r => map FCell (tuple_of r)) t.

(** What a completed [construct_database] leaves behind. *)
Record outcome : Type := mkOutcome {
  images : table;
  csv_file : list line;
  removed_duplicates_csv : list line
}.

Definition construct_database (store : affinity -> literal -> Sql.scalar)
    (db_exists : bool) (src : list folder) : Py.result outcome :=
  t0 <- init_db db_exists ;;
  t1 <- process_all_folders store src t0 ;;
  let csv := create_csv t1 in
  let (audit, t2) := remove_duplicate_images t1 in
  Py.ret {| images := t2; csv_file := csv; removed_duplicates_csv := audit |}.

(** *** Any sequence of writes *)

(** The two statements that change the table, in any order and number. *)
Inductive operation : Type :=
| InsertData (complete_list : list (list Py.value))
| RemoveDuplicates.

Definition perform (store : affinity -> literal -> Sql.scalar) (t : table)
    (op : operation) : Py.result table :=
  match op with
  | InsertData complete_list => insert_data_to_table store complete_list t
  | RemoveDuplicates => Py.ret (snd (remove_duplicate_images t))
  end.

Definition run (store : affinity -> literal -> Sql.scalar)
    (ops : list operation) (t : table) : Py.result table :=
  Py.for_each (perform store) ops t.

(** *** What holds of the table *)

(** A row as an INSERT of this program leaves it: every cell after the id
    filled. *)
Definition filled (r : row) : Prop :=
  path r <> None /\ List.length (params r) = 32%nat /\
  Forall (fun c => c <> None) (params r).

(** No two rows with the same path. *)
Definition paths_distinct (t : table) : Prop :=
  ForallOrdPairs (fun a b => Sql.same_cell (path a) (path b) = false) t.

Definition sound (t : table) : Prop :=
  NoDup (map id t) /\ (forall r, In r t -> filled r) /\ paths_distinct t.

End Toothbase.

(** ** stackview.py *)

Module Stackview.
Import Toothbase.

(** [SELECT * FROM images WHERE id=?] and [fetchone]. *)
Definition fetch_by_id (t : table) (row_id : Z) : option row :=
  find (fun r => Z.eqb (id r) row_id) t.

(** [[i for i in range(len(all_column_names))
      if all_column_names[i] not in ['id', 'path', chosen_param]]] *)
Definition column_indices (chosen_param : string) : list nat :=
  filter
    (fun i =>
       negb (existsb (String.eqb (nth i all_column_names ""))
               ["id"; "path"; chosen_param]))
    (seq 0 (List.length all_column_names)).

(** The WHERE clause of the assembled query on a candidate row:
    [id != ? AND `chosen_param` != ? AND `c1` = ? AND `c2` = ? ...],
    with [query_params] bound in order. *)
Definition where_clause (chosen_param : string) (indices : list nat)
    (query_params : list Sql.cell) (r : row) : Sql.truth :=
  Sql.all3
    (map (fun tp => fst tp (snd tp))
       (combine
          ([Sql.ne (column r "id"); Sql.ne (column r chosen_param)]
           ++ map (fun i => Sql.eq (column r (nth i all_column_names "")))
                indices)
          query_params)).

Definition find_rows_differing_by_param (t : table) (row_id : Z)
    (chosen_param : string) : Py.result (row * list row) :=
  match fetch_by_id t row_id with
  | None => Py.raise Py.TypeError
  | Some base_row =>
      let indices := column_indices chosen_param in
      let column_values := map (at_index base_row) indices in
      match index all_column_names chosen_param with
      | None => Py.raise Py.ValueError
      | Some k =>
          let query_params :=
            [Some (Sql.Int row_id); at_index base_row k] ++ column_values in
          let rows :=
            filter
              (fun r =>
                 Sql.holds (where_clause chosen_param indices query_params r))
              t in
          Py.ret (base_row, rows)
      end
  end.

(** The rows of a result; none when the call raised. *)
Definition rows_of (res : Py.result (row * list row)) : list row :=
  match res with
  | inr (_, rows) => rows
  | inl _ => []
  end.

(** A neighbor of [base] along [chosen_param]: another row, with another
    value there, and the same value in every other column but id and
    path. *)
Definition neighbor (chosen_param : string) (base r : row) : Prop :=
  id r <> id base /\
  Sql.same_cell (column r chosen_param) (column base chosen_param) = false /\
  forall c, In c all_column_names ->
    c <> "id" -> c <> "path" -> c <> chosen_param ->
    Sql.same_cell (column r c) (column base c) = true.

End Stackview.

(** ** helper_functions.py *)

Module HelperFunctions.
Import Toothbase.

(** The part of the machine [export_row_to_file] touches: the database file
    (absent, or holding the images table), the directories and the text
    files, each file as the strings written to it in order (of two entries
    for one path the first is the file, the other what it overwrote). *)
Record world : Type := mkWorld {
  database : option table;
  directories : list string;
  files : list (string * list string)
}.

Definition nl : string := Py.nl.

Section ExportRow.

(** [os.path.join], [os.path.basename], the project root, and the text an
    f-string gives for a fetched value (None, int, float or str). *)
Variable join : string -> string -> string.
Variable basename : string -> string.
Variable project_root : string.
Variable format : Sql.cell -> string.

Definition get_absolute_path (local_path : string) : string :=
  join project_root local_path.

(** The dict literal [params]. *)
Definition params_of (r : row) : Py.dict Sql.cell :=
  [ ("model", at_index r 2); ("viewthresh", at_index r 3);
    ("viewmode", at_index r 4); ("iter", at_index r 5);
    ("Egr", at_index r 6); ("Mgr", at_index r 7); ("Rep", at_index r 8);
    ("Swi", at_index r 9); ("Adh", at_index r 10); ("Act", at_index r 11);
    ("Inh", at_index r 12); ("Sec", at_index r 13); ("Da", at_index r 14);
    ("Di", at_index r 15); ("Ds", at_index r 16); ("Int", at_index r 17);
    ("Set", at_index r 18); ("Boy", at_index r 19); ("Dff", at_index r 20);
    ("Bgr", at_index r 21); ("Abi", at_index r 22); ("Pbi", at_index r 23);
    ("Lbi", at_index r 24); ("Bbi", at_index r 25); ("Rad", at_index r 26);
    ("Deg", at_index r 27); ("Dgr", at_index r 28); ("Ntr", at_index r 29);
    ("Bwi", at_index r 30); ("Ina", at_index r 31) ].

Definition setting_line (params : Py.dict Sql.cell) (name tail : string)
  : Py.result string :=
  v <- Py.item params name ;;
  Py.ret (name ++ "==" ++ format v ++ tail)%string.

(** The argument of each [file.write], in order. *)
Definition file_writes (params : Py.dict Sql.cell)
  : list (Py.result string) :=
  [ Py.ret ("# Model parameters file generated by Toothseeker! (in style of ones created by MorphoMaker 0.6.4.)" ++ nl)%string;
    Py.ret ("# NOTE: Parameter names are case-sensitive, while non-parameter keywords" ++ nl)%string;
    Py.ret ("# (e.g. model, viewtresh) are case-insensitive!" ++ nl ++ nl)%string;
    Py.ret ("# Model name, view threshold, view mode, iterations." ++ nl)%string;
    setting_line params "model" nl;
    setting_line params "viewthresh" nl;
    setting_line params "viewmode" nl;
    setting_line params "iter" (nl ++ nl)%string;
    Py.ret ("# Parameters." ++ nl)%string ]
  ++ map (fun pv => Py.ret (fst pv ++ "==" ++ format (snd pv) ++ nl)%string)
       (filter
          (fun pv =>
             negb (existsb (String.eqb (fst pv))
                     ["model"; "viewthresh"; "viewmode"; "iter"]))
          params).

(** Writing stops at the first argument whose evaluation raises. *)
Fixpoint write_all (writes : list (Py.result string))
  : list string * Py.result unit :=
  match writes with
  | [] => ([], Py.ret tt)
  | inl e :: _ => ([], Py.raise e)
  | inr s :: rest =>
      let (written, r) := write_all rest in (s :: written, r)
  end.

(** [export_row_to_file].  The folder is made when nothing is at its path
    ([os.path.exists] holds of a directory and of a plain file).  The model
    covers the calls where [open] does not fail and the id is one SQLite
    takes: the path of the folder is not the path of a plain file (there
    [makedirs] is skipped and [open] raises [NotADirectoryError]), and
    [row_id] is a 64-bit integer (beyond, [execute] raises
    [OverflowError]). *)
Definition export_row_to_file (w : world) (db_path : string) (row_id : Z)
    (timestamp : string) : Py.result unit * world :=
  match database w with
  | None => (Py.raise Py.AttributeError, w)
  | Some t =>
      match Stackview.fetch_by_id t row_id with
      | None => (Py.ret tt, w)
      | Some r =>
          let params := params_of r in
          let folder_path :=
            get_absolute_path "parameters_exported_to_txt" in
          let dirs :=
            if existsb (String.eqb folder_path)
                 (directories w ++ map fst (files w))
            then directories w
            else folder_path :: directories w in
          let output_file_name :=
            ("id-" ++ format (Some (Sql.Int row_id)) ++ "___"
             ++ basename db_path ++ "___" ++ timestamp ++ ".txt")%string in
          let output_file_path := join folder_path output_file_name in
          let (written, r) := write_all (file_writes params) in
          (r,
           {| database := database w; directories := dirs;
              files := (output_file_path, written) :: files w |})
      end
  end.

End ExportRow.

End HelperFunctions.

(** ** toothbase.py, further *)

Module ToothbaseMore.
Import Toothbase.

(** The list [params] of [read_base_param] before the dict is made of it:
    the parts of every line that is not skipped. *)
Definition base_definitions (lines : list string) : list (list string) :=
  map (fun il => Py.split_eqeq (Py.strip (snd il)))
    (filter (fun il => negb (existsb (Nat.eqb (fst il)) skipped_lines))
       (Py.enumerate lines)).

(** [s] holds [p] somewhere. *)
Definition occurs (p s : string) : Prop :=
  exists a b, s = (a ++ p ++ b)%string.

(** [c] is a character of [s]. *)
Fixpoint has_char (c : ascii) (s : string) : bool :=
  match s with
  | EmptyString => false
  | String a s' => Ascii.eqb a c || has_char c s'
  end.

(** [db_path.replace('db', 'csv')], the name [create_csv] gives the CSV
    file: every [db], from the left, becomes [csv]. *)
Fixpoint replace_db (s : string) : string :=
  match s with
  | EmptyString => EmptyString
  | String c s' =>
      let keep := String c (replace_db s') in
      if Ascii.eqb c "d"%char then
        match s' with
        | String c' s'' =>
            if Ascii.eqb c' "b"%char then ("csv" ++ replace_db s'')%string
            else keep
        | EmptyString => keep
        end
      else keep
  end.

(** A row of the table holds what SQLite stores of a row list. *)
Definition stored_as (store : affinity -> literal -> Sql.scalar)
    (r : list Py.value) (x : row) : Prop :=
  List.length r = 33%nat /\
  path x :: params x = store_row store (tl schema) (map literal_of r).


(** Rowids given in order, from 1 on. *)
Definition numbered (t : table) : Prop :=
  map id t = map Z.of_nat (seq 1 (List.length t)).


(** *** The job parameters file

    The file the patterns of [read_job_param] are written for: for every
    step of a scan a header line with the number of the step and its index
    numbers, one line for every parameter of the scan, and an empty line. *)
Record job_section : Type := mkSection {
  step : string;
  index_numbers : string;
  parameters : list (string * string)
}.

Definition header_line (s : job_section) : string :=
  ("i:" ++ step s ++ " --- " ++ index_numbers s ++ " " ++ Py.nl)%string.

Definition parameter_line (par : string * string) : string :=
  ("par: " ++ fst par ++ ", val: " ++ snd par ++ Py.nl)%string.

Definition section_lines (s : job_section) : list string :=
  header_line s :: map parameter_line (parameters s) ++ [Py.nl].

Definition job_file (sections : list job_section) : list string :=
  flat_map section_lines sections.

(** The key and the dict of a section. *)
Definition section_key (s : job_section) : string :=
  Py.remove_char " " (index_numbers s).

Definition section_dict (s : job_section) : Py.dict string :=
  fold_left (fun d par => Py.set d (fst par) (snd par)) (parameters s) [].

(** What a job parameters file says, whatever reads it: the entry of an
    index string is the last section whose index numbers, without the
    spaces, are that string, and the entry defines a parameter when one of
    its lines names it; the value is that of the last such line. *)
Definition entry_of (sections : list job_section) (id_str : string)
  : option job_section :=
  find (fun s => String.eqb (section_key s) id_str) (rev sections).

Definition override_of (entry : job_section) (name : string)
  : option string :=
  option_map snd
    (find (fun par => String.eqb (fst par) name) (rev (parameters entry))).

(** A section of [n] parameters whose texts stay clear of the marks of the
    patterns: no line break anywhere, no hyphen in the step number, no
    colon in a parameter name, no comma in a value. *)
Definition plain_parameter (par : string * string) : Prop :=
  has_char Py.newline (fst par) = false /\ has_char ":" (fst par) = false /\
  has_char Py.newline (snd par) = false /\ has_char "," (snd par) = false.

Definition well_formed (n : nat) (s : job_section) : Prop :=
  List.length (parameters s) = n /\
  has_char Py.newline (step s) = false /\ has_char "-" (step s) = false /\
  has_char Py.newline (index_numbers s) = false /\
  Forall plain_parameter (parameters s).


(** The locals of [read_job_param] after a parameter line, after a
    section (the first of the file or a later one), and after the sections
    that follow the first. *)
Definition with_parameter (st : job_locals) (par : string * string)
  : job_locals :=
  {| job_dict := job_dict st; n_variables := n_variables st;
     param_dict := Py.set (param_dict st) (fst par) (snd par);
     idx_nums := idx_nums st |}.

Definition after_section (st : job_locals) (s : job_section) (first : bool)
  : job_locals :=
  {| job_dict :=
       if first then job_dict st
       else
         match idx_nums st with
         | Some k => Py.set (job_dict st) k (param_dict st)
         | None => job_dict st
         end;
     n_variables := List.length (parameters s);
     param_dict :=
       fold_left (fun d par => Py.set d (fst par) (snd par)) (parameters s)
         (if first then param_dict st else []);
     idx_nums := Some (section_key s) |}.

Fixpoint after_sections (st : job_locals) (sections : list job_section)
  : job_locals :=
  match sections with
  | [] => st
  | s :: rest => after_sections (after_section st s false) rest
  end.

End ToothbaseMore.

(** ** imagedropwidget_simple_v2.py *)

Module Imagedrop.
Import Toothbase.

(** [relative_path.replace('\\', '\\\\')]: every backslash doubled. *)
Fixpoint double_backslashes (s : string) : string :=
  match s with
  | EmptyString => EmptyString
  | String c s' =>
      if Ascii.eqb c "\"%char then String c (String c (double_backslashes s'))
      else String c (double_backslashes s')
  end.

(** [get_rowid_from_path]: [SELECT id FROM images WHERE path = ?] with the
    path bound as text, then [fetchone()[0]]; the [TypeError] of
    subscripting None is caught and makes the result None.  Without a
    database file [connect_to_database] gives no cursor. *)
Definition get_rowid_from_path (db : option table) (image_path : string)
  : Py.result (option Z) :=
  match db with
  | None => Py.raise Py.AttributeError
  | Some t =>
      match
        find
          (fun r => Sql.holds (Sql.eq (path r) (Some (Sql.Text image_path))))
          t
      with
      | Some r => Py.ret (Some (id r))
      | None => Py.ret None
      end
  end.

(** [process_image], from the relative path on: the row id the signal to
    the main window is emitted with, none when it is not emitted. *)
Definition process_image (db : option table) (relative_path : string)
  : Py.result (option Z) :=
  given_row_id <- get_rowid_from_path db (double_backslashes relative_path) ;;
  match given_row_id with
  | Some k => if Z.eqb k 0 then Py.ret None else Py.ret (Some k)
  | None => Py.ret None
  end.

End Imagedrop.

(** ** helper_functions.py, further *)

Module HelperFunctionsMore.
Import Toothbase HelperFunctions.

(** [check_database_max_row]: [SELECT COUNT( * ) FROM images]; None without
    a database file. *)
Definition check_database_max_row (db : option table) : option Z :=
  match db with
  | None => None
  | Some t => Some (Z.of_nat (List.length t))
  end.

(** [row_exists_in_database]: [SELECT 1 FROM images WHERE rowid=?]. *)
Definition row_exists_in_database (db : option table) (row_id : Z)
  : Py.result bool :=
  match db with
  | None => Py.raise Py.AttributeError
  | Some t => Py.ret (existsb (fun r => Z.eqb (id r) row_id) t)
  end.

(** What a click on OK leaves: the input window closed, with
    [row_id_ref[0]] set or not; the window still open; or the [while True]
    loop still drawing after the draws given. *)
Inductive input_state : Type :=
| Closed (row_id : option Z)
| Open
| Drawing.

(** The loop around [random.randint(1, max_row)], on the numbers it draws
    in order. *)
Fixpoint draw_row_id (db : option table) (draws : list Z)
  : Py.result input_state :=
  match draws with
  | [] => Py.ret Drawing
  | random_id :: rest =>
      found <- row_exists_in_database db random_id ;;
      if found then Py.ret (Closed (Some random_id)) else draw_row_id db rest
  end.

(** [save_input_value], with [value] the number the validated text reads
    as.  numpy's [randint(low, high)] draws from [low] up to [high - 1]
    and raises [ValueError] when there is no such number. *)
Definition save_input_value (db : option table) (value : Z) (draws : list Z)
  : Py.result input_state :=
  match check_database_max_row db with
  | None => Py.ret (Closed None)
  | Some max_row =>
      if Z.eqb max_row 0 then Py.ret (Closed None)
      else if Z.eqb value 0 then
        if Z.leb max_row 1 then Py.raise Py.ValueError
        else draw_row_id db draws
      else if Z.ltb max_row value then Py.ret Open
      else
        found <- row_exists_in_database db value ;;
        if found then Py.ret (Closed (Some value)) else Py.ret Open
  end.


(** The names [export_row_to_file] writes, in the order of its dict. *)
Definition exported_names : list string :=
  [ "model"; "viewthresh"; "viewmode"; "iter"; "Egr"; "Mgr"; "Rep"; "Swi";
    "Adh"; "Act"; "Inh"; "Sec"; "Da"; "Di"; "Ds"; "Int"; "Set"; "Boy";
    "Dff"; "Bgr"; "Abi"; "Pbi"; "Lbi"; "Bbi"; "Rad"; "Deg"; "Dgr"; "Ntr";
    "Bwi"; "Ina" ].

(** A text with no whitespace and no equals sign, as the text of a number
    is. *)
Fixpoint all_chars (f : ascii -> bool) (s : string) : bool :=
  match s with
  | EmptyString => true
  | String c s' => f c && all_chars f s'
  end.

Definition plain_value (s : string) : bool :=
  all_chars (fun c => negb (Py.isspace c) && negb (Ascii.eqb c "=")) s.


Section ExportedText.
Variable format : Sql.cell -> string.

(** A line [name==value] of the exported file, for the value the row has
    in the column of that name. *)
Definition setting_text (r : row) (name tail : string) : string :=
  (name ++ "==" ++ format (column r name) ++ tail)%string.

(** The strings [export_row_to_file] writes for a row, in order. *)
Definition exported_text (r : row) : list string :=
  [ ("# Model parameters file generated by Toothseeker! (in style of ones created by MorphoMaker 0.6.4.)" ++ nl)%string;
    ("# NOTE: Parameter names are case-sensitive, while non-parameter keywords" ++ nl)%string;
    ("# (e.g. model, viewtresh) are case-insensitive!" ++ nl ++ nl)%string;
    ("# Model name, view threshold, view mode, iterations." ++ nl)%string;
    setting_text r "model" nl;
    setting_text r "viewthresh" nl;
    setting_text r "viewmode" nl;
    setting_text r "iter" (nl ++ nl)%string;
    ("# Parameters." ++ nl)%string ]
  ++ map (fun name => setting_text r name nl) (skipn 4 exported_names).
End ExportedText.

End HelperFunctionsMore.

(** ** stackview.py, further *)

Module StackviewMore.
Import Toothbase Stackview.

(** [create_param_name_dict] of helper_functions.py. *)
Definition create_param_name_dict : Py.dict string :=
  [ ("iter", "iterations"); ("Egr", "Epithelial proliferation rate");
    ("Mgr", "Mesenchymal proliferation rate");
    ("Rep", "Young's modulus (stiffness)");
    ("Swi", "Distance from 0 where the borders are defined");
    ("Adh", "Traction between neighbours");
    ("Act", "Activator auto-activation"); ("Inh", "Inhibition of activator");
    ("Sec", "Growth factor secretion rate");
    ("Da", "Activator diffusion rate"); ("Di", "Inhibitor diffusion rate");
    ("Ds", "Growth factor diffusion rate");
    ("Int", "Initial inhibitor threshold.");
    ("Set", "Growth factor threshold");
    ("Boy", "Mesenchyme mechanic resistance");
    ("Dff", "Differentiation rate");
    ("Bgr", "Border growth, amount of mes. in ant.-post.");
    ("Abi", "Anterior bias"); ("Pbi", "Posterior bias");
    ("Lbi", "Lingual bias"); ("Bbi", "Buccal bias");
    ("Rad", "Radius of initial conditions");
    ("Deg", "Protein degradation rate"); ("Dgr", "Downward vector of growth");
    ("Ntr", "Mechanical traction from the borders to the nucleus");
    ("Bwi", "Width of border"); ("Ina", "Initial activator concentration");
    ("uMgr", "Basal mesenchymal proliferation rate") ].

(** [bool(c.fetchone())] after [SELECT * FROM images WHERE id=?]: a row
    tuple is never empty. *)
Definition check_if_row_id_exists (t : table) (row_id : Z) : bool :=
  match fetch_by_id t row_id with
  | Some _ => true
  | None => false
  end.

(** [chosen_param in all_column_names and chosen_param not in
    ['id', 'path']]; [chosen_param] may be None. *)
Definition check_if_chosen_param_exists (chosen_param : option string)
  : bool :=
  match chosen_param with
  | Some p =>
      existsb (String.eqb p) all_column_names
      && negb (existsb (String.eqb p) ["id"; "path"])
  | None => false
  end.

(** The list of [create_param_info_per_slider_index]. *)
Definition all_param_names : list string :=
  [ "iter"; "Egr"; "Mgr"; "Rep"; "Swi"; "Adh"; "Act"; "Inh"; "Sec"; "Da";
    "Di"; "Ds"; "Int"; "Set"; "Boy"; "Dff"; "Bgr"; "Abi"; "Pbi"; "Lbi";
    "Bbi"; "Rad"; "Deg"; "Dgr"; "Ntr"; "Bwi"; "Ina"; "uMgr" ].

(** What the function returns: for every image the name and value of every
    label of the left column (the f-string pads them), and the number in
    every label of the second column. *)
Record param_info : Type := mkParamInfo {
  param_value_strings_per_img : list (list (string * Sql.scalar));
  nb_count_strings_per_img : list (list nat)
}.

Section ParamInfo.

(** [param_name is chosen_param]: whether the two are one object, which
    the text of the strings does not settle; never so when [chosen_param]
    is None. *)
Variable same_object : string -> bool.

(** The inner loop; the counts are set in order, one per name. *)
Definition count_neighbors (t : table) (row_id : Z)
    (st : option row * list nat) (param_name : string)
  : Py.result (option row * list nat) :=
  let (base_row, neighbor_count_per_param) := st in
  if same_object param_name then
    Py.ret (base_row, neighbor_count_per_param ++ [0%nat])
  else
    found <- find_rows_differing_by_param t row_id param_name ;;
    Py.ret (Some (fst found),
            neighbor_count_per_param ++ [List.length (snd found)]).

(** Formatting None with a width raises [TypeError]. *)
Definition value_label (base_row : row) (label : string * nat)
  : Py.result (string * Sql.scalar) :=
  match at_index base_row (snd label) with
  | Some v => Py.ret (fst label, v)
  | None => Py.raise Py.TypeError
  end.

Definition info_of_image (t : table) (st : option row * param_info)
    (row_id : Z) : Py.result (option row * param_info) :=
  counted <- Py.for_each (count_neighbors t row_id) all_param_names
               (fst st, []) ;;
  match fst counted with
  | None => Py.raise Py.TypeError
  | Some base_row =>
      labels <- Py.comprehension (value_label base_row)
                  (combine all_param_names (seq 5 28)) ;;
      Py.ret (Some base_row,
              {| param_value_strings_per_img :=
                   param_value_strings_per_img (snd st) ++ [labels];
                 nb_count_strings_per_img :=
                   nb_count_strings_per_img (snd st) ++ [snd counted] |})
  end.

Definition create_param_info_per_slider_index (t : table)
    (img_ids : list Z) : Py.result param_info :=
  st <- Py.for_each (info_of_image t) img_ids (None, mkParamInfo [] []) ;;
  Py.ret (snd st).

End ParamInfo.

(** The radio buttons of [show_pick_axis_param_option_window]: the id of
    the button, its key, its count. *)
Definition param_buttons (t : table) (row_id : Z)
    (old_chosen_param : option string)
  : Py.result (list (nat * (string * nat))) :=
  info <- create_param_info_per_slider_index (fun _ => false) t [row_id] ;;
  match nb_count_strings_per_img info with
  | [] => Py.raise Py.IndexError
  | counts :: _ =>
      Py.ret
        (filter
           (fun b =>
              negb (Nat.eqb (snd (snd b)) 0)
              && negb
                   match old_chosen_param with
                   | Some old => String.eqb (fst (snd b)) old
                   | None => false
                   end)
           (Py.enumerate (combine (Py.keys create_param_name_dict) counts)))
  end.

(** [show_pick_axis_param_option_window]; [clicked] is the id of the button
    clicked, none when the window is closed.  [exec_] returns what [done]
    was given, and [QDialog.Rejected] is 0. *)
Definition show_pick_axis_param_option_window (t : table) (row_id : Z)
    (old_chosen_param : option string) (clicked : option nat)
  : Py.result (option string) :=
  buttons <- param_buttons t row_id old_chosen_param ;;
  match buttons with
  | [] => Py.ret None
  | _ :: _ =>
      let result :=
        match clicked with
        | Some i => if existsb (Nat.eqb i) (map fst buttons) then i else 0%nat
        | None => 0%nat
        end in
      if Nat.eqb result 0 then Py.ret None
      else if Nat.ltb result (List.length create_param_name_dict) then
        Py.ret (nth_error (Py.keys create_param_name_dict) result)
      else Py.ret None
  end.

(** [list.sort(key=...)] on the values of a column: numbers are ordered by
    value, strs by their characters, equal keys keep their order; a str is
    not ordered against a number, nor None against anything, and a list of
    two items or more that holds both raises [TypeError]. *)
Definition is_number (c : Sql.cell) : bool :=
  match c with
  | Some (Sql.Int _) | Some (Sql.Real _) => true
  | _ => false
  end.

Definition is_str (c : Sql.cell) : bool :=
  match c with
  | Some (Sql.Text _) => true
  | _ => false
  end.

Definition sort_by {A} (key : A -> Sql.cell) (l : list A)
  : Py.result (list A) :=
  if Nat.leb (List.length l) 1
     || forallb (fun x => is_number (key x)) l
     || forallb (fun x => is_str (key x)) l
  then Py.ret (order_by key l)
  else Py.raise Py.TypeError.

(** [stack_images], but for the pixels: the image ids and the values of
    the chosen column, in sorted order (the image arrays are stacked in the
    same order). *)
Definition stack_images (base_row : row) (rows : list row)
    (chosen_param : string) : Py.result (list Z * list Sql.cell) :=
  match index all_column_names chosen_param with
  | None => Py.raise Py.ValueError
  | Some k =>
      let images := map (fun r => (id r, at_index r k)) (base_row :: rows) in
      sorted <- sort_by snd images ;;
      Py.ret (map fst sorted, map snd sorted)
  end.

(** What [init_ui] shows. *)
Record stack : Type := mkStack {
  img_ids : list Z;
  chosen_param_values : list Sql.cell;
  slider : Sql.cell
}.

(** [init_ui] up to the slider: nothing shown after one of its three
    messages.  [int(np.where(img_ids == int(row_id))[0])] is the one place
    of the id, and raises [TypeError] when there is none or more than
    one. *)
Definition init_ui (t : table) (row_id : Z) (chosen_param : option string)
  : Py.result (option stack) :=
  if negb (check_if_row_id_exists t row_id) then Py.ret None
  else if negb (check_if_chosen_param_exists chosen_param) then Py.ret None
  else
    match chosen_param with
    | None => Py.ret None
    | Some p =>
        found <- find_rows_differing_by_param t row_id p ;;
        match snd found with
        | [] => Py.ret None
        | _ :: _ =>
            stacked <- stack_images (fst found) (snd found) p ;;
            match
              filter (fun iv => Z.eqb (fst iv) row_id)
                (combine (fst stacked) (snd stacked))
            with
            | [(_, base_row_value)] =>
                Py.ret (Some {| img_ids := fst stacked;
                                chosen_param_values := snd stacked;
                                slider := base_row_value |})
            | _ => Py.raise Py.TypeError
            end
        end
    end.

(** [StackView.__init__]. *)
Definition init (t : table) (row_id : Z) (chosen_param : option string)
    (old_chosen_param : option string) (clicked : option nat)
  : Py.result (option stack) :=
  if Z.eqb row_id 0 then Py.raise Py.ValueError
  else
    picked <-
      match chosen_param with
      | Some (String c p) => Py.ret (Some (String c p))
      | _ =>
          show_pick_axis_param_option_window t row_id old_chosen_param
            clicked
      end ;;
    init_ui t row_id picked.


(** Values in ascending order, as ORDER BY and [sort] take it. *)
Definition ascending (values : list Sql.cell) : Prop :=
  Sorted (fun a b => cell_le a b = true) values.

End StackviewMore.

(** ** toothseeker.py *)

Module Toothseeker.
Import Toothbase.

(** [p in s] for two strs. *)
Fixpoint contains (p s : string) : bool :=
  match strip_prefix p s with
  | Some _ => true
  | None =>
      match s with
      | EmptyString => false
      | String _ s' => contains p s'
      end
  end.

(** [removeTab(i)] and [setTabText(i, name)] on the names of the tabs. *)
Fixpoint remove_tab (i : nat) (tabs : list string) : list string :=
  match tabs, i with
  | [], _ => []
  | _ :: rest, O => rest
  | tab :: rest, S i' => tab :: remove_tab i' rest
  end.

Fixpoint set_tab_text (i : nat) (name : string) (tabs : list string)
  : list string :=
  match tabs, i with
  | [], _ => []
  | _ :: rest, O => name :: rest
  | tab :: rest, S i' => tab :: set_tab_text i' name rest
  end.

Definition changed_name (tab_name : string) : string :=
  (Py.remove_char Py.newline tab_name ++ Py.nl
   ++ "( database changed! " ++ Py.nl ++ " next steps unreliable! )")%string.

(** The body of the loop of [close_tabs_or_alter_name], and the loop over
    [reversed(range(tab_widget.count()))]. *)
Definition close_or_alter (tabs : list string) (i : nat) : list string :=
  match nth_error tabs i with
  | None => tabs
  | Some tab_name =>
      if contains "ImageDrop" tab_name then remove_tab i tabs
      else set_tab_text i (changed_name tab_name) tabs
  end.

Definition close_tabs_or_alter_name (tabs : list string) : list string :=
  fold_left close_or_alter (rev (seq 0 (List.length tabs))) tabs.

(** [open_new_imagedrop_tab]: the names of the tabs and the index of the
    tab in front. *)
Definition open_new_imagedrop_tab (tabs : list string)
  : list string * nat :=
  let tabs := close_tabs_or_alter_name tabs in
  let new_tab_index := (List.length tabs + 1)%nat in
  ((tabs ++ ["ImageDrop"%string])%list, (new_tab_index - 1)%nat).

End Toothseeker.

(** ** A worked run *)

Module Example.
Import Toothbase.

(** A store for the worked runs: plain decimal text (digits, at most one
    point, an optional leading minus) becomes a number in a numeric
    column, an integer when it has no fraction digits other than zeros and
    the column is not REAL; any other text stays text. *)
Definition digit (c : ascii) : option Z :=
  let n := Z.of_N (Ascii.N_of_ascii c) in
  if (48 <=? n) && (n <=? 57) then Some (n - 48) else None.

(** Numerator and denominator read so far; [frac] tells whether the point
    has been passed. *)
Fixpoint decimal (s : string) (frac : bool) (num den : Z) : option (Z * Z) :=
  match s with
  | EmptyString => Some (num, den)
  | String c s' =>
      if Ascii.eqb c "."%char then
        if frac then None else decimal s' true num den
      else
        match digit c with
        | Some d =>
            decimal s' frac (10 * num + d) (if frac then 10 * den else den)
        | None => None
        end
  end.

Definition number_of_text (s : string) : option Q :=
  match s with
  | EmptyString => None
  | String c s' =>
      let (neg, body) :=
        if Ascii.eqb c "-"%char then (true, s') else (false, s) in
      match body with
      | EmptyString => None
      | _ =>
          match decimal body false 0 1 with
          | Some (n, d) =>
              Some (Qred (Qmake (if neg then - n else n) (Z.to_pos d)))
          | None => None
          end
      end
  end.

Definition decimal_store (a : affinity) (l : literal) : Sql.scalar :=
  match a, l with
  | AffText, LText s => Sql.Text s
  | AffReal, LInt n => Sql.Real (inject_Z n)
  | _, LInt n => Sql.Int n
  | AffReal, LText s =>
      match number_of_text s with
      | Some q => Sql.Real q
      | None => Sql.Text s
      end
  | _, LText s =>
      match number_of_text s with
      | Some q =>
          if Pos.eqb (Qden q) 1 then Sql.Int (Qnum q) else Sql.Real q
      | None => Sql.Text s
      end
  end.

Definition text_line (s : string) : string := (s ++ Py.nl)%string.

(** A base parameters file. *)
Definition parameters_base : list string :=
  map text_line
    [ "# Model parameters file generated by MorphoMaker 0.6.4.";
      "# NOTE: Parameter names are case-sensitive, while non-parameter keywords";
      "# (e.g. model, viewtresh) are case-insensitive!";
      "";
      "# Model name, view threshold, view mode, iterations.";
      "model==tribosphenic"; "viewthresh==0.1000000"; "viewmode==1";
      "iter==9000";
      "";
      "# Parameters.";
      "Egr==0.0170000"; "Mgr==200.0000000"; "Rep==1.0000000";
      "Swi==0.0000000"; "Adh==0.0010000"; "Act==0.1000000";
      "Inh==7.0000000"; "Sec==0.0300000"; "Da==0.2000000";
      "Di==0.2000000"; "Ds==0.2000000"; "Int==0.1600000";
      "Set==0.9500000"; "Boy==0.1000000"; "Dff==0.0002000";
      "Bgr==1.0000000"; "Abi==22.0000000"; "Pbi==1.0000000";
      "Lbi==1.0000000"; "Bbi==1.0000000"; "Rad==2.0000000";
      "Deg==0.1000000"; "Dgr==10000.0000000"; "Ntr==0.0000100";
      "Bwi==0.8000000"; "Ina==0.0000000"; "uMgr==20.0000000" ].

(** Two scans of the inhibitor diffusion rate, one variable each; the
    second repeats the first step of the first. *)
Definition scan_b : folder :=
  {| image_path_list :=
       [ "exports/scan_b/screenshots/ToothMaker_0_0000009000.png";
         "exports/scan_b/screenshots/ToothMaker_1_0000009000.png" ];
     parameters_base_txt := parameters_base;
     job_parameters_txt :=
       map text_line
         [ "i:0 --- 0 "; "par: Di, val: 0.2000000"; "";
           "i:1 --- 1 "; "par: Di, val: 0.4000000"; "" ] |}.

Definition scan_a : folder :=
  {| image_path_list :=
       [ "exports/scan_a/screenshots/ToothMaker_0_0000009000.png" ];
     parameters_base_txt := parameters_base;
     job_parameters_txt :=
       map text_line [ "i:0 --- 0 "; "par: Di, val: 0.2000000"; "" ] |}.

(** The dicts the readers make of the files of the first scan. *)
Definition base : Py.dict string :=
  Eval vm_compute in
    match read_base_param parameters_base with
    | inr d => d
    | inl _ => []
    end.

Definition job_b : Py.dict (Py.dict string) :=
  Eval vm_compute in
    match read_job_param (job_parameters_txt scan_b) with
    | inr d => d
    | inl _ => []
    end.

Definition exports : list folder := [scan_b; scan_a].

(** The table after the inserts, and what the run leaves. *)
Definition inserted : table :=
  Eval vm_compute in
    match process_all_folders decimal_store exports [] with
    | inr t => t
    | inl _ => []
    end.

Definition built : outcome :=
  Eval vm_compute in
    match construct_database decimal_store false exports with
    | inr o => o
    | inl _ => mkOutcome [] [] []
    end.

(** The rows [combine_lists] assembles for the first scan. *)
Definition master_list : list (list Py.value) :=
  Eval vm_compute in
    match combine_lists (image_path_list scan_b) ["0"; "1"] base job_b with
    | inr rows => rows
    | inl _ => []
    end.

(** A session: the rows of the first scan, the duplicate removal, the rows
    of the second scan. *)
Definition session : list operation :=
  [ InsertData master_list; RemoveDuplicates;
    InsertData
      [ Py.Str "exports/scan_a/screenshots/ToothMaker_0_0000009000.png"
        :: tl (nth 0 master_list []) ] ].

Definition after_session : table :=
  Eval vm_compute in
    match run decimal_store session [] with
    | inr t => t
    | inl _ => []
    end.

(** Stand-ins for the library functions of [export_row_to_file]: a join
    with a slash, the part after the last slash, and a text for a fetched
    value (a REAL shown with seven decimals, as the simulator writes them;
    Python prints the shortest decimal that reads back). *)
Definition join (a b : string) : string := (a ++ "/" ++ b)%string.

Fixpoint basename_from (s acc : string) : string :=
  match s with
  | EmptyString => acc
  | String c s' =>
      if Ascii.eqb c "/"%char then basename_from s' s'
      else basename_from s' acc
  end.

Definition basename (s : string) : string := basename_from s s.

Definition text_of_int (n : Z) : string :=
  NilZero.string_of_int (Z.to_int n).

Fixpoint zeros (n : nat) : string :=
  match n with
  | O => EmptyString
  | S n' => String "0"%char (zeros n')
  end.

Definition text_of_real (q : Q) : string :=
  let n := Z.abs (Qnum q) in
  let d := Z.pos (Qden q) in
  let fraction := text_of_int (n mod d * 10000000 / d) in
  let sign := if Z.ltb (Qnum q) 0 then "-" else "" in
  (sign ++ text_of_int (n / d) ++ "."
   ++ zeros (7 - String.length fraction) ++ fraction)%string.

Definition format (c : Sql.cell) : string :=
  match c with
  | None => "None"
  | Some (Sql.Int n) => text_of_int n
  | Some (Sql.Real q) => text_of_real q
  | Some (Sql.Text s) => s
  end.

(** The machine after the run: the database file and nothing exported
    yet. *)
Definition machine : HelperFunctions.world :=
  {| HelperFunctions.database := Some (images built);
     HelperFunctions.directories := [];
     HelperFunctions.files := [] |}.

(** The file [export_row_to_file] writes for the first row, and a folder
    that has it for its base parameters file. *)
Definition exported : list string :=
  Eval vm_compute in
    match
      HelperFunctions.files
        (snd (HelperFunctions.export_row_to_file join basename
                "/opt/toothseeker" format machine "tooth_database.db" 1
                "2024-01-01_12-00-00"))
    with
    | (_, text) :: _ => text
    | [] => []
    end.

Definition scan_c : folder :=
  {| image_path_list :=
       [ "exports/scan_c/screenshots/ToothMaker_0_0000009000.png" ];
     parameters_base_txt := Py.file_lines (String.concat "" exported);
     job_parameters_txt :=
       map text_line [ "i:0 --- 0 "; "par: Di, val: 0.3000000"; "" ] |}.

Definition first_row_of_scan_a : row :=
  Eval vm_compute in
    match process_folder decimal_store [] scan_a with
    | inr (r :: _) => r
    | _ => mkRow 0 None []
    end.

(** A table no run of [construct_database] makes: three rows with a NULL
    [faulty]; the second differs from the first in [model] only, the third
    in nothing but id and path. *)
Definition with_null : table :=
  [ mkRow 1 (Some (Sql.Text "a.png"))
      (Some (Sql.Text "tribosphenic") :: repeat (Some (Sql.Int 0)) 30
       ++ [None]);
    mkRow 2 (Some (Sql.Text "b.png"))
      (Some (Sql.Text "triconodont") :: repeat (Some (Sql.Int 0)) 30
       ++ [None]);
    mkRow 3 (Some (Sql.Text "c.png"))
      (Some (Sql.Text "tribosphenic") :: repeat (Some (Sql.Int 0)) 30
       ++ [None]) ].

Definition no_row : row := mkRow 0 None [].

Definition first_row : row := Eval vm_compute in nth 0 inserted no_row.
Definition second_row : row := Eval vm_compute in nth 1 inserted no_row.
Definition third_row : row := Eval vm_compute in nth 2 inserted no_row.

End Example.

(** ** Further worked runs *)

Module ExampleMore.
Import Toothbase ToothbaseMore Example.

(** The rows of the first scan, inserted after the third row of the worked
    run. *)
Definition after_third : table :=
  Eval vm_compute in
    match insert_data_to_table decimal_store master_list [third_row] with
    | inr t => tl t
    | inl _ => []
    end.


(** A base parameters file that defines [Egr] a second time, on a line
    after the last. *)
Definition repeated_base : list string :=
  parameters_base ++ [text_line "Egr==0.5"].

Definition repeated_dict : Py.dict string :=
  Eval vm_compute in
    match read_base_param repeated_base with
    | inr d => d
    | inl _ => []
    end.


(** The two scans taken in the other order: the kept row of the repeated
    step is the first, the row deleted the second. *)
Definition reordered : outcome :=
  Eval vm_compute in
    match construct_database decimal_store false [scan_a; scan_b] with
    | inr o => o
    | inl _ => mkOutcome [] [] []
    end.

Definition last_of_reordered : row :=
  Eval vm_compute in nth 1 (images reordered) no_row.

(** A row list whose path has parentheses, and the table its insert
    makes. *)
Definition parenthesis_path : string :=
  "exports/scan (1)/screenshots/ToothMaker_0_0000009000.png".

Definition parenthesis_table : table :=
  Eval vm_compute in
    match
      insert_row decimal_store []
        (Py.Str parenthesis_path :: tl (nth 0 master_list []))
    with
    | inr t => t
    | inl _ => []
    end.


(** A scan that differs from [scan_a] in the number of iterations only. *)
Definition scan_d : folder :=
  {| image_path_list :=
       [ "exports/scan_d/screenshots/ToothMaker_0_0000008000.png" ];
     parameters_base_txt :=
       map (fun l => if String.eqb l (text_line "iter==9000")
                     then text_line "iter==8000" else l)
         parameters_base;
     job_parameters_txt :=
       map text_line [ "i:0 --- 0 "; "par: Di, val: 0.2000000"; "" ] |}.

Definition two_iterations : table :=
  Eval vm_compute in
    match construct_database decimal_store false [scan_a; scan_d] with
    | inr o => images o
    | inl _ => []
    end.


(** The job parameters file of the first scan, by its sections. *)
(** A base parameters file without the empty line before the heading of
    the parameters. *)
Definition shifted_base : list string :=
  map text_line
    [ "# Model parameters file generated by MorphoMaker 0.6.4.";
      "# NOTE: Parameter names are case-sensitive, while non-parameter keywords";
      "# (e.g. model, viewtresh) are case-insensitive!";
      "";
      "# Model name, view threshold, view mode, iterations.";
      "model==tribosphenic"; "viewthresh==0.1000000"; "viewmode==1";
      "iter==9000";
      "# Parameters.";
      "Egr==0.0170000"; "Mgr==200.0000000"; "Rep==1.0000000" ].

Definition section_b0 : job_section :=
  {| step := "0"; index_numbers := "0";
     parameters := [("Di", "0.2000000")] |}.

Definition section_b1 : job_section :=
  {| step := "1"; index_numbers := "1";
     parameters := [("Di", "0.4000000")] |}.

Definition sections_b : list job_section := [section_b0; section_b1].

End ExampleMore.

(** * Properties *)

(** ** Three-valued logic and comparison *)

Module SqlFacts.
Import Sql.

Lemma same_refl (a : scalar) : same a a = true.
Proof.
  destruct a as [n | x | s]; unfold same; simpl.
  - apply Qeq_bool_iff, Qeq_refl.
  - apply Qeq_bool_iff, Qeq_refl.
  - apply String.eqb_refl.
Qed.

Lemma same_sym (a b : scalar) : same a b = same b a.
Proof.
  destruct a, b; unfold same; simpl;
    auto using Qeq_bool_comm, String.eqb_sym.
Qed.

Lemma same_trans (a b c : scalar) :
  same a b = true -> same b c = true -> same a c = true.
Proof.
  destruct a, b, c; unfold same; simpl; try discriminate;
    rewrite ?Qeq_bool_iff, ?String.eqb_eq;
    try (intros; eapply Qeq_trans; eassumption).
  congruence.
Qed.

Lemma same_int (m n : Z) : same (Int m) (Int n) = Z.eqb m n.
Proof.
  unfold same; simpl. destruct (Z.eqb_spec m n) as [-> | Hne].
  - apply Qeq_bool_iff, Qeq_refl.
  - destruct (Qeq_bool (inject_Z m) (inject_Z n)) eqn:E; [ | reflexivity ].
    apply Qeq_bool_iff in E. unfold Qeq in E. simpl in E. lia.
Qed.

Lemma ne_int (m n : Z) :
  ne (Some (Int m)) (Some (Int n)) = Some true <-> m <> n.
Proof.
  unfold ne. simpl. rewrite same_int.
  destruct (Z.eqb_spec m n); simpl; split; congruence.
Qed.

Lemma same_cell_refl (a : cell) : same_cell a a = true.
Proof. destruct a; simpl; auto using same_refl. Qed.

Lemma same_cell_sym (a b : cell) : same_cell a b = same_cell b a.
Proof. destruct a, b; simpl; auto using same_sym. Qed.

Lemma same_cell_trans (a b c : cell) :
  same_cell a b = true -> same_cell b c = true -> same_cell a c = true.
Proof.
  destruct a, b, c; simpl; try discriminate; eauto using same_trans.
Qed.

Lemma eq_sym (a b : cell) : eq a b = eq b a.
Proof. destruct a, b; simpl; try reflexivity. now rewrite same_sym. Qed.

Lemma ne_sym (a b : cell) : ne a b = ne b a.
Proof. unfold ne. now rewrite eq_sym. Qed.

(** On cells that are not NULL, [=] is the grouping equality. *)
Lemma eq_true_same (a b : cell) : eq a b = Some true -> same_cell a b = true.
Proof. destruct a, b; simpl; congruence. Qed.

Lemma eq_not_null (a b : cell) :
  a <> None -> b <> None -> eq a b = Some (same_cell a b).
Proof. destruct a, b; simpl; congruence. Qed.

Lemma holds_and3 (a b : truth) :
  holds (and3 a b) = holds a && holds b.
Proof. destruct a as [[|]|], b as [[|]|]; reflexivity. Qed.

Lemma all3_true (l : list truth) :
  all3 l = Some true <-> (forall x, In x l -> x = Some true).
Proof.
  induction l as [ | a l IH]; simpl.
  - split; [ intros _ x [] | reflexivity ].
  - split.
    + intros H x [<- | Hx].
      * destruct a as [[|]|], (all3 l) as [[|]|]; simpl in H; congruence.
      * apply IH; [ | assumption ].
        destruct a as [[|]|], (all3 l) as [[|]|]; simpl in H; congruence.
    + intros H. rewrite (H a (or_introl Logic.eq_refl)).
      destruct IH as [_ IH]. rewrite IH; [ reflexivity | ].
      intros x Hx. apply H. now right.
Qed.

Lemma all3_cons (a : truth) (l : list truth) :
  all3 (a :: l) = Some true <-> a = Some true /\ all3 l = Some true.
Proof.
  simpl. destruct a as [[|]|], (all3 l) as [[|]|]; simpl;
    split; try tauto; try discriminate; intros [? ?]; discriminate.
Qed.

Lemma any3_true (l : list truth) :
  any3 l = Some true <-> In (Some true) l.
Proof.
  induction l as [ | a l IH]; simpl.
  - split; [ discriminate | intros [] ].
  - split.
    + intros H.
      destruct a as [[|]|]; [ now left | right; apply IH | right; apply IH ];
        destruct (any3 l) as [[|]|]; simpl in H; congruence.
    + intros [-> | H]; [ reflexivity | ].
      apply IH in H. rewrite H. destruct a as [[|]|]; reflexivity.
Qed.

Lemma any3_false (l : list truth) :
  any3 l = Some false <-> (forall x, In x l -> x = Some false).
Proof.
  induction l as [ | a l IH]; simpl.
  - split; [ intros _ x [] | reflexivity ].
  - split.
    + intros H x [<- | Hx].
      * destruct a as [[|]|], (any3 l) as [[|]|]; simpl in H; congruence.
      * apply IH; [ | assumption ].
        destruct a as [[|]|], (any3 l) as [[|]|]; simpl in H; congruence.
    + intros H. rewrite (H a (or_introl Logic.eq_refl)).
      destruct IH as [_ IH]. rewrite IH; [ reflexivity | ].
      intros x Hx. apply H. now right.
Qed.

Lemma holds_true (a : truth) : holds a = true <-> a = Some true.
Proof. destruct a as [[|]|]; simpl; split; congruence. Qed.

Lemma holds_not3 (a : truth) : holds (not3 a) = true <-> a = Some false.
Proof. destruct a as [[|]|]; simpl; split; congruence. Qed.

Lemma min_int_spec (l : list Z) (m : Z) :
  min_int l = Some m -> In m l /\ (forall x, In x l -> m <= x).
Proof.
  destruct l as [ | a l]; simpl; [ discriminate | ].
  intros [= <-]. revert a.
  induction l as [ | b l IH]; intros a; simpl.
  - split; [ now left | intros x [<- | []]; lia ].
  - destruct (IH (Z.min a b)) as [Hin Hle]. split.
    + destruct Hin as [Hin | Hin]; [ | now right; right ].
      rewrite <- Hin. destruct (Z.min_spec a b) as [[_ ->] | [_ ->]]; auto.
    + intros x [<- | [<- | Hx]].
      * specialize (Hle _ (or_introl Logic.eq_refl)). lia.
      * specialize (Hle _ (or_introl Logic.eq_refl)). lia.
      * apply Hle. now right.
Qed.

Lemma min_int_some (l : list Z) : l <> [] -> exists m, min_int l = Some m.
Proof. destruct l; [ congruence | simpl; eauto ]. Qed.

End SqlFacts.

(** ** Groups of rows and the DELETE statement *)

Module DuplicateFacts.
Import Sql SqlFacts Toothbase.

Lemma forallb_combine_map {A B C} (f : B * C -> bool) (g : A -> B)
    (h : A -> C) (l : list A) :
  forallb f (combine (map g l) (map h l)) = forallb (fun c => f (g c, h c)) l.
Proof. induction l as [ | a l IH]; simpl; [ | rewrite IH ]; reflexivity. Qed.

Lemma map_combine_map {A B C D} (f : B * C -> D) (g : A -> B) (h : A -> C)
    (l : list A) :
  map f (combine (map g l) (map h l)) = map (fun c => f (g c, h c)) l.
Proof. induction l as [ | a l IH]; simpl; [ | rewrite IH ]; reflexivity. Qed.

Lemma same_group_iff (r1 r2 : row) :
  same_group r1 r2 = true <->
  forall c, In c partition_columns ->
    same_cell (column r1 c) (column r2 c) = true.
Proof.
  unfold same_group, same_key, key.
  rewrite forallb_combine_map, forallb_forall. reflexivity.
Qed.

Lemma same_group_refl (r : row) : same_group r r = true.
Proof. apply same_group_iff. intros; apply same_cell_refl. Qed.

Lemma same_group_sym (r1 r2 : row) :
  same_group r1 r2 = true -> same_group r2 r1 = true.
Proof.
  rewrite !same_group_iff. intros H c Hc.
  rewrite same_cell_sym. now apply H.
Qed.

Lemma same_group_trans (r1 r2 r3 : row) :
  same_group r1 r2 = true -> same_group r2 r3 = true ->
  same_group r1 r3 = true.
Proof.
  rewrite !same_group_iff. intros H12 H23 c Hc.
  eapply same_cell_trans; eauto.
Qed.

(** Rows of one group have the same partition. *)
Lemma partition_of_same (t : table) (r1 r2 : row) :
  same_group r1 r2 = true -> partition_of t r1 = partition_of t r2.
Proof.
  intros H. unfold partition_of. apply filter_ext. intros x.
  destruct (same_group r1 x) eqn:E1, (same_group r2 x) eqn:E2; auto.
  - apply same_group_sym in H.
    rewrite (same_group_trans _ _ _ H E1) in E2. discriminate.
  - rewrite (same_group_trans _ _ _ H E2) in E1. discriminate.
Qed.

Lemma in_partition_of (t : table) (r x : row) :
  In x (partition_of t r) <-> In x t /\ same_group r x = true.
Proof. apply filter_In. Qed.

Lemma row_eq_key (r1 r2 : row) :
  row_eq (key r1) (key r2)
  = all3 (map (fun c => eq (column r1 c) (column r2 c)) partition_columns).
Proof. unfold row_eq, key. now rewrite map_combine_map. Qed.

Lemma row_eq_same_group (r1 r2 : row) :
  row_eq (key r1) (key r2) = Some true -> same_group r1 r2 = true.
Proof.
  rewrite row_eq_key, all3_true, same_group_iff. intros H c Hc.
  apply eq_true_same, H, in_map_iff. eauto.
Qed.

Lemma same_group_row_eq (r1 r2 : row) :
  complete r1 -> complete r2 -> same_group r1 r2 = true ->
  row_eq (key r1) (key r2) = Some true.
Proof.
  intros C1 C2. rewrite row_eq_key, all3_true, same_group_iff.
  intros H x Hx. apply in_map_iff in Hx as (c & <- & Hc).
  rewrite eq_not_null by auto. now rewrite H.
Qed.

(** GROUP BY yields one key for every row. *)
Lemma group_keys_in (t : table) : forall seen k,
  In k (group_keys seen t) -> In k t.
Proof.
  induction t as [ | r t IH]; intros seen k; simpl; [ tauto | ].
  destruct (existsb (fun k0 => same_group k0 r) seen).
  - intros H. right. eauto.
  - intros [<- | H]; [ now left | right; eauto ].
Qed.

Lemma group_keys_cover (t : table) : forall seen r,
  In r t ->
  (exists k, In k seen /\ same_group k r = true) \/
  (exists k, In k (group_keys seen t) /\ same_group k r = true).
Proof.
  induction t as [ | a t IH]; intros seen r; simpl; [ tauto | ].
  destruct (existsb (fun k0 => same_group k0 a) seen) eqn:E.
  - intros [<- | H]; [ | now apply IH ].
    left. apply existsb_exists in E. exact E.
  - intros [<- | H].
    + right. exists a. split; [ now left | apply same_group_refl ].
    + destruct (IH (a :: seen) r H) as [(k & [<- | Hk] & Hs) | (k & Hk & Hs)].
      * right. exists a. split; [ now left | exact Hs ].
      * left. eauto.
      * right. exists k. split; [ now right | exact Hs ].
Qed.

Lemma groups_in (t : table) (g : list row) :
  In g (groups t) -> exists k, In k t /\ g = partition_of t k.
Proof.
  unfold groups. rewrite in_map_iff. intros (k & <- & Hk).
  exists k. split; [ eapply group_keys_in; eauto | reflexivity ].
Qed.

Lemma groups_cover (t : table) (r : row) :
  In r t -> In (partition_of t r) (groups t).
Proof.
  intros Hr. destruct (group_keys_cover t [] r Hr) as [(k & [] & _) | (k & Hk & Hs)].
  rewrite <- (partition_of_same t k r Hs).
  unfold groups. apply in_map. exact Hk.
Qed.

(** The representative of the group of [k] is the key of a row of the
    group. *)
Lemma representative_of_partition (t : table) (k : row) :
  In k t ->
  exists r0, In r0 t /\ same_group k r0 = true /\
             representative (partition_of t k) = key r0.
Proof.
  intros Hk.
  assert (Hin : In k (partition_of t k))
    by (apply in_partition_of; split; [ exact Hk | apply same_group_refl ]).
  destruct (partition_of t k) as [ | r0 g] eqn:E; [ destruct Hin | ].
  exists r0. simpl.
  assert (H0 : In r0 (partition_of t k)) by (rewrite E; now left).
  apply in_partition_of in H0. tauto.
Qed.

(** The primary key. *)
Lemma id_injective (t : table) (a b : row) :
  NoDup (map id t) -> In a t -> In b t -> id a = id b -> a = b.
Proof.
  induction t as [ | x t IH]; simpl; [ tauto | ].
  intros Hnd Ha Hb Hid. inversion Hnd as [ | ? ? Hx Hnd']; subst.
  destruct Ha as [<- | Ha], Hb as [<- | Hb]; auto.
  - exfalso. apply Hx. rewrite Hid. now apply in_map.
  - exfalso. apply Hx. rewrite <- Hid. now apply in_map.
Qed.

Lemma NoDup_rows (t : table) : NoDup (map id t) -> NoDup t.
Proof. apply NoDup_map_inv. Qed.

Lemma two_members {A} (l : list A) (a b : A) :
  In a l -> In b l -> a <> b -> (1 < List.length l)%nat.
Proof.
  destruct l as [ | x [ | y l]]; simpl; try tauto; try lia.
  intros [<- | []] [<- | []] H. congruence.
Qed.

Lemma two_of_many {A} (l : list A) :
  NoDup l -> (1 < List.length l)%nat ->
  exists a b, In a l /\ In b l /\ a <> b.
Proof.
  destruct l as [ | x [ | y l]]; simpl; try lia.
  intros Hnd _. exists x, y. repeat split; auto.
  inversion Hnd as [ | ? ? Hx _]; subst. intros ->. apply Hx. now left.
Qed.

Lemma in_ids_to_delete (t : table) (c : cell) :
  In c (ids_to_delete t) <->
  exists r, In r t /\ doomed t r /\ c = Some (Int (id r)).
Proof.
  unfold ids_to_delete. rewrite in_map_iff. split.
  - intros (r & <- & Hr). apply filter_In in Hr as [Hr Hc].
    exists r. split; [ exact Hr | split; [ | reflexivity ] ].
    rewrite holds_and3 in Hc. apply andb_prop in Hc as [H1 H2].
    apply holds_true in H1. apply holds_not3 in H2.
    split.
    + apply any3_true, in_map_iff in H1 as (k & Hk & Hin).
      apply in_map_iff in Hin as (g & <- & Hg). eauto.
    + intros g Hg. unfold is_in in H2. rewrite any3_false in H2. apply H2.
      apply in_map. apply in_map_iff. eauto.
  - intros (r & Hr & [(g & Hg & Hk) Hmin] & ->).
    exists r. split; [ reflexivity | ].
    apply filter_In. split; [ exact Hr | ].
    rewrite holds_and3. apply andb_true_intro. split.
    + apply holds_true, any3_true, in_map_iff.
      exists (representative g). split; [ exact Hk | now apply in_map ].
    + apply holds_not3, any3_false. intros x Hx.
      apply in_map_iff in Hx as (y & <- & Hy).
      apply in_map_iff in Hy as (g' & <- & Hg'). now apply Hmin.
Qed.

(** The rows the DELETE statement leaves. *)
Lemma in_delete_duplicates (t : table) (r : row) :
  NoDup (map id t) ->
  (In r (delete_duplicates t) <-> In r t /\ ~ doomed t r).
Proof.
  intros Hnd. unfold delete_duplicates. rewrite filter_In.
  split; intros [Hr H]; (split; [ exact Hr | ]).
  - intros Hd. apply negb_true_iff in H.
    assert (Hin : holds (is_in (Some (Int (id r))) (ids_to_delete t)) = true).
    { apply holds_true, any3_true, in_map_iff.
      exists (Some (Int (id r))). split.
      - simpl. now rewrite same_refl.
      - apply in_ids_to_delete. eauto. }
    congruence.
  - apply negb_true_iff.
    destruct (holds (is_in (Some (Int (id r))) (ids_to_delete t))) eqn:E;
      [ | reflexivity ].
    exfalso. apply H.
    apply holds_true, any3_true, in_map_iff in E as (c & Hc & Hin).
    apply in_ids_to_delete in Hin as (r' & Hr' & Hd & ->).
    simpl in Hc. injection Hc as Hc. rewrite same_int in Hc.
    apply Z.eqb_eq in Hc.
    now rewrite (id_injective t r r' Hnd Hr Hr' Hc).
Qed.

Lemma delete_duplicates_incl (t : table) (r : row) :
  In r (delete_duplicates t) -> In r t.
Proof. unfold delete_duplicates. rewrite filter_In. tauto. Qed.

(** A group with more than one row whose key a row matches is the
    partition of that row. *)
Lemma duplicated_group (t : table) (r : row) (g : list row) :
  In g (groups_having_count_gt_1 t) ->
  row_eq (key r) (representative g) = Some true ->
  g = partition_of t r /\ (1 < List.length g)%nat.
Proof.
  intros Hg Hk. apply filter_In in Hg as [Hg Hlen].
  apply Nat.ltb_lt in Hlen. split; [ | exact Hlen ].
  apply groups_in in Hg as (k & Hkt & ->).
  destruct (representative_of_partition t k Hkt) as (r0 & _ & Hs & Hrep).
  rewrite Hrep in Hk. apply row_eq_same_group in Hk.
  apply partition_of_same.
  eapply same_group_trans; [ exact Hs | now apply same_group_sym ].
Qed.

Lemma alone_not_doomed (t : table) (r : row) :
  NoDup (map id t) -> alone_in_group t r -> ~ doomed t r.
Proof.
  intros Hnd Halone [(g & Hg & Hk) _].
  destruct (duplicated_group t r g Hg Hk) as [-> Hlen].
  assert (Hndg : NoDup (partition_of t r))
    by (apply NoDup_filter, NoDup_rows, Hnd).
  destruct (two_of_many _ Hndg Hlen) as (a & b & Ha & Hb & Hab).
  apply in_partition_of in Ha as [Ha Hsa], Hb as [Hb Hsb].
  rewrite (Halone a Ha Hsa), (Halone b Hb Hsb) in Hab. congruence.
Qed.

Lemma lowest_not_doomed (t : table) (r : row) :
  In r t -> lowest_in_group t r -> ~ doomed t r.
Proof.
  intros Hr Hlow [(g & Hg & Hk) Hmin].
  specialize (Hmin g Hg).
  destruct (duplicated_group t r g Hg Hk) as [-> _].
  assert (Hin : In r (partition_of t r))
    by (apply in_partition_of; split; [ exact Hr | apply same_group_refl ]).
  destruct (min_int_some (map id (partition_of t r))) as [m Hm].
  { intros E. apply (in_map id) in Hin. rewrite E in Hin. destruct Hin. }
  rewrite Hm in Hmin. simpl in Hmin. injection Hmin as Hmin.
  rewrite same_int in Hmin. apply Z.eqb_neq in Hmin.
  apply min_int_spec in Hm as [Hmem Hle].
  apply in_map_iff in Hmem as (x & Hx & Hxin).
  apply in_partition_of in Hxin as [Hxt Hxs].
  specialize (Hlow x Hxt Hxs).
  specialize (Hle (id r) (in_map id _ _ Hin)). lia.
Qed.

Lemma not_lowest_doomed (t : table) (r : row) :
  NoDup (map id t) -> (forall x, In x t -> complete x) -> In r t ->
  forall m, min_int (map id (partition_of t r)) = Some m -> m <> id r ->
  doomed t r.
Proof.
  intros Hnd Hcomplete Hr m Hm Hne.
  assert (Hin : In r (partition_of t r))
    by (apply in_partition_of; split; [ exact Hr | apply same_group_refl ]).
  pose proof (min_int_spec _ _ Hm) as [Hmem Hle].
  apply in_map_iff in Hmem as (x & Hx & Hxin).
  split.
  - exists (partition_of t r). split.
    + apply filter_In. split; [ now apply groups_cover | ].
      apply Nat.ltb_lt. apply (two_members _ x r Hxin Hin). congruence.
    + destruct (representative_of_partition t r Hr) as (r0 & Hr0 & Hs & ->).
      apply same_group_row_eq; auto.
  - intros g Hg. apply filter_In in Hg as [Hg Hlen].
    apply Nat.ltb_lt in Hlen.
    apply groups_in in Hg as (k & Hk & ->).
    destruct (min_int_some (map id (partition_of t k))) as [m' Hm'].
    { destruct (partition_of t k); simpl in *; [ lia | discriminate ]. }
    rewrite Hm'. simpl. f_equal. rewrite same_int. apply Z.eqb_neq.
    intros E. apply Hne.
    pose proof (min_int_spec _ _ Hm') as [Hmem' _].
    apply in_map_iff in Hmem' as (y & Hy & Hyin).
    apply in_partition_of in Hyin as [Hyt Hys].
    assert (y = r) by (apply (id_injective t); auto; congruence).
    subst y. rewrite (partition_of_same t k r Hys) in Hm'. congruence.
Qed.

(** The DELETE statement on a table without NULL cells: what stays is the
    lowest id of every group. *)
Lemma delete_duplicates_lowest (t : table) (r : row) :
  NoDup (map id t) -> (forall x, In x t -> complete x) ->
  (In r (delete_duplicates t) <-> In r t /\ lowest_in_group t r).
Proof.
  intros Hnd Hcomplete. rewrite in_delete_duplicates by exact Hnd.
  split; intros [Hr H]; (split; [ exact Hr | ]).
  - assert (Hin : In r (partition_of t r))
      by (apply in_partition_of; split; [ exact Hr | apply same_group_refl ]).
    destruct (min_int_some (map id (partition_of t r))) as [m Hm].
    { intros E. apply (in_map id) in Hin. rewrite E in Hin. destruct Hin. }
    destruct (Z.eq_dec m (id r)) as [E | Hne].
    + intros r' Hr' Hs. rewrite <- E.
      apply (proj2 (min_int_spec _ _ Hm)), in_map, in_partition_of. auto.
    + exfalso. apply H. eapply not_lowest_doomed; eauto.
  - now apply lowest_not_doomed.
Qed.

(** Every group has a row of lowest id. *)
Lemma lowest_exists (t : table) (r : row) :
  In r t ->
  exists k, In k t /\ same_group r k = true /\ lowest_in_group t k.
Proof.
  intros Hr.
  assert (Hin : In r (partition_of t r))
    by (apply in_partition_of; split; [ exact Hr | apply same_group_refl ]).
  destruct (min_int_some (map id (partition_of t r))) as [m Hm].
  { intros E. apply (in_map id) in Hin. rewrite E in Hin. destruct Hin. }
  apply min_int_spec in Hm as [Hmem Hle].
  apply in_map_iff in Hmem as (k & Hk & Hkin).
  apply in_partition_of in Hkin as [Hkt Hks].
  exists k. repeat split; auto.
  intros r' Hr' Hs. rewrite Hk. apply Hle, in_map, in_partition_of.
  split; [ exact Hr' | eapply same_group_trans; eauto ].
Qed.

End DuplicateFacts.

(** ** What the writer maintains *)

Module WriterFacts.
Import Sql SqlFacts Toothbase DuplicateFacts.

Lemma for_each_invariant {A S} (P : S -> Prop)
    (body : S -> A -> Py.result S) :
  (forall s x s', P s -> body s x = inr s' -> P s') ->
  forall xs s s', P s -> Py.for_each body xs s = inr s' -> P s'.
Proof.
  intros Hstep xs. induction xs as [ | x xs IH]; intros s s' Hs; simpl.
  - intros [= <-]. exact Hs.
  - destruct (body s x) as [e | s1] eqn:E; simpl; [ discriminate | ].
    apply IH. eapply Hstep; eauto.
Qed.

Lemma partition_column_index (c : string) :
  In c partition_columns ->
  exists j, index all_column_names c = Some (S (S j)) /\ (j < 32)%nat.
Proof.
  intros H. simpl in H.
  repeat (destruct H as [<- | H];
          [ eexists; split; [ reflexivity | lia ] | ]).
  destruct H.
Qed.

Lemma filled_complete (r : row) : filled r -> complete r.
Proof.
  intros (_ & Hlen & Hall) c Hc.
  destruct (partition_column_index c Hc) as (j & Hj & Hlt).
  unfold column. rewrite Hj. unfold at_index, tuple_of. simpl.
  rewrite Forall_nth in Hall. apply Hall. unfold cell in *. lia.
Qed.

Lemma store_row_length store : forall cols lits,
  List.length cols = List.length lits ->
  List.length (store_row store cols lits) = List.length lits.
Proof.
  induction cols as [ | [n ty] cols IH]; intros [ | l lits]; simpl;
    try discriminate; auto.
Qed.

Lemma store_row_not_null store : forall cols lits,
  Forall (fun c => c <> None) (store_row store cols lits).
Proof.
  induction cols as [ | [n ty] cols IH]; intros [ | l lits]; simpl;
    constructor; [ discriminate | apply IH ].
Qed.

Lemma fold_max_bounds (l : list Z) : forall a,
  a <= fold_left Z.max l a /\ (forall x, In x l -> x <= fold_left Z.max l a).
Proof.
  induction l as [ | b l IH]; intros a; simpl.
  - split; [ lia | tauto ].
  - destruct (IH (Z.max a b)) as [H1 H2]. split; [ lia | ].
    intros x [<- | Hx]; [ lia | auto ].
Qed.

Lemma next_rowid_fresh (t : table) (r : row) :
  In r t -> id r < next_rowid t.
Proof.
  intros Hr. apply (in_map id) in Hr. unfold next_rowid.
  destruct (map id t) as [ | i ids]; [ destruct Hr | ].
  destruct (fold_max_bounds ids i) as [H1 H2].
  destruct Hr as [<- | Hr]; [ lia | ]. specialize (H2 _ Hr). lia.
Qed.

Lemma insert_row_spec store (t t' : table) (r : list Py.value) :
  insert_row store t r = inr t' ->
  exists new,
    t' = t ++ [new] /\ id new = next_rowid t /\ filled new /\
    (forall x, In x t -> same_cell (path x) (path new) = false).
Proof.
  unfold insert_row, Py.raise, Py.ret.
  destruct (Nat.eqb (S (List.length (map literal_of r))) (List.length schema))
    eqn:Elen; cbn [negb]; [ | intros H; discriminate H ].
  apply Nat.eqb_eq in Elen. simpl in Elen. injection Elen as Elen.
  pose proof (store_row_length store (tl schema) (map literal_of r)) as Hlen.
  pose proof (store_row_not_null store (tl schema) (map literal_of r)) as Hnn.
  destruct (store_row store (tl schema) (map literal_of r)) as [ | p ps];
    [ intros H; discriminate H | ].
  destruct (existsb _ t) eqn:Ex; [ intros H; discriminate H | ].
  intros [= <-]. exists (mkRow (next_rowid t) p ps).
  inversion Hnn as [ | ? ? Hp Hps]; subst.
  simpl in Hlen. rewrite Elen in Hlen. specialize (Hlen Logic.eq_refl).
  split; [ reflexivity | ]. split; [ reflexivity | ]. split.
  { unfold filled, cell in *. simpl. repeat split; auto; lia. }
  intros x Hx. simpl.
  assert (Hx' : holds (eq (path x) p) = false).
  { destruct (holds (eq (path x) p)) eqn:E; [ | reflexivity ].
    rewrite <- Ex. symmetry. apply existsb_exists. eauto. }
  destruct (path x), p; simpl in *; try reflexivity; try congruence.
  destruct (same s s0); simpl in Hx'; congruence.
Qed.

Lemma FOP_snoc {A} (R : A -> A -> Prop) (l : list A) (x : A) :
  ForallOrdPairs R l -> Forall (fun a => R a x) l ->
  ForallOrdPairs R (l ++ [x]).
Proof.
  induction 1 as [ | a l Ha Hl IH]; intros Hx; simpl.
  - repeat constructor.
  - inversion Hx as [ | ? ? Hax Hlx]; subst. constructor.
    + apply Forall_app. split; [ exact Ha | repeat constructor; exact Hax ].
    + apply IH, Hlx.
Qed.

Lemma FOP_filter {A} (R : A -> A -> Prop) (f : A -> bool) (l : list A) :
  ForallOrdPairs R l -> ForallOrdPairs R (filter f l).
Proof.
  induction 1 as [ | a l Ha Hl IH]; simpl; [ constructor | ].
  destruct (f a); [ constructor | ]; auto.
  rewrite Forall_forall in *. intros x Hx. apply Ha.
  apply filter_In in Hx. tauto.
Qed.

Lemma NoDup_map_filter {A B} (g : A -> B) (f : A -> bool) (l : list A) :
  NoDup (map g l) -> NoDup (map g (filter f l)).
Proof.
  induction l as [ | a l IH]; simpl; [ auto | ].
  intros H. inversion H as [ | ? ? Ha Hl]; subst.
  destruct (f a); simpl; [ constructor | ]; auto.
  intros Hin. apply Ha. apply in_map_iff in Hin as (x & Hx & Hxin).
  apply filter_In in Hxin as [Hxin _]. rewrite <- Hx. now apply in_map.
Qed.

Lemma sound_empty : sound [].
Proof. split; [ constructor | split; [ intros r [] | constructor ] ]. Qed.

Lemma sound_insert_row store (t t' : table) (r : list Py.value) :
  sound t -> insert_row store t r = inr t' -> sound t'.
Proof.
  intros (Hnd & Hfilled & Hpaths) H.
  apply insert_row_spec in H as (new & -> & Hid & Hnew & Hfresh).
  split; [ | split ].
  - rewrite map_app. simpl. apply NoDup_app; auto.
    + repeat constructor. intros [].
    + intros i Hi [<- | []].
      apply in_map_iff in Hi as (x & Hx & Hxin).
      apply next_rowid_fresh in Hxin. lia.
  - intros r0 H.
    apply in_app_or in H as [H | [<- | []]]; [ now apply Hfilled | apply Hnew ].
  - apply FOP_snoc; [ exact Hpaths | ].
    apply Forall_forall. exact Hfresh.
Qed.

Lemma sound_insert_data_to_table store (l : list (list Py.value))
    (t t' : table) :
  sound t -> insert_data_to_table store l t = inr t' -> sound t'.
Proof.
  unfold insert_data_to_table. apply for_each_invariant.
  intros s x s'. apply sound_insert_row.
Qed.

Lemma sound_process_all_folders store (src : list folder) (t t' : table) :
  sound t -> process_all_folders store src t = inr t' -> sound t'.
Proof.
  unfold process_all_folders. apply for_each_invariant.
  intros s f s' Hs. unfold process_folder.
  destruct (Py.comprehension image_id_str (image_path_list f)) as [e | ids];
    simpl; [ discriminate | ].
  destruct (read_base_param _) as [e | base]; simpl; [ discriminate | ].
  destruct (read_job_param _) as [e | job]; simpl; [ discriminate | ].
  destruct (combine_lists _ _ _ _) as [e | rows]; simpl; [ discriminate | ].
  now apply sound_insert_data_to_table.
Qed.

Lemma sound_delete_duplicates (t : table) :
  sound t -> sound (delete_duplicates t).
Proof.
  intros (Hnd & Hfilled & Hpaths). split; [ | split ].
  - now apply NoDup_map_filter.
  - intros r Hr. apply Hfilled. eapply delete_duplicates_incl; eauto.
  - now apply FOP_filter.
Qed.

(** Every run of [construct_database] that completes goes through a sound
    table of inserted rows, exports it, and leaves what the DELETE
    statement leaves of it. *)
Lemma construct_database_steps store db_exists src out :
  construct_database store db_exists src = inr out ->
  exists inserted,
    process_all_folders store src [] = inr inserted /\ sound inserted /\
    images out = delete_duplicates inserted /\
    csv_file out = create_csv inserted /\
    removed_duplicates_csv out = audit_csv (select_duplicates inserted).
Proof.
  unfold construct_database, init_db.
  destruct db_exists; simpl; [ discriminate | ].
  destruct (process_all_folders store src []) as [e | t1] eqn:E; simpl;
    [ discriminate | ].
  intros [= <-]. exists t1. simpl.
  split; [ reflexivity | ]. split; [ | auto ].
  eapply sound_process_all_folders; [ apply sound_empty | exact E ].
Qed.

End WriterFacts.

(** ** The neighbor query *)

Module StackviewFacts.
Import Sql SqlFacts Toothbase DuplicateFacts WriterFacts Stackview.

Lemma fetch_by_id_in (t : table) (r : row) :
  NoDup (map id t) -> In r t -> fetch_by_id t (id r) = Some r.
Proof.
  unfold fetch_by_id. induction t as [ | x t IH]; simpl; [ tauto | ].
  intros Hnd Hr. inversion Hnd as [ | ? ? Hx Hnd']; subst.
  destruct (Z.eqb_spec (id x) (id r)) as [E | Hne].
  - destruct Hr as [-> | Hr]; [ reflexivity | ].
    exfalso. apply Hx. rewrite E. now apply in_map.
  - destruct Hr as [-> | Hr]; [ congruence | auto ].
Qed.

Lemma fetch_by_id_none (t : table) (row_id : Z) :
  (forall r, In r t -> id r <> row_id) -> fetch_by_id t row_id = None.
Proof.
  intros H. unfold fetch_by_id.
  destruct (find _ t) as [r | ] eqn:E; [ | reflexivity ].
  apply find_some in E as [Hr Hid]. apply Z.eqb_eq in Hid.
  now destruct (H r Hr).
Qed.

Lemma index_in (names : list string) (name : string) :
  In name names -> exists k, index names name = Some k.
Proof.
  induction names as [ | n names IH]; simpl; [ tauto | ].
  intros H. destruct (String.eqb_spec n name) as [E | Hne]; [ eauto | ].
  destruct H as [H | H]; [ congruence | ].
  destruct (IH H) as [k ->]. simpl. eauto.
Qed.

(** The column names are pairwise distinct: each is found at its own
    place. *)
Lemma index_nth (i : nat) :
  (i < List.length all_column_names)%nat ->
  index all_column_names (nth i all_column_names "") = Some i.
Proof.
  intros H.
  assert (Hall :
    forallb
      (fun i =>
         match index all_column_names (nth i all_column_names "") with
         | Some j => Nat.eqb i j
         | None => false
         end)
      (seq 0 (List.length all_column_names)) = true) by reflexivity.
  rewrite forallb_forall in Hall.
  specialize (Hall i). rewrite in_seq in Hall.
  destruct (index all_column_names (nth i all_column_names "")) as [j | ].
  - f_equal. symmetry. apply Nat.eqb_eq, Hall. lia.
  - discriminate Hall. lia.
Qed.

Lemma at_index_column (r : row) (i : nat) :
  (i < List.length all_column_names)%nat ->
  at_index r i = column r (nth i all_column_names "").
Proof. intros H. unfold column. now rewrite index_nth. Qed.

Lemma in_column_indices (p : string) (i : nat) :
  In i (column_indices p) <->
  (i < List.length all_column_names)%nat /\
  nth i all_column_names "" <> "id" /\
  nth i all_column_names "" <> "path" /\
  nth i all_column_names "" <> p.
Proof.
  unfold column_indices. rewrite filter_In, in_seq, negb_true_iff.
  simpl existsb. rewrite !orb_false_iff, !String.eqb_neq.
  split; intros H; repeat split; try tauto; try lia;
    intros E; symmetry in E; tauto.
Qed.

Lemma column_id (r : row) : column r "id" = Some (Int (id r)).
Proof. reflexivity. Qed.

Lemma where_clause_unfold (p : string) (indices : list nat)
    (q0 q1 : cell) (g : nat -> cell) (r : row) :
  where_clause p indices ([q0; q1] ++ map g indices) r
  = all3 (ne (column r "id") q0 :: ne (column r p) q1
          :: map (fun i => eq (column r (nth i all_column_names "")) (g i))
               indices).
Proof.
  unfold where_clause. f_equal.
  cbn [app combine map fst snd]. do 2 f_equal.
  exact (map_combine_map (fun tp => fst tp (snd tp))
           (fun i => eq (column r (nth i all_column_names ""))) g indices).
Qed.

(** The WHERE clause on a candidate [r], for the parameters the function
    binds. *)
Lemma where_clause_holds (p : string) (k : nat) (base r : row) :
  index all_column_names p = Some k ->
  holds
    (where_clause p (column_indices p)
       ([Some (Int (id base)); at_index base k]
        ++ map (at_index base) (column_indices p)) r) = true
  <->
  id r <> id base /\
  ne (column r p) (column base p) = Some true /\
  forall c, In c all_column_names -> c <> "id" -> c <> "path" -> c <> p ->
    eq (column r c) (column base c) = Some true.
Proof.
  intros Hk.
  rewrite where_clause_unfold, holds_true, !all3_cons, all3_true, column_id.
  assert (Hp : at_index base k = column base p)
    by (unfold column; now rewrite Hk).
  rewrite Hp, ne_int.
  apply and_iff_compat_l, and_iff_compat_l. split.
  - intros H c Hc H1 H2 H3.
    destruct (In_nth _ _ "" Hc) as (i & Hi & <-).
    rewrite <- (at_index_column base i Hi).
    apply H, in_map_iff. exists i. split; [ reflexivity | ].
    apply in_column_indices. repeat split; assumption.
  - intros H x Hx.
    apply in_map_iff in Hx as (i & <- & Hi).
    apply in_column_indices in Hi as (Hlt & Hn1 & Hn2 & Hn3).
    rewrite (at_index_column base i Hlt).
    apply H; auto. now apply nth_In.
Qed.

(** The rows the function returns for a base row that is there. *)
Lemma in_find_rows (t : table) (p : string) (base r : row) :
  NoDup (map id t) -> In base t ->
  (In r (rows_of (find_rows_differing_by_param t (id base) p)) <->
   In p all_column_names /\ In r t /\
   id r <> id base /\
   ne (column r p) (column base p) = Some true /\
   forall c, In c all_column_names -> c <> "id" -> c <> "path" -> c <> p ->
     eq (column r c) (column base c) = Some true).
Proof.
  intros Hnd Hbase. unfold find_rows_differing_by_param.
  rewrite (fetch_by_id_in t base Hnd Hbase).
  destruct (index all_column_names p) as [k | ] eqn:Hk.
  - unfold Py.ret. cbn [rows_of].
    rewrite filter_In, (where_clause_holds p k base r Hk).
    assert (In p all_column_names).
    { clear -Hk. revert k Hk.
      induction all_column_names as [ | n names IH]; simpl; [ discriminate | ].
      intros k. destruct (String.eqb_spec n p) as [-> | _]; [ auto | ].
      destruct (index names p); simpl; [ | discriminate ].
      intros _. right. eapply IH. reflexivity. }
    tauto.
  - unfold Py.raise. cbn [rows_of]. split; [ intros [] | ].
    intros (Hp & _). destruct (index_in _ _ Hp) as [k E]. congruence.
Qed.

Lemma parameter_column (c : string) :
  In c all_column_names -> c <> "id" -> c <> "path" ->
  In c partition_columns.
Proof.
  change all_column_names with ("id" :: "path" :: partition_columns).
  intros [E | [E | H]]; congruence.
Qed.

Lemma eq_some_false (a b : cell) :
  eq a b = Some false -> same_cell a b = false.
Proof. destruct a, b; simpl; congruence. Qed.

Lemma ne_true (a b : cell) : ne a b = Some true <-> eq a b = Some false.
Proof.
  unfold ne, not3. destruct (eq a b) as [[|]|]; simpl; split; congruence.
Qed.

End StackviewFacts.

(** ** Comprehensions, dicts and paths *)

Module RowFacts.
Import Sql SqlFacts Toothbase DuplicateFacts WriterFacts.

Lemma comprehension_nth {A B} (f : A -> Py.result B) (xs : list A) :
  forall ys, Py.comprehension f xs = inr ys ->
  forall n x, nth_error xs n = Some x ->
  exists y, nth_error ys n = Some y /\ f x = inr y.
Proof.
  induction xs as [ | a xs IH]; intros ys; simpl.
  - intros _ [ | n] x; discriminate.
  - destruct (f a) as [e | b] eqn:Ea; simpl; [ discriminate | ].
    destruct (Py.comprehension f xs) as [e | bs]; simpl; [ discriminate | ].
    intros [= <-] [ | n] x; simpl.
    + intros [= <-]. eauto.
    + now apply IH.
Qed.

Lemma comprehension_length {A B} (f : A -> Py.result B) (xs : list A) :
  forall ys, Py.comprehension f xs = inr ys ->
  List.length ys = List.length xs.
Proof.
  induction xs as [ | a xs IH]; intros ys; simpl.
  - now intros [= <-].
  - destruct (f a) as [e | b]; simpl; [ discriminate | ].
    destruct (Py.comprehension f xs) as [e | bs]; simpl; [ discriminate | ].
    intros [= <-]. simpl. f_equal. now apply IH.
Qed.

Lemma get_of_key {V} (d : Py.dict V) (k : string) :
  In k (Py.keys d) -> exists v, Py.get d k = Some v.
Proof.
  induction d as [ | [k' v'] d IH]; simpl; [ tauto | ].
  intros H. destruct (String.eqb_spec k' k) as [E | Hne]; [ eauto | ].
  destruct H as [H | H]; [ congruence | auto ].
Qed.

(** What one parameter contributes to a row. *)
Lemma param_item_spec (base : Py.dict string) (job : Py.dict (Py.dict string))
    (id_str name : string) (y : Py.value) :
  In name (Py.keys base) ->
  param_item base job id_str name = inr y ->
  exists overrides default,
    Py.get job id_str = Some overrides /\
    Py.get base name = Some default /\
    y = Py.Str match Py.get overrides name with
               | Some v => v
               | None => default
               end.
Proof.
  intros Hname. destruct (get_of_key base name Hname) as [default Hd].
  unfold param_item, Py.item, Py.mem, Py.bind, Py.ret, Py.raise.
  destruct (Py.get job id_str) as [overrides | ]; [ | discriminate ].
  rewrite Hd.
  destruct (Py.get overrides name) as [v | ] eqn:Ev; simpl;
    intros [= <-]; exists overrides, default; rewrite Ev; auto.
Qed.

Lemma get_set {V} (d : Py.dict V) (k k' : string) (v : V) :
  Py.get (Py.set d k v) k' = if String.eqb k k' then Some v else Py.get d k'.
Proof.
  induction d as [ | [k0 v0] d IH]; simpl.
  - reflexivity.
  - destruct (String.eqb_spec k0 k) as [-> | Hne]; simpl.
    + destruct (String.eqb k k'); reflexivity.
    + rewrite IH. destruct (String.eqb_spec k0 k') as [-> | Hne'];
        [ | reflexivity ].
      destruct (String.eqb_spec k k'); congruence.
Qed.

Lemma keys_set {V} (d : Py.dict V) (k k' : string) (v : V) :
  In k' (Py.keys (Py.set d k v)) <-> k' = k \/ In k' (Py.keys d).
Proof.
  induction d as [ | [k0 v0] d IH]; simpl.
  - intuition.
  - destruct (String.eqb_spec k0 k) as [-> | Hne]; simpl.
    + intuition.
    + rewrite IH. intuition.
Qed.

Lemma in_enumerate {A} (xs : list A) (i : nat) (x : A) :
  In (i, x) (Py.enumerate xs) <-> nth_error xs i = Some x.
Proof.
  unfold Py.enumerate.
  assert (H : forall k, In (i, x) (combine (seq k (List.length xs)) xs)
                        <-> (k <= i)%nat /\ nth_error xs (i - k) = Some x).
  { induction xs as [ | a xs IH]; intros k; simpl.
    - split; [ tauto | ]. intros [_ H]. destruct (i - k)%nat; discriminate.
    - rewrite IH. split.
      + intros [[= <- <-] | [Hle Hn]].
        * split; [ lia | ]. now rewrite Nat.sub_diag.
        * split; [ lia | ].
          replace (i - k)%nat with (S (i - S k)) by lia. exact Hn.
      + intros [Hle Hn]. destruct (Nat.eq_dec i k) as [-> | Hne].
        * rewrite Nat.sub_diag in Hn. injection Hn as <-. now left.
        * right. split; [ lia | ].
          replace (i - k)%nat with (S (i - S k)) in Hn by lia. exact Hn. }
  rewrite H, Nat.sub_0_r. intuition lia.
Qed.

(** [read_base_param]: the names of the dict are the names on the lines
    that are not skipped, and the value of a name is on such a line. *)
Lemma read_base_param_spec (lines : list string) (d : Py.dict string) :
  read_base_param lines = inr d ->
  (forall name,
     In name (Py.keys d) <->
     exists value i line,
       nth_error lines i = Some line /\
       existsb (Nat.eqb i) skipped_lines = false /\
       Py.split_eqeq (Py.strip line) = [name; value]) /\
  (forall name value,
     Py.get d name = Some value ->
     exists i line,
       nth_error lines i = Some line /\
       existsb (Nat.eqb i) skipped_lines = false /\
       Py.split_eqeq (Py.strip line) = [name; value]).
Proof.
  unfold read_base_param.
  set (params := map _ _).
  assert (Hparams : forall name value,
            In [name; value] params <->
            exists i line,
              nth_error lines i = Some line /\
              existsb (Nat.eqb i) skipped_lines = false /\
              Py.split_eqeq (Py.strip line) = [name; value]).
  { intros name value. unfold params.
    rewrite in_map_iff. split.
    - intros ([i line] & Hsplit & Hin). apply filter_In in Hin as [Hin Hskip].
      apply in_enumerate in Hin. apply negb_true_iff in Hskip.
      exists i, line. auto.
    - intros (i & line & Hn & Hskip & Hsplit). exists (i, line).
      split; [ exact Hsplit | ]. apply filter_In.
      split; [ now apply in_enumerate | now apply negb_true_iff ]. }
  clearbody params.
  assert (H : forall d0,
            Py.for_each
              (fun d parts =>
                 match parts with
                 | [param; value] => Py.ret (Py.set d param value)
                 | _ => Py.raise Py.ValueError
                 end) params d0 = inr d ->
            (forall name, In name (Py.keys d) <->
               In name (Py.keys d0) \/ exists value, In [name; value] params)
            /\
            (forall name value, Py.get d name = Some value ->
               Py.get d0 name = Some value \/ In [name; value] params)).
  { clear Hparams. induction params as [ | parts params IH]; intros d0; simpl.
    - intros [= <-]. split.
      + intros name. split; [ auto | ]. intros [H | (v & [])]. exact H.
      + auto.
    - destruct parts as [ | p [ | v [ | x rest]]]; simpl; try discriminate.
      intros H. destruct (IH _ H) as [Hkeys Hget]. split.
      + intros name. rewrite Hkeys, keys_set. split.
        * intros [[-> | Hk] | (value & Hv)]; eauto.
        * intros [Hk | (value & [[= <- <-] | Hv])]; eauto.
      + intros name value Hv. apply Hget in Hv as [Hv | Hv]; [ | auto ].
        rewrite get_set in Hv.
        destruct (String.eqb_spec p name) as [-> | Hne]; [ | auto ].
        injection Hv as <-. right. now left. }
  intros Hd. destruct (H [] Hd) as [Hkeys Hget]. split.
  - intros name. rewrite Hkeys. simpl. split.
    + intros [[] | (value & Hv)]. exists value. now apply Hparams.
    + intros (value & Hv). right. exists value. now apply Hparams.
  - intros name value Hv. apply Hget in Hv as [Hv | Hv]; [ discriminate | ].
    now apply Hparams.
Qed.

(** The rows of [combine_lists], item by item. *)
Lemma combine_lists_rows
    (image_path_list image_id_str_list : list string)
    (base_param_dict : Py.dict string)
    (job_param_dict : Py.dict (Py.dict string))
    (master_list : list (list Py.value)) :
  combine_lists image_path_list image_id_str_list base_param_dict
    job_param_dict = inr master_list ->
  forall n path id_str,
    nth_error (combine image_path_list image_id_str_list) n
    = Some (path, id_str) ->
    exists this_row,
      nth_error master_list n = Some this_row /\
      nth_error this_row 0 = Some (Py.Str path) /\
      forall j param_name,
        nth_error (Py.keys base_param_dict) j = Some param_name ->
        exists overrides default,
          Py.get job_param_dict id_str = Some overrides /\
          Py.get base_param_dict param_name = Some default /\
          nth_error this_row (S j)
          = Some (Py.Str match Py.get overrides param_name with
                         | Some v => v
                         | None => default
                         end).
Proof.
  intros H n path id_str Hn.
  destruct (comprehension_nth _ _ _ H n _ Hn) as (this_row & Hrow & Hc).
  exists this_row. split; [ exact Hrow | ].
  unfold combine_row in Hc.
  destruct (Py.comprehension _ (Py.keys base_param_dict)) as [e | items] eqn:E;
    simpl in Hc; [ discriminate | ].
  injection Hc as <-. split; [ reflexivity | ].
  intros j param_name Hj.
  destruct (comprehension_nth _ _ _ E j _ Hj) as (y & Hy & Hitem).
  apply param_item_spec in Hitem; [ | eapply nth_error_In; eauto ].
  destruct Hitem as (overrides & default & Ho & Hd & ->).
  exists overrides, default. split; [ exact Ho | ]. split; [ exact Hd | ].
  simpl. rewrite nth_error_app1; [ exact Hy | ].
  apply nth_error_Some. congruence.
Qed.

Lemma paths_distinct_identify (t : table) :
  paths_distinct t ->
  forall r1 r2, In r1 t -> In r2 t ->
    same_cell (path r1) (path r2) = true -> r1 = r2.
Proof.
  induction 1 as [ | a l Ha Hl IH]; intros r1 r2; simpl; [ tauto | ].
  rewrite Forall_forall in Ha.
  intros [<- | H1] [<- | H2] Hs; auto.
  - rewrite (Ha _ H2) in Hs. discriminate.
  - rewrite same_cell_sym, (Ha _ H1) in Hs. discriminate.
Qed.

Lemma paths_distinct_NoDup (t : table) :
  paths_distinct t -> NoDup (map path t).
Proof.
  induction 1 as [ | a l Ha Hl IH]; simpl; constructor; auto.
  rewrite Forall_forall in Ha. intros Hin.
  apply in_map_iff in Hin as (x & Hx & Hxin).
  specialize (Ha _ Hxin). rewrite Hx, same_cell_refl in Ha. discriminate.
Qed.

Lemma sound_run store (ops : list operation) (t t' : table) :
  sound t -> run store ops t = inr t' -> sound t'.
Proof.
  unfold run. apply for_each_invariant.
  intros s op s' Hs. destruct op as [complete_list | ]; simpl.
  - now apply sound_insert_data_to_table.
  - intros [= <-]. now apply sound_delete_duplicates.
Qed.

End RowFacts.

(** ** The audit file *)

Module AuditFacts.
Import Sql SqlFacts Toothbase DuplicateFacts WriterFacts.

Lemma in_insert_by {A} (k : A -> cell) (x y : A) (l : list A) :
  In y (insert_by k x l) <-> y = x \/ In y l.
Proof.
  induction l as [ | a l IH]; simpl.
  - intuition.
  - destruct (cell_le (k a) (k x)); simpl; rewrite ?IH; intuition.
Qed.

Lemma in_order_by {A} (k : A -> cell) (y : A) (l : list A) :
  In y (order_by k l) <-> In y l.
Proof.
  unfold order_by.
  assert (H : forall acc,
             In y (fold_left (fun sorted x => insert_by k x sorted) l acc)
             <-> In y l \/ In y acc).
  { induction l as [ | a l IH]; intros acc; simpl; [ tauto | ].
    rewrite IH, in_insert_by. intuition. }
  rewrite H. simpl. tauto.
Qed.

Lemma in_audit_lines (prev : option duplicate) (ds : list duplicate)
    (l : line) :
  In l (audit_lines prev ds) ->
  exists d, In d ds /\ (l = preserved_line d \/ l = removed_line d).
Proof.
  revert prev. induction ds as [ | d ds IH]; intros prev; simpl; [ tauto | ].
  intros H. apply in_app_or in H as [H | [<- | H]].
  - destruct (match prev with
              | Some p => negb (same_cell (dup_min_id d) (dup_min_id p))
              | None => true
              end); [ | destruct H ].
    destruct H as [<- | []]. eauto.
  - eauto.
  - destruct (IH _ H) as (d' & Hd & Hl). eauto.
Qed.

Lemma removed_line_in_audit (prev : option duplicate) (ds : list duplicate)
    (d : duplicate) :
  In d ds -> In (removed_line d) (audit_lines prev ds).
Proof.
  revert prev. induction ds as [ | a ds IH]; intros prev; simpl; [ tauto | ].
  intros [<- | H]; apply in_or_app; right.
  - now left.
  - right. now apply IH.
Qed.

Lemma in_select_duplicates (t : table) (d : duplicate) :
  In d (select_duplicates t) <->
  exists r, In r t /\ d = windowed t r /\
            ne (Some (Int (id r)))
               (option_map Int (min_int (map id (partition_of t r))))
            = Some true.
Proof.
  unfold select_duplicates. rewrite in_order_by, filter_In, in_map_iff.
  split.
  - intros ((r & <- & Hr) & H). apply holds_true in H. eauto.
  - intros (r & Hr & -> & H). split; [ eauto | ]. now apply holds_true.
Qed.

(** The least id of the partition of a row is the id of a row of the
    group. *)
Lemma min_id_of_partition (t : table) (r : row) :
  In r t ->
  exists kept,
    In kept t /\ same_group r kept = true /\ lowest_in_group t kept /\
    min_int (map id (partition_of t r)) = Some (id kept).
Proof.
  intros Hr.
  assert (Hin : In r (partition_of t r))
    by (apply in_partition_of; split; [ exact Hr | apply same_group_refl ]).
  destruct (min_int_some (map id (partition_of t r))) as [m Hm].
  { intros E. apply (in_map id) in Hin. rewrite E in Hin. destruct Hin. }
  pose proof (min_int_spec _ _ Hm) as [Hmem Hle].
  apply in_map_iff in Hmem as (k & Hk & Hkin).
  apply in_partition_of in Hkin as [Hkt Hks].
  exists k. rewrite Hk. repeat split; auto.
  intros r' Hr' Hs. rewrite Hk. apply Hle, in_map, in_partition_of.
  split; [ exact Hr' | eapply same_group_trans; eauto ].
Qed.

(** What the lines of the audit file are: below the header, every line is
    about a row [r] that is not the lowest of its group and the row [kept]
    that is; a [removed] line carries the id and the path of [r], a
    [preserved] line the id of [kept] and the least path of the group. *)
Lemma audit_csv_lines (t : table) (l : line) :
  In l (audit_csv (select_duplicates t)) ->
  l = [FStr "min_id"; FStr "id"; FStr "path"; FStr "status"] \/
  exists r kept,
    In r t /\ In kept t /\ same_group r kept = true /\
    lowest_in_group t kept /\ id kept <> id r /\
    (l = [ FCell (Some (Int (id kept))); FCell (Some (Int (id r)));
           FCell (path r); FStr "removed" ] \/
     l = [ FCell (Some (Int (id kept))); FCell (Some (Int (id kept)));
           FCell (min_cell (map path (partition_of t r)));
           FStr "preserved" ]).
Proof.
  unfold audit_csv. intros [<- | H]; [ now left | right ].
  apply in_audit_lines in H as (d & Hd & Hl).
  apply in_select_duplicates in Hd as (r & Hr & -> & Hne).
  destruct (min_id_of_partition t r Hr) as (kept & Hk & Hs & Hlow & Hmin).
  rewrite Hmin in Hne. apply ne_int in Hne.
  exists r, kept. repeat split; auto.
  unfold preserved_line, removed_line, windowed in Hl. simpl in Hl.
  rewrite Hmin in Hl. simpl in Hl. destruct Hl as [-> | ->]; auto.
Qed.

(** Every row the DELETE statement removes has its [removed] line, with the
    id of the row kept for its group. *)
Lemma audit_csv_logs_removed (t : table) (r : row) :
  sound t -> In r t -> ~ In r (delete_duplicates t) ->
  exists kept,
    In kept (delete_duplicates t) /\ same_group r kept = true /\
    In [ FCell (Some (Int (id kept))); FCell (Some (Int (id r)));
         FCell (path r); FStr "removed" ]
       (audit_csv (select_duplicates t)).
Proof.
  intros (Hnd & Hfilled & _) Hr Hgone.
  assert (Hcomplete : forall x, In x t -> complete x)
    by (intros x Hx; apply filled_complete, Hfilled, Hx).
  destruct (min_id_of_partition t r Hr) as (kept & Hk & Hs & Hlow & Hmin).
  exists kept. split; [ | split; [ exact Hs | ] ].
  - apply delete_duplicates_lowest; auto.
  - assert (E : removed_line (windowed t r)
                = [ FCell (Some (Int (id kept))); FCell (Some (Int (id r)));
                    FCell (path r); FStr "removed" ])
      by (unfold removed_line, windowed; simpl; now rewrite Hmin).
    rewrite <- E. unfold audit_csv. right.
    apply removed_line_in_audit, in_select_duplicates.
    exists r. repeat split; auto.
    rewrite Hmin. apply ne_int. intros E'.
    apply Hgone. apply delete_duplicates_lowest; auto.
    split; [ exact Hr | ].
    assert (r = kept) by (apply (id_injective t); auto).
    now subst.
Qed.

(** *** One [preserved] line for a group *)

Lemma cell_le_int (a b : Z) : cell_le (Some (Int a)) (Some (Int b)) = (a <=? b).
Proof.
  unfold cell_le, compare, Z.leb. simpl. unfold Qcompare. simpl.
  now rewrite !Z.mul_1_r.
Qed.

Lemma insert_by_sorted (x : duplicate) (l : list duplicate) :
  int_keyed x -> Forall int_keyed l ->
  StronglySorted by_min_id l ->
  StronglySorted by_min_id (insert_by dup_min_id x l).
Proof.
  intros Hx Hl Hs. induction Hs as [ | a l Hs IH Ha]; simpl.
  - repeat constructor.
  - inversion Hl as [ | ? ? Hka Hl']; subst.
    rewrite Hka, Hx, cell_le_int.
    destruct (Z.leb_spec (min_id_of a) (min_id_of x)) as [Hle | Hgt].
    + constructor; [ auto | ].
      apply Forall_forall. intros y Hy. apply in_insert_by in Hy as [-> | Hy].
      * exact Hle.
      * rewrite Forall_forall in Ha. now apply Ha.
    + constructor; [ now constructor | ].
      constructor; [ unfold by_min_id; lia | ].
      rewrite Forall_forall in *. intros y Hy.
      specialize (Ha y Hy). unfold by_min_id in *. lia.
Qed.

Lemma order_by_sorted (l : list duplicate) :
  Forall int_keyed l -> StronglySorted by_min_id (order_by dup_min_id l).
Proof.
  unfold order_by. intros Hl.
  assert (H : forall acc,
             Forall int_keyed acc -> StronglySorted by_min_id acc ->
             StronglySorted by_min_id
               (fold_left (fun sorted x => insert_by dup_min_id x sorted) l acc)
             ).
  { induction Hl as [ | a l Ha Hl IH]; intros acc Hacc Hs; simpl; [ auto | ].
    apply IH.
    - apply Forall_forall. intros y Hy. apply in_insert_by in Hy as [-> | Hy];
        [ exact Ha | ]. rewrite Forall_forall in Hacc. now apply Hacc.
    - now apply insert_by_sorted. }
  apply H; constructor.
Qed.

Lemma preserved_for_preserved_line (m : Z) (d : duplicate) :
  int_keyed d ->
  preserved_for m (preserved_line d) = Z.eqb (min_id_of d) m.
Proof.
  intros Hd. unfold preserved_line, preserved_for. rewrite Hd.
  now rewrite andb_true_r.
Qed.

Lemma preserved_for_removed_line (m : Z) (d : duplicate) :
  preserved_for m (removed_line d) = false.
Proof.
  unfold removed_line, preserved_for.
  destruct (dup_min_id d) as [[a | x | s] | ]; try reflexivity.
  now rewrite andb_false_r.
Qed.

(** The loop writes one [preserved] line per run of equal [min_id]s. *)
Lemma count_preserved (m : Z) (ds : list duplicate) :
  Forall int_keyed ds -> StronglySorted by_min_id ds ->
  forall prev,
    match prev with
    | Some p => int_keyed p /\ Forall (by_min_id p) ds
    | None => True
    end ->
    List.length (filter (preserved_for m) (audit_lines prev ds))
    = if existsb (fun d => Z.eqb (min_id_of d) m) ds
         && match prev with
            | Some p => negb (Z.eqb (min_id_of p) m)
            | None => true
            end
      then 1%nat else 0%nat.
Proof.
  intros Hk Hs. induction Hs as [ | d ds Hs IH Hd]; intros prev Hprev.
  - reflexivity.
  - inversion Hk as [ | ? ? Hkd Hk']; subst.
    cbn [audit_lines existsb].
    rewrite !filter_app, !length_app.
    assert (E1 : filter (preserved_for m) [removed_line d] = [])
      by (cbn [filter]; now rewrite preserved_for_removed_line).
    rewrite E1, (IH Hk' (Some d)) by (split; assumption).
    cbn [List.length Nat.add].
    assert (Hlater : min_id_of d <> m ->
              match prev with
              | Some p => min_id_of p = m
              | None => False
              end ->
              existsb (fun d0 => Z.eqb (min_id_of d0) m) ds = false).
    { intros Hdm Hpm. destruct prev as [p | ]; [ | destruct Hpm ].
      destruct Hprev as [_ Hp].
      inversion Hp as [ | ? ? Hpd _]; subst.
      destruct (existsb _ ds) eqn:Ex; [ | reflexivity ].
      exfalso. apply existsb_exists in Ex as (y & Hy & Ey).
      rewrite Forall_forall in Hd. specialize (Hd y Hy).
      apply Z.eqb_eq in Ey. unfold by_min_id in *. lia. }
    assert (Hfirst :
              match prev with
              | Some p => negb (same_cell (dup_min_id d) (dup_min_id p))
              | None => true
              end
              = match prev with
                | Some p => negb (Z.eqb (min_id_of d) (min_id_of p))
                | None => true
                end).
    { destruct prev as [p | ]; [ | reflexivity ].
      destruct Hprev as [Hkp _]. rewrite Hkd, Hkp. cbn [same_cell].
      now rewrite same_int. }
    rewrite Hfirst. clear Hfirst.
    assert (E0 : forall b : bool,
              List.length
                (filter (preserved_for m)
                   (if b then [preserved_line d] else []))
              = if b && Z.eqb (min_id_of d) m then 1%nat else 0%nat).
    { intros [ | ]; cbn [filter andb]; [ | reflexivity ].
      rewrite preserved_for_preserved_line by exact Hkd.
      destruct (Z.eqb (min_id_of d) m); reflexivity. }
    rewrite E0. clear E0.
    destruct prev as [p | ].
    + destruct (Z.eqb_spec (min_id_of d) (min_id_of p)) as [E | Hne];
        destruct (Z.eqb (min_id_of d) m) eqn:Ed;
        destruct (Z.eqb (min_id_of p) m) eqn:Ep;
        rewrite ?Z.eqb_eq, ?Z.eqb_neq in *;
        try (exfalso; lia);
        cbn [negb orb andb Nat.add];
        rewrite ?andb_false_r, ?andb_true_r; try reflexivity.
      rewrite Hlater; [ reflexivity | assumption | assumption ].
    + destruct (Z.eqb (min_id_of d) m);
        cbn [negb orb andb Nat.add];
        rewrite ?andb_false_r, ?andb_true_r; reflexivity.
Qed.

Lemma select_duplicates_int_keyed (t : table) :
  Forall int_keyed (select_duplicates t).
Proof.
  apply Forall_forall. intros d Hd.
  apply in_select_duplicates in Hd as (r & Hr & -> & _).
  destruct (min_id_of_partition t r Hr) as (kept & _ & _ & _ & Hmin).
  unfold int_keyed, min_id_of, windowed. simpl. now rewrite Hmin.
Qed.

(** The audit file has exactly one [preserved] line for every group with a
    row to remove, under the id of the row kept. *)
Lemma audit_csv_one_preserved_line (t : table) (r kept : row) :
  NoDup (map id t) -> In r t -> In kept t ->
  same_group r kept = true -> lowest_in_group t kept -> id kept <> id r ->
  List.length
    (filter (preserved_for (id kept)) (audit_csv (select_duplicates t)))
  = 1%nat.
Proof.
  intros Hnd Hr Hk Hs Hlow Hne.
  unfold audit_csv. cbn [filter preserved_for].
  pose proof (select_duplicates_int_keyed t) as Hkeyed.
  assert (Hsorted : StronglySorted by_min_id (select_duplicates t)).
  { unfold select_duplicates. apply order_by_sorted.
    apply Forall_forall. intros d Hd.
    rewrite Forall_forall in Hkeyed. apply Hkeyed.
    unfold select_duplicates. now apply in_order_by. }
  rewrite (count_preserved (id kept) _ Hkeyed Hsorted None I).
  rewrite andb_true_r.
  destruct (existsb _ (select_duplicates t)) eqn:Ex; [ reflexivity | ].
  exfalso.
  destruct (min_id_of_partition t r Hr) as (kept' & Hk' & Hs' & Hlow' & Hmin).
  assert (Hid : id kept' = id kept).
  { assert (same_group kept kept' = true)
      by (eapply same_group_trans; [ apply same_group_sym | ]; eauto).
    pose proof (Hlow kept' Hk' H).
    pose proof (Hlow' kept Hk (same_group_sym _ _ H)). lia. }
  assert (Hin : In (windowed t r) (select_duplicates t)).
  { apply in_select_duplicates. exists r. repeat split; auto.
    rewrite Hmin. apply ne_int. congruence. }
  assert (Htrue : existsb (fun d => Z.eqb (min_id_of d) (id kept))
                    (select_duplicates t) = true).
  { apply existsb_exists. exists (windowed t r). split; [ exact Hin | ].
    unfold min_id_of, windowed. simpl. rewrite Hmin. simpl.
    apply Z.eqb_eq. exact Hid. }
  congruence.
Qed.

End AuditFacts.

(** ** The readers *)

Module ReaderFacts.
Import Toothbase ToothbaseMore WriterFacts RowFacts.

#[local] Open Scope string_scope.

Lemma strip_prefix_spec (p s rest : string) :
  strip_prefix p s = Some rest <-> s = p ++ rest.
Proof.
  revert s. induction p as [ | a p IH]; intros s; simpl.
  - split; [ now intros [= ->] | now intros -> ].
  - destruct s as [ | b s]; [ split; discriminate | ].
    destruct (Ascii.eqb_spec a b) as [-> | Hne].
    + rewrite IH. split; [ now intros -> | now intros [= ->] ].
    + split; [ discriminate | intros [= ? _]; congruence ].
Qed.

Lemma strip_prefix_app (p rest : string) :
  strip_prefix p (p ++ rest) = Some rest.
Proof. now apply strip_prefix_spec. Qed.

Lemma before_last_none (c : ascii) (s : string) :
  before_last c s = None <-> has_char c s = false.
Proof.
  induction s as [ | a s IH]; simpl; [ tauto | ].
  destruct (before_last c s) as [g | ].
  - split; [ discriminate | ].
    intros H. apply orb_false_iff in H as [_ H]. apply IH in H. discriminate.
  - rewrite (proj1 IH Logic.eq_refl), orb_false_r.
    destruct (Ascii.eqb a c); split; congruence.
Qed.

(** The greedy group: all that comes before the last [c]. *)
Lemma before_last_spec (c : ascii) (s g : string) :
  before_last c s = Some g <->
  exists tail, s = g ++ String c tail /\ has_char c tail = false.
Proof.
  revert g. induction s as [ | a s IH]; intros g; simpl.
  - split; [ discriminate | ].
    intros (tail & H & _). destruct g; discriminate H.
  - destruct (before_last c s) as [g' | ] eqn:E.
    + split.
      * intros [= <-]. destruct (proj1 (IH g') Logic.eq_refl) as (tail & -> & H).
        exists tail. auto.
      * intros (tail & H & Hc). destruct g as [ | b g]; simpl in H.
        -- injection H as -> ->. apply before_last_none in Hc. congruence.
        -- injection H as -> ->. f_equal. f_equal.
           assert (H : Some g' = Some g) by (apply IH; eauto).
           congruence.
    + apply before_last_none in E. split.
      * destruct (Ascii.eqb_spec a c) as [-> | Hne]; [ | discriminate ].
        intros [= <-]. exists s. auto.
      * intros (tail & H & Hc). destruct g as [ | b g]; simpl in H.
        -- injection H as -> ->. now rewrite Ascii.eqb_refl.
        -- injection H as -> ->. exfalso. clear IH.
           induction g as [ | x g IHg]; simpl in E.
           ++ now rewrite Ascii.eqb_refl in E.
           ++ apply orb_false_iff in E as [_ E]. auto.
Qed.

(** A match starts where the prefix occurs and its group can be closed. *)
Lemma first_match_some (p : string) (suffix : option ascii) (s g : string) :
  first_match p suffix s = Some g ->
  exists pre rest, s = pre ++ p ++ rest /\ group_of suffix rest = Some g.
Proof.
  induction s as [ | c s IH]; simpl; [ discriminate | ].
  intros H.
  assert (Hlater : first_match p suffix s = Some g ->
                   exists pre rest,
                     String c s = pre ++ p ++ rest /\
                     group_of suffix rest = Some g).
  { intros H'. destruct (IH H') as (pre & rest & -> & Hg).
    exists (String c pre), rest. auto. }
  destruct (strip_prefix p (String c s)) as [rest | ] eqn:E; [ | auto ].
  destruct (group_of suffix rest) as [g' | ] eqn:Eg; [ | auto ].
  injection H as ->. apply strip_prefix_spec in E.
  exists "", rest. auto.
Qed.

Lemma first_match_none (p : string) (suffix : option ascii) (s : string) :
  p <> "" -> first_match p suffix s = None ->
  forall pre rest, s = pre ++ p ++ rest -> group_of suffix rest = None.
Proof.
  intros Hp. induction s as [ | c s IH]; simpl; intros H pre rest E.
  - destruct pre; [ | discriminate E ]. destruct p; [ congruence | ].
    discriminate E.
  - destruct pre as [ | c' pre]; simpl in E.
    + rewrite E, strip_prefix_app in H.
      destruct (group_of suffix rest); [ discriminate | reflexivity ].
    + injection E as -> E. apply (IH) with (pre := pre); auto.
      destruct (strip_prefix p (String c' s)); [ | exact H ].
      destruct (group_of suffix s0); [ discriminate | exact H ].
Qed.

(** The leftmost of the matches is taken. *)
Lemma first_match_here (p : string) (suffix : option ascii) (rest g : string) :
  p <> "" -> group_of suffix rest = Some g ->
  first_match p suffix (p ++ rest) = Some g.
Proof.
  intros Hp Hg. destruct p as [ | a p]; [ congruence | ].
  change (String a p ++ rest) with (String a (p ++ rest)).
  cbn [first_match].
  change (String a (p ++ rest)) with (String a p ++ rest).
  now rewrite strip_prefix_app, Hg.
Qed.

Lemma first_match_skip (p : string) (suffix : option ascii) (c : ascii)
    (s : string) :
  strip_prefix p (String c s) = None ->
  first_match p suffix (String c s) = first_match p suffix s.
Proof. intros H. cbn [first_match]. now rewrite H. Qed.

(** The match that is taken is the leftmost one: no earlier place where the
    prefix occurs lets the group be closed. *)
Lemma first_match_leftmost (p : string) (suffix : option ascii)
    (s g : string) :
  p <> "" ->
  first_match p suffix s = Some g <->
  exists pre rest,
    s = pre ++ p ++ rest /\ group_of suffix rest = Some g /\
    forall pre' rest',
      s = pre' ++ p ++ rest' ->
      (String.length pre' < String.length pre)%nat ->
      group_of suffix rest' = None.
Proof.
  intros Hp. split.
  - induction s as [ | c s IH]; [ discriminate | ].
    intros H.
    destruct (strip_prefix p (String c s)) as [rest0 | ] eqn:E.
    + destruct (group_of suffix rest0) as [g' | ] eqn:Eg.
      * cbn [first_match] in H. rewrite E, Eg in H. injection H as ->.
        apply strip_prefix_spec in E. exists "", rest0.
        split; [ exact E | ]. split; [ exact Eg | ].
        intros pre' rest' _ Hlt. simpl in Hlt. lia.
      * cbn [first_match] in H. rewrite E, Eg in H.
        destruct (IH H) as (pre & rest & -> & Hg & Hleft).
        exists (String c pre), rest. split; [ reflexivity | ].
        split; [ exact Hg | ].
        intros [ | c' pre'] rest' Heq Hlt.
        -- assert (E' : strip_prefix p (String c (pre ++ p ++ rest))
                        = Some rest')
             by (apply strip_prefix_spec; exact Heq).
           rewrite E in E'. now injection E' as <-.
        -- injection Heq as _ Heq. apply (Hleft pre' rest' Heq).
           simpl in Hlt. lia.
    + rewrite (first_match_skip _ _ _ _ E) in H.
      destruct (IH H) as (pre & rest & -> & Hg & Hleft).
      exists (String c pre), rest. split; [ reflexivity | ].
      split; [ exact Hg | ].
      intros [ | c' pre'] rest' Heq Hlt.
      * assert (E' : strip_prefix p (String c (pre ++ p ++ rest))
                     = Some rest')
          by (apply strip_prefix_spec; exact Heq).
        rewrite E in E'. discriminate.
      * injection Heq as _ Heq. apply (Hleft pre' rest' Heq).
        simpl in Hlt. lia.
  - intros (pre & rest & -> & Hg & Hleft). induction pre as [ | c pre IH].
    + exact (first_match_here p suffix rest g Hp Hg).
    + change (String c pre ++ p ++ rest) with (String c (pre ++ p ++ rest))
        in *.
      assert (Hlater : first_match p suffix (pre ++ p ++ rest) = Some g).
      { apply IH. intros pre' rest' Heq Hlt.
        apply (Hleft (String c pre') rest').
        - simpl. now rewrite Heq.
        - simpl. lia. }
      cbn [first_match].
      destruct (strip_prefix p (String c (pre ++ p ++ rest)))
        as [rest0 | ] eqn:E; [ | exact Hlater ].
      apply strip_prefix_spec in E.
      rewrite (Hleft "" rest0); [ exact Hlater | exact E | simpl; lia ].
Qed.

(** [for_each] over the parts of the lines of a base parameters file. *)
Lemma read_base_param_unfold (lines : list string) :
  read_base_param lines
  = Py.for_each
      (fun d parts =>
         match parts with
         | [param; value] => Py.ret (Py.set d param value)
         | _ => Py.raise Py.ValueError
         end)
      (base_definitions lines) [].
Proof. reflexivity. Qed.

Lemma make_dict_inl (params : list (list string)) :
  forall (d : Py.dict string) (e : Py.exn),
  Py.for_each
    (fun d parts =>
       match parts with
       | [param; value] => Py.ret (Py.set d param value)
       | _ => Py.raise Py.ValueError
       end)
    params d = inl e <->
  e = Py.ValueError /\
  exists parts, In parts params /\ List.length parts <> 2%nat.
Proof.
  induction params as [ | parts params IH]; intros d e; simpl.
  - split; [ discriminate | intros (_ & parts & [] & _) ].
  - destruct parts as [ | a [ | b [ | c parts]]]; simpl.
    + split; [ intros [= <-] | intros (-> & _); reflexivity ].
      split; [ reflexivity | ]. exists []. split; [ now left | discriminate ].
    + split; [ intros [= <-] | intros (-> & _); reflexivity ].
      split; [ reflexivity | ]. exists [a]. split; [ now left | discriminate ].
    + rewrite IH. split.
      * intros (-> & parts & Hin & Hlen). eauto 6.
      * intros (-> & parts & [<- | Hin] & Hlen); [ now destruct Hlen | ].
        eauto.
    + split; [ intros [= <-] | intros (-> & _); reflexivity ].
      split; [ reflexivity | ]. exists (a :: b :: c :: parts).
      split; [ now left | discriminate ].
Qed.

Lemma get_set_same {V} (d : Py.dict V) (k : string) (v : V) :
  Py.get (Py.set d k v) k = Some v.
Proof. rewrite get_set. now rewrite String.eqb_refl. Qed.

Lemma get_set_other {V} (d : Py.dict V) (k k' : string) (v : V) :
  k <> k' -> Py.get (Py.set d k v) k' = Py.get d k'.
Proof.
  intros H. rewrite get_set. destruct (String.eqb_spec k k'); congruence.
Qed.

Lemma make_dict_last (post : list (list string)) (name value : string) :
  (forall v, ~ In [name; v] post) ->
  forall d d',
  Py.get d name = Some value ->
  Py.for_each
    (fun d parts =>
       match parts with
       | [param; value] => Py.ret (Py.set d param value)
       | _ => Py.raise Py.ValueError
       end)
    post d = inr d' ->
  Py.get d' name = Some value.
Proof.
  induction post as [ | parts post IH]; intros Hno d d' Hd; simpl.
  - now intros [= <-].
  - destruct parts as [ | a [ | b [ | c parts]]]; simpl; try discriminate.
    apply IH.
    + intros v Hv. apply (Hno v). now right.
    + rewrite get_set_other; [ exact Hd | ].
      intros ->. apply (Hno b). now left.
Qed.

Lemma for_each_app {A S} (body : S -> A -> Py.result S) (xs ys : list A)
    (s : S) :
  Py.for_each body (xs ++ ys) s
  = Py.bind (Py.for_each body xs s) (Py.for_each body ys).
Proof.
  revert s. induction xs as [ | x xs IH]; intros s; simpl; [ reflexivity | ].
  destruct (body s x) as [e | s']; simpl; auto.
Qed.

End ReaderFacts.

(** ** The job parameters file *)

Module JobFacts.
Import Toothbase ToothbaseMore WriterFacts RowFacts ReaderFacts.

#[local] Open Scope string_scope.

Lemma append_assoc (a b c : string) : (a ++ b) ++ c = a ++ b ++ c.
Proof. induction a as [ | x a IH]; simpl; [ reflexivity | now rewrite IH ]. Qed.

Lemma has_char_app (c : ascii) (a b : string) :
  has_char c (a ++ b) = has_char c a || has_char c b.
Proof.
  induction a as [ | x a IH]; simpl; [ reflexivity | ].
  now rewrite IH, orb_assoc.
Qed.

Lemma line_of_plain (s rest : string) :
  has_char Py.newline s = false ->
  line_of (s ++ String Py.newline rest) = s.
Proof.
  induction s as [ | c s IH]; simpl.
  - intros _. reflexivity.
  - intros H. apply orb_false_iff in H as [-> H]. now rewrite IH.
Qed.

Lemma line_of_whole (s : string) :
  has_char Py.newline s = false -> line_of s = s.
Proof.
  induction s as [ | c s IH]; simpl; [ reflexivity | ].
  intros H. apply orb_false_iff in H as [-> H]. now rewrite IH.
Qed.

(** A match after a stretch in which the prefix does not start. *)
Lemma first_match_after (p : string) (suffix : option ascii)
    (pre rest g : string) :
  p <> "" ->
  (forall a b, pre = a ++ b -> b <> "" -> strip_prefix p (b ++ p ++ rest) = None) ->
  group_of suffix rest = Some g ->
  first_match p suffix (pre ++ p ++ rest) = Some g.
Proof.
  intros Hp Hpre Hg. induction pre as [ | c pre IH].
  - exact (first_match_here p suffix rest g Hp Hg).
  - change (String c pre ++ p ++ rest) with (String c (pre ++ p ++ rest)).
    rewrite first_match_skip.
    + apply IH. intros a b E Hb. apply (Hpre (String c a) b); [ | exact Hb ].
      simpl. now rewrite E.
    + apply (Hpre "" (String c pre)); [ reflexivity | discriminate ].
Qed.

Lemma strip_prefix_head (a c : ascii) (p s : string) :
  a <> c -> strip_prefix (String a p) (String c s) = None.
Proof.
  intros H. simpl. destruct (Ascii.eqb_spec a c); [ contradiction | reflexivity ].
Qed.

Lemma suffix_head (pre a : string) (c : ascii) (b' : string) :
  pre = a ++ String c b' -> has_char c pre = true.
Proof.
  intros ->. rewrite has_char_app. simpl. rewrite Ascii.eqb_refl.
  apply orb_true_r.
Qed.

(** The two searches of a header line. *)
Lemma header_middle (s : job_section) :
  has_char Py.newline (step s) = false ->
  has_char Py.newline (index_numbers s) = false ->
  findall_0 "i:" (Some " "%char) (header_line s)
  = inr (step s ++ " --- " ++ index_numbers s).
Proof.
  intros H1 H2. unfold findall_0, header_line.
  rewrite (first_match_here "i:" (Some " "%char) _
             (step s ++ " --- " ++ index_numbers s)); [ reflexivity | discriminate | ].
  unfold group_of.
  replace (step s ++ " --- " ++ index_numbers s ++ " " ++ Py.nl)
    with ((step s ++ " --- " ++ index_numbers s ++ " ")
          ++ String Py.newline "")
    by (now rewrite !append_assoc).
  rewrite line_of_plain.
  - apply before_last_spec. exists "". split; [ | reflexivity ].
    now rewrite !append_assoc.
  - rewrite !has_char_app, H1, H2. reflexivity.
Qed.

Lemma header_found (s : job_section) :
  has_char "-" (step s) = false ->
  has_char Py.newline (index_numbers s) = false ->
  findall_0 "--- " None (step s ++ " --- " ++ index_numbers s)
  = inr (index_numbers s).
Proof.
  intros H1 H2. unfold findall_0.
  replace (step s ++ " --- " ++ index_numbers s)
    with ((step s ++ " ") ++ "--- " ++ index_numbers s)
    by (now rewrite !append_assoc).
  rewrite (first_match_after "--- " None _ _ (index_numbers s));
    [ reflexivity | discriminate | | ].
  - intros a b E Hb. destruct b as [ | c b]; [ congruence | ].
    change (String c b ++ "--- " ++ index_numbers s)
      with (String c (b ++ "--- " ++ index_numbers s)).
    apply strip_prefix_head. intros <-.
    apply suffix_head in E. rewrite has_char_app, H1 in E. discriminate E.
  - simpl. now rewrite line_of_whole.
Qed.


Lemma no_val_at (name rest : string) :
  has_char ":" name = false ->
  strip_prefix "val: " (name ++ ", val: " ++ rest) = None.
Proof.
  intros H.
  destruct name as [ | c1 [ | c2 [ | c3 [ | c4 n]]]];
    cbn [append strip_prefix];
    repeat match goal with
           | |- context [Ascii.eqb ?a ?b] =>
               destruct (Ascii.eqb_spec a b); subst
           end;
    try reflexivity; try discriminate.
Qed.

Lemma no_val_in_name (name rest : string) :
  has_char ":" name = false ->
  forall a b,
    name ++ ", " = a ++ b -> b <> "" ->
    strip_prefix "val: " (b ++ "val: " ++ rest) = None.
Proof.
  induction name as [ | c name IH]; intros H a b E Hb.
  - destruct a as [ | c1 [ | c2 [ | c3 a]]]; simpl in E.
    + subst b. reflexivity.
    + injection E as <- <-. reflexivity.
    + injection E as <- <- <-. congruence.
    + discriminate E.
  - destruct a as [ | c1 a]; simpl in E.
    + subst b. cbn [append]. rewrite append_assoc.
      exact (no_val_at (String c name) rest H).
    + injection E as <- E. simpl in H. apply orb_false_iff in H as [_ H].
      eapply IH; eauto.
Qed.

Lemma parameter_name (par : string * string) :
  plain_parameter par ->
  findall_0 "par: " (Some ","%char) (parameter_line par) = inr (fst par).
Proof.
  intros (H1 & _ & H3 & H4). unfold findall_0, parameter_line.
  rewrite (first_match_here "par: " (Some ","%char) _ (fst par));
    [ reflexivity | discriminate | ].
  unfold group_of.
  replace (fst par ++ ", val: " ++ snd par ++ Py.nl)
    with ((fst par ++ ", val: " ++ snd par) ++ String Py.newline "")
    by (now rewrite !append_assoc).
  rewrite line_of_plain by (rewrite !has_char_app, H1, H3; reflexivity).
  apply before_last_spec. exists (" val: " ++ snd par). split; [ reflexivity | ].
  rewrite has_char_app, H4. reflexivity.
Qed.

Lemma parameter_value (par : string * string) :
  plain_parameter par ->
  findall_0 "val: " None (parameter_line par) = inr (snd par).
Proof.
  intros (_ & H2 & H3 & _). unfold findall_0, parameter_line.
  replace ("par: " ++ fst par ++ ", val: " ++ snd par ++ Py.nl)
    with (("par: " ++ fst par ++ ", ") ++ "val: " ++ snd par ++ Py.nl)
    by (now rewrite !append_assoc).
  rewrite (first_match_after "val: " None _ _ (snd par));
    [ reflexivity | discriminate | | ].
  - intros a b E Hb.
    destruct a as [ | c1 [ | c2 [ | c3 [ | c4 [ | c5 a]]]]]; simpl in E;
      try (subst b; reflexivity);
      try (injection E as <- <-; reflexivity);
      try (injection E as <- <- <-; reflexivity);
      try (injection E as <- <- <- <-; reflexivity);
      try (injection E as <- <- <- <- <-; reflexivity).
    injection E as _ _ _ _ _ E. symmetry in E.
    apply (no_val_in_name (fst par) (snd par ++ Py.nl) H2 a b); auto.
  - unfold group_of. unfold Py.nl. now rewrite line_of_plain.
Qed.

Lemma read_parameter_line (st : job_locals) (i : nat) (par : string * string) :
  plain_parameter par ->
  Nat.eqb (Nat.modulo i (n_variables st + 2)) 0 = false ->
  read_job_line st (i, parameter_line par) = inr (with_parameter st par).
Proof.
  intros Hp Hi. unfold read_job_line.
  change (String.eqb (parameter_line par) Py.nl) with false. cbv iota.
  rewrite Hi, (parameter_name par Hp), (parameter_value par Hp). reflexivity.
Qed.

Lemma read_blank_line (st : job_locals) (i : nat) :
  read_job_line st (i, Py.nl) = inr st.
Proof. reflexivity. Qed.

Lemma read_first_header (st : job_locals) (s : job_section) :
  has_char Py.newline (step s) = false -> has_char "-" (step s) = false ->
  has_char Py.newline (index_numbers s) = false ->
  read_job_line st (0%nat, header_line s)
  = inr {| job_dict := job_dict st;
           n_variables := String.length (Py.remove_char "X" (section_key s));
           param_dict := param_dict st;
           idx_nums := Some (section_key s) |}.
Proof.
  intros H1 H2 H3. unfold read_job_line.
  change (String.eqb (header_line s) Py.nl) with false. cbv iota.
  rewrite Nat.Div0.mod_0_l. cbn [Nat.eqb Py.bind Py.ret].
  rewrite (header_middle s H1 H3). cbn [Py.bind].
  rewrite (header_found s H2 H3). reflexivity.
Qed.

Lemma read_later_header (st : job_locals) (i : nat) (s : job_section)
    (k : string) :
  has_char Py.newline (step s) = false -> has_char "-" (step s) = false ->
  has_char Py.newline (index_numbers s) = false ->
  i <> 0%nat -> Nat.modulo i (n_variables st + 2) = 0%nat ->
  idx_nums st = Some k ->
  read_job_line st (i, header_line s)
  = inr {| job_dict := Py.set (job_dict st) k (param_dict st);
           n_variables := n_variables st;
           param_dict := [];
           idx_nums := Some (section_key s) |}.
Proof.
  intros H1 H2 H3 Hi Hm Hk. unfold read_job_line.
  change (String.eqb (header_line s) Py.nl) with false. cbv iota.
  rewrite Hm. cbn [Nat.eqb].
  destruct i as [ | i]; [ congruence | ]. cbn [Nat.eqb].
  rewrite Hk. cbn [Py.bind Py.ret].
  rewrite (header_middle s H1 H3). cbn [Py.bind].
  rewrite (header_found s H2 H3). reflexivity.
Qed.


Lemma combine_seq_app {A} (l1 l2 : list A) (start : nat) :
  combine (seq start (List.length (l1 ++ l2)%list)) (l1 ++ l2)%list
  = (combine (seq start (List.length l1)) l1
     ++ combine (seq (start + List.length l1) (List.length l2)) l2)%list.
Proof.
  revert start. induction l1 as [ | a l1 IH]; intros start; simpl.
  - now rewrite Nat.add_0_r.
  - f_equal. rewrite IH. do 3 f_equal. lia.
Qed.

Lemma mod_offset (j m r : nat) :
  (r < m)%nat -> Nat.modulo (j * m + r) m = r.
Proof.
  intros H. rewrite Nat.add_comm, Nat.Div0.mod_add. now apply Nat.mod_small.
Qed.

(** The parameter lines of a section. *)
Lemma read_parameters (n j : nat) (pars : list (string * string)) :
  Forall plain_parameter pars ->
  forall (st : job_locals) (r : nat),
    n_variables st = n -> (0 < r)%nat -> (r + List.length pars < n + 2)%nat ->
    Py.for_each read_job_line
      (combine (seq (j * (n + 2) + r) (List.length (map parameter_line pars)))
         (map parameter_line pars))
      st
    = inr {| job_dict := job_dict st; n_variables := n_variables st;
             param_dict :=
               fold_left (fun d par => Py.set d (fst par) (snd par)) pars
                 (param_dict st);
             idx_nums := idx_nums st |}.
Proof.
  induction 1 as [ | par pars Hp Hpars IH]; intros st r Hn Hr Hlen.
  - destruct st; reflexivity.
  - cbn [map List.length seq combine Py.for_each fold_left].
    rewrite (read_parameter_line st _ par Hp).
    + cbn [Py.bind].
      replace (S (j * (n + 2) + r)) with (j * (n + 2) + S r)%nat by lia.
      rewrite IH; [ reflexivity | exact Hn | lia | simpl in Hlen; lia ].
    + rewrite Hn, mod_offset by (simpl in Hlen; lia).
      apply Nat.eqb_neq. lia.
Qed.

Lemma read_first_section (st : job_locals) (s : job_section) :
  well_formed (String.length (Py.remove_char "X" (section_key s))) s ->
  Py.for_each read_job_line
    (combine (seq 0 (List.length (section_lines s))) (section_lines s)) st
  = inr (after_section st s true).
Proof.
  intros (Hn & H1 & H2 & H3 & Hp). unfold section_lines.
  cbn [List.length seq combine Py.for_each].
  rewrite (read_first_header st s H1 H2 H3). cbn [Py.bind].
  rewrite (combine_seq_app (map parameter_line (parameters s)) [Py.nl] 1).
  rewrite for_each_app.
  pose proof (read_parameters (List.length (parameters s)) 0 (parameters s) Hp)
    as Hr.
  cbn [Nat.mul Nat.add] in Hr. rewrite Hr; [ | | lia | lia ].
  - cbn [Py.bind List.length seq combine Py.for_each job_dict n_variables
           param_dict idx_nums].
    rewrite read_blank_line. cbn [Py.bind Py.ret].
    unfold after_section. now rewrite Hn.
  - cbn [n_variables]. now rewrite Hn.
Qed.

Lemma read_later_section (st : job_locals) (s : job_section) (j : nat)
    (k : string) :
  well_formed (n_variables st) s -> j <> 0%nat -> idx_nums st = Some k ->
  Py.for_each read_job_line
    (combine (seq (j * (n_variables st + 2)) (List.length (section_lines s)))
       (section_lines s)) st
  = inr (after_section st s false).
Proof.
  intros (Hn & H1 & H2 & H3 & Hp) Hj Hk. unfold section_lines.
  cbn [List.length seq combine Py.for_each].
  rewrite (read_later_header st _ s k H1 H2 H3); [ | nia | | exact Hk ].
  - cbn [Py.bind].
    rewrite (combine_seq_app (map parameter_line (parameters s)) [Py.nl]).
    rewrite for_each_app.
    replace (S (j * (n_variables st + 2)))
      with (j * (n_variables st + 2) + 1)%nat by lia.
    rewrite (read_parameters (n_variables st) j (parameters s) Hp);
      [ | reflexivity | lia | lia ].
    cbn [Py.bind List.length seq combine Py.for_each job_dict n_variables
           param_dict idx_nums].
    rewrite read_blank_line. cbn [Py.bind Py.ret].
    unfold after_section. now rewrite Hk, Hn.
  - replace (j * (n_variables st + 2))%nat
      with (j * (n_variables st + 2) + 0)%nat by lia.
    apply mod_offset. lia.
Qed.

Lemma length_section_lines (n : nat) (s : job_section) :
  well_formed n s -> List.length (section_lines s) = (n + 2)%nat.
Proof.
  intros (Hn & _). unfold section_lines. simpl.
  rewrite length_app, length_map, Hn. simpl. lia.
Qed.

Lemma read_later_sections (n : nat) (sections : list job_section) :
  Forall (well_formed n) sections ->
  forall (st : job_locals) (j : nat) (k : string),
    n_variables st = n -> j <> 0%nat -> idx_nums st = Some k ->
    Py.for_each read_job_line
      (combine (seq (j * (n + 2)) (List.length (job_file sections)))
         (job_file sections)) st
    = inr (after_sections st sections).
Proof.
  induction 1 as [ | s rest Hs Hrest IH]; intros st j k Hn Hj Hk.
  - reflexivity.
  - cbn [job_file flat_map after_sections].
    rewrite combine_seq_app, for_each_app. subst n.
    rewrite (read_later_section st s j k Hs Hj Hk). cbn [Py.bind].
    rewrite (length_section_lines _ s Hs).
    replace (j * (n_variables st + 2) + (n_variables st + 2))%nat
      with (S j * (n_variables st + 2))%nat by lia.
    destruct Hs as (Hlen & _).
    apply (IH (after_section st s false) (S j) (section_key s));
      [ exact Hlen | lia | reflexivity ].
Qed.

Lemma after_sections_dict (sections : list job_section) :
  forall (st : job_locals) (k : string),
    idx_nums st = Some k ->
    exists k',
      idx_nums (after_sections st sections) = Some k' /\
      Py.set (job_dict (after_sections st sections)) k'
        (param_dict (after_sections st sections))
      = fold_left (fun d s => Py.set d (section_key s) (section_dict s))
          sections (Py.set (job_dict st) k (param_dict st)).
Proof.
  induction sections as [ | s rest IH]; intros st k Hk.
  - exists k. auto.
  - cbn [after_sections fold_left].
    destruct (IH (after_section st s false) (section_key s) Logic.eq_refl)
      as (k' & Hk' & E).
    exists k'. split; [ exact Hk' | ]. rewrite E.
    cbn [after_section job_dict param_dict]. now rewrite Hk.
Qed.

(** [read_job_param] on a file of sections. *)
Lemma read_sections (first : job_section)
    (rest : list job_section) :
  Forall (well_formed (String.length (Py.remove_char "X" (section_key first))))
    (first :: rest) ->
  read_job_param (job_file (first :: rest))
  = inr (fold_left (fun d s => Py.set d (section_key s) (section_dict s))
           (first :: rest) []).
Proof.
  intros Hall. inversion Hall as [ | ? ? Hfirst Hrest]; subst.
  set (n := String.length (Py.remove_char "X" (section_key first))) in *.
  unfold read_job_param, Py.enumerate. cbn [job_file flat_map].
  rewrite combine_seq_app, for_each_app, (read_first_section _ first Hfirst).
  cbn [Py.bind]. rewrite (length_section_lines n first Hfirst).
  replace (0 + (n + 2))%nat with (1 * (n + 2))%nat by lia.
  rewrite (read_later_sections n rest Hrest _ 1 (section_key first));
    [ | destruct Hfirst as (Hlen & _); exact Hlen | lia | reflexivity ].
  cbn [Py.bind].
  destruct (after_sections_dict rest (after_section
              {| job_dict := []; n_variables := 0; param_dict := [];
                 idx_nums := None |} first true) (section_key first)
              Logic.eq_refl) as (k' & Hk' & E).
  rewrite Hk'. unfold Py.ret. f_equal. exact E.
Qed.

End JobFacts.

(** ** An export folder in the format of the simulator *)

Module FolderFacts.
Import Toothbase ToothbaseMore WriterFacts RowFacts ReaderFacts JobFacts.

(** The value under a key of a dict made by a loop of assignments is the
    one of the last assignment to that key. *)
Lemma get_fold_set {A V} (key : A -> string) (val : A -> V) (l : list A)
    (d : Py.dict V) (k : string) :
  Py.get (fold_left (fun d a => Py.set d (key a) (val a)) l d) k
  = match find (fun a => String.eqb (key a) k) (rev l) with
    | Some a => Some (val a)
    | None => Py.get d k
    end.
Proof.
  induction l as [ | a l IH] using rev_ind; [ reflexivity | ].
  rewrite fold_left_app, rev_app_distr. cbn [fold_left rev app find].
  rewrite get_set, IH. destruct (String.eqb (key a) k); reflexivity.
Qed.

Lemma get_section_dict (entry : job_section) (name : string) :
  Py.get (section_dict entry) name = override_of entry name.
Proof.
  unfold section_dict, override_of. rewrite get_fold_set.
  destruct (find _ _); reflexivity.
Qed.

Lemma get_sections (sections : list job_section) (id_str : string) :
  Py.get (fold_left (fun d s => Py.set d (section_key s) (section_dict s))
            sections []) id_str
  = option_map section_dict (entry_of sections id_str).
Proof.
  unfold entry_of. rewrite get_fold_set. destruct (find _ _); reflexivity.
Qed.

(** A value of the dict [read_base_param] makes comes from the last of the
    parts that name it. *)
Lemma make_dict_get (params : list (list string)) (name value : string) :
  forall d d',
  Py.for_each
    (fun d parts =>
       match parts with
       | [param; value] => Py.ret (Py.set d param value)
       | _ => Py.raise Py.ValueError
       end)
    params d = inr d' ->
  Py.get d' name = Some value ->
  (Py.get d name = Some value /\ forall v, ~ In [name; v] params) \/
  exists pre post,
    params = pre ++ [name; value] :: post /\ forall v, ~ In [name; v] post.
Proof.
  induction params as [ | parts params IH]; intros d d'; simpl.
  - intros [= <-] Hd. left. split; [ exact Hd | intros v [] ].
  - destruct parts as [ | a [ | b [ | c parts]]]; simpl; try discriminate.
    intros H Hd. destruct (IH _ _ H Hd) as [[Hget Hno] | (pre & post & -> & Hno)].
    + rewrite get_set in Hget. destruct (String.eqb_spec a name) as [-> | Hne].
      * injection Hget as ->. right. exists [], params. split; [ reflexivity | exact Hno ].
      * left. split; [ exact Hget | ].
        intros v [[= E _] | Hin]; [ now apply Hne | now apply (Hno v) ].
    + right. exists ([a; b] :: pre), post. split; [ reflexivity | exact Hno ].
Qed.

Lemma map_filter_split {A B} (f : A -> B) (g : A -> bool) (l : list A)
    (pre post : list B) (x : B) :
  map f (filter g l) = pre ++ x :: post ->
  exists l1 a l2,
    l = l1 ++ a :: l2 /\ g a = true /\ f a = x /\ post = map f (filter g l2).
Proof.
  revert pre. induction l as [ | a l IH]; intros pre; simpl.
  - destruct pre; discriminate.
  - destruct (g a) eqn:Ha.
    + destruct pre as [ | p pre]; simpl.
      * intros [= Hf Hpost]. exists [], a, l. auto.
      * intros [= _ H]. destruct (IH _ H) as (l1 & a' & l2 & -> & ? & ? & ?).
        exists (a :: l1), a', l2. auto.
    + intros H. destruct (IH _ H) as (l1 & a' & l2 & -> & ? & ? & ?).
      exists (a :: l1), a', l2. auto.
Qed.

(** [enumerate] counts upwards. *)
Lemma enumerate_before {A} (xs : list A) :
  forall (k : nat) (l1 l2 : list (nat * A)) (e : nat * A),
  combine (seq k (List.length xs)) xs = l1 ++ e :: l2 ->
  forall e', In e' l1 -> (fst e' < fst e)%nat.
Proof.
  induction xs as [ | x xs IH]; intros k l1 l2 e; simpl.
  - destruct l1; discriminate.
  - destruct l1 as [ | a l1]; simpl; [ intros _ e' [] | ].
    intros [= <- H] e' [<- | Hin].
    + assert (He : In e (combine (seq (S k) (List.length xs)) xs)).
      { rewrite H. apply in_or_app. right. now left. }
      destruct e as [i y]. apply in_combine_l in He. apply in_seq in He.
      simpl. lia.
    + exact (IH _ _ _ _ H e' Hin).
Qed.

(** [read_base_param] on a file of the layout: the names of the dict are
    the names the file defines, each with its default. *)
Lemma read_base_param_layout (lines : list string) (d : Py.dict string) :
  base_layout lines ->
  read_base_param lines = inr d ->
  (forall name, In name (Py.keys d) <-> exists value, defines lines name value)
  /\
  (forall name value, Py.get d name = Some value ->
                      default_of lines name value).
Proof.
  intros Hlayout Hread.
  assert (Hskip : forall i line name value,
            nth_error lines i = Some line ->
            Py.split_eqeq (Py.strip line) = [name; value] ->
            existsb (Nat.eqb i) skipped_lines = false).
  { intros i line name value Hn Hs.
    destruct (existsb (Nat.eqb i) skipped_lines) eqn:E; [ | reflexivity ].
    apply existsb_exists in E as (i' & Hin & Heq).
    apply Nat.eqb_eq in Heq as <-.
    destruct (Hlayout i line Hin Hn name value Hs). }
  split.
  - intros name. rewrite (proj1 (read_base_param_spec _ _ Hread) name).
    unfold defines. split.
    + intros (value & i & line & Hn & _ & Hs). eauto.
    + intros (value & i & line & Hn & Hs). exists value, i, line.
      eauto.
  - intros name value Hget. rewrite read_base_param_unfold in Hread.
    destruct (make_dict_get _ name value _ _ Hread Hget)
      as [[Hnil _] | (pre & post & Hsplit & Hno)]; [ discriminate | ].
    unfold base_definitions in Hsplit.
    destruct (map_filter_split _ _ _ _ _ _ Hsplit)
      as (l1 & [i line] & l2 & Hlines & Hg & Hf & Hpost).
    cbn [fst snd] in Hg, Hf.
    assert (Hin : In (i, line) (Py.enumerate lines)).
    { rewrite Hlines. apply in_or_app. right. now left. }
    exists i, line. split; [ now apply in_enumerate | ].
    split; [ exact Hf | ].
    intros i' line' value' Hlt Hn' Hs'.
    assert (Hin' : In (i', line') (Py.enumerate lines))
      by now apply in_enumerate.
    rewrite Hlines in Hin'. apply in_app_or in Hin' as [H1 | [H2 | H3]].
    + apply (enumerate_before lines 0 l1 l2 (i, line) Hlines) in H1.
      simpl in H1. lia.
    + injection H2 as -> _. lia.
    + apply (Hno value'). rewrite Hpost. apply in_map_iff.
      exists (i', line'). split; [ exact Hs' | ].
      apply filter_In. split; [ exact H3 | ].
      cbn [fst]. now rewrite (Hskip i' line' name value' Hn' Hs').
Qed.

End FolderFacts.

(** ** The claims *)

Module Claims.
Import Sql SqlFacts Toothbase DuplicateFacts WriterFacts.
Import Stackview StackviewFacts RowFacts HelperFunctions.
Import ToothbaseMore ReaderFacts JobFacts FolderFacts.

(** C1.  After [construct_database] completes, of every group of inserted
    rows that agree on all columns but id and path exactly one row is in
    the table, the one with the lowest id; every other row of the group has
    been deleted by [remove_duplicate_images]. *)
Theorem construct_database_keeps_lowest_id store db_exists src out :
  construct_database store db_exists src = inr out ->
  exists inserted,
    process_all_folders store src [] = inr inserted /\
    NoDup (images out) /\
    (forall r, In r (images out) <->
               In r inserted /\ lowest_in_group inserted r) /\
    (forall r, In r inserted ->
       exists kept,
         In kept (images out) /\ same_group r kept = true /\
         forall k, In k (images out) -> same_group r k = true -> k = kept).
Proof.
  intros H.
  destruct (construct_database_steps _ _ _ _ H)
    as (t & Ht & Hsound & Himg & _ & _).
  pose proof Hsound as (Hnd & Hfilled & _).
  assert (Hrows : forall r, In r (images out) <->
                            In r t /\ lowest_in_group t r).
  { intros r. rewrite Himg. apply delete_duplicates_lowest; auto.
    intros x Hx. apply filled_complete, Hfilled, Hx. }
  exists t. split; [ exact Ht | ]. split; [ | split; [ exact Hrows | ] ].
  - rewrite Himg. apply NoDup_filter, NoDup_rows, Hnd.
  - intros r Hr.
    destruct (lowest_exists t r Hr) as (kept & Hk & Hs & Hlow).
    exists kept. split; [ apply Hrows; auto | split; [ exact Hs | ] ].
    intros k Hkin Hks. apply Hrows in Hkin as [Hkt Hklow].
    apply (id_injective t); auto.
    assert (same_group k kept = true)
      by (eapply same_group_trans; [ apply same_group_sym | ]; eauto).
    pose proof (Hklow kept Hk H0).
    pose proof (Hlow k Hkt (same_group_sym _ _ H0)). lia.
Qed.

Lemma construct_database_keeps_lowest_id_witness :
  construct_database Example.decimal_store false Example.exports
  = inr Example.built /\
  exists inserted,
    process_all_folders Example.decimal_store Example.exports []
    = inr inserted /\
    NoDup (images Example.built) /\
    (forall r, In r (images Example.built) <->
               In r inserted /\ lowest_in_group inserted r) /\
    (forall r, In r inserted ->
       exists kept,
         In kept (images Example.built) /\ same_group r kept = true /\
         forall k, In k (images Example.built) ->
                   same_group r k = true -> k = kept).
Proof.
  split; [ vm_compute; reflexivity | ].
  apply (construct_database_keeps_lowest_id Example.decimal_store false
           Example.exports Example.built).
  vm_compute; reflexivity.
Defined.

(** C8.  [remove_duplicate_images] only deletes rows: the table it leaves
    is the old table with some rows filtered out, and every row that is
    alone in its group (no other row agrees with it on all columns but id
    and path) is still there, as it was. *)
Theorem remove_duplicate_images_keeps_single_rows (t : table) (r : row) :
  NoDup (map id t) -> In r t -> alone_in_group t r ->
  In r (snd (remove_duplicate_images t)) /\
  exists keep, snd (remove_duplicate_images t) = filter keep t.
Proof.
  intros Hnd Hr Halone. unfold remove_duplicate_images. cbn [snd]. split.
  - apply in_delete_duplicates; auto. split; [ exact Hr | ].
    now apply alone_not_doomed.
  - unfold delete_duplicates. eauto.
Qed.

Lemma remove_duplicate_images_keeps_single_rows_witness :
  NoDup (map id Example.inserted) /\
  In Example.second_row Example.inserted /\
  alone_in_group Example.inserted Example.second_row /\
  In Example.second_row (snd (remove_duplicate_images Example.inserted)) /\
  exists keep,
    snd (remove_duplicate_images Example.inserted)
    = filter keep Example.inserted.
Proof.
  assert (Hnd : NoDup (map id Example.inserted)).
  { vm_compute. repeat constructor; simpl; intuition discriminate. }
  assert (Hin : In Example.second_row Example.inserted)
    by (right; left; reflexivity).
  assert (Halone : alone_in_group Example.inserted Example.second_row).
  { intros r' [<- | [<- | [<- | []]]] H; try reflexivity;
      vm_compute in H; discriminate H. }
  split; [ exact Hnd | ]. split; [ exact Hin | ]. split; [ exact Halone | ].
  exact (remove_duplicate_images_keeps_single_rows Example.inserted
           Example.second_row Hnd Hin Halone).
Defined.

(** C2.  On the table a completed [construct_database] leaves, for a base
    row that is there and a chosen parameter column other than id and path,
    [find_rows_differing_by_param] returns the base row and exactly the rows
    that are its neighbors: another id, another value in the chosen column,
    the same value in every other column but id and path. *)
Theorem find_rows_differing_by_param_neighbors store db_exists src out
    (base : row) (chosen_param : string) :
  construct_database store db_exists src = inr out ->
  In base (images out) ->
  In chosen_param all_column_names ->
  chosen_param <> "id" -> chosen_param <> "path" ->
  exists rows,
    find_rows_differing_by_param (images out) (id base) chosen_param
    = inr (base, rows) /\
    NoDup rows /\
    forall r, In r rows <-> In r (images out) /\ neighbor chosen_param base r.
Proof.
  intros H Hbase Hp Hid Hpath.
  destruct (construct_database_steps _ _ _ _ H)
    as (t & _ & Hsound & Himg & _ & _).
  apply sound_delete_duplicates in Hsound. rewrite <- Himg in Hsound.
  destruct Hsound as (Hnd & Hfilled & _).
  assert (Hcomplete : forall x, In x (images out) -> complete x)
    by (intros x Hx; apply filled_complete, Hfilled, Hx).
  destruct (index_in _ _ Hp) as [k Hk].
  pose proof (fun r => in_find_rows (images out) chosen_param base r Hnd Hbase)
    as Hrows.
  unfold find_rows_differing_by_param in *.
  rewrite (fetch_by_id_in _ base Hnd Hbase), Hk in *.
  eexists. split; [ reflexivity | ].
  split; [ apply NoDup_filter, NoDup_rows, Hnd | ].
  intros r. unfold Py.ret in Hrows. cbn [rows_of] in Hrows. rewrite Hrows.
  pose proof (parameter_column _ Hp Hid Hpath) as Hpc.
  unfold neighbor. split.
  - intros (_ & Hr & Hne & Hdiff & Hsame).
    split; [ exact Hr | ]. split; [ exact Hne | ]. split.
    + now apply eq_some_false, ne_true.
    + intros c Hc H1 H2 H3. now apply eq_true_same, Hsame.
  - intros (Hr & Hne & Hdiff & Hsame).
    split; [ exact Hp | ]. split; [ exact Hr | ]. split; [ exact Hne | ].
    split.
    + apply ne_true. rewrite eq_not_null, Hdiff; auto.
      * now apply (Hcomplete r).
      * now apply (Hcomplete base).
    + intros c Hc H1 H2 H3.
      pose proof (parameter_column _ Hc H1 H2) as Hcc.
      rewrite eq_not_null, Hsame; auto.
      * now apply (Hcomplete r).
      * now apply (Hcomplete base).
Qed.

Lemma find_rows_differing_by_param_neighbors_witness :
  construct_database Example.decimal_store false Example.exports
  = inr Example.built /\
  In Example.first_row (images Example.built) /\
  In "Di" all_column_names /\ "Di" <> "id" /\ "Di" <> "path" /\
  exists rows,
    find_rows_differing_by_param (images Example.built)
      (id Example.first_row) "Di"
    = inr (Example.first_row, rows) /\
    NoDup rows /\
    forall r, In r rows <->
              In r (images Example.built) /\ neighbor "Di" Example.first_row r.
Proof.
  assert (H : construct_database Example.decimal_store false Example.exports
              = inr Example.built) by (vm_compute; reflexivity).
  assert (Hin : In Example.first_row (images Example.built))
    by (left; reflexivity).
  assert (Hp : In "Di" all_column_names)
    by (apply (nth_In all_column_names "" (n := 15)); vm_compute; lia).
  assert (Hid : "Di" <> "id") by discriminate.
  assert (Hpath : "Di" <> "path") by discriminate.
  repeat (split; [ assumption | ]).
  exact (find_rows_differing_by_param_neighbors Example.decimal_store false
           Example.exports Example.built Example.first_row "Di"
           H Hin Hp Hid Hpath).
Defined.

(** C9.  The neighbor relation [find_rows_differing_by_param] computes is
    symmetric: for two rows of the table and a column, the second is among
    the rows returned for the first exactly when the first is among the rows
    returned for the second. *)
Theorem find_rows_differing_by_param_symmetric (t : table) (a b : row)
    (chosen_param : string) :
  NoDup (map id t) -> In a t -> In b t ->
  (In b (rows_of (find_rows_differing_by_param t (id a) chosen_param)) <->
   In a (rows_of (find_rows_differing_by_param t (id b) chosen_param))).
Proof.
  intros Hnd Ha Hb.
  rewrite (in_find_rows t chosen_param a b Hnd Ha).
  rewrite (in_find_rows t chosen_param b a Hnd Hb).
  rewrite (ne_sym (column b chosen_param)).
  split; intros (Hp & _ & Hne & Hdiff & Hsame); repeat split; auto;
    intros c Hc H1 H2 H3; rewrite eq_sym; auto.
Qed.

Lemma find_rows_differing_by_param_symmetric_witness :
  NoDup (map id Example.inserted) /\
  In Example.first_row Example.inserted /\
  In Example.second_row Example.inserted /\
  (In Example.second_row
     (rows_of (find_rows_differing_by_param Example.inserted
                 (id Example.first_row) "Di")) <->
   In Example.first_row
     (rows_of (find_rows_differing_by_param Example.inserted
                 (id Example.second_row) "Di"))).
Proof.
  assert (Hnd : NoDup (map id Example.inserted)).
  { vm_compute. repeat constructor; simpl; intuition discriminate. }
  assert (Ha : In Example.first_row Example.inserted) by (left; reflexivity).
  assert (Hb : In Example.second_row Example.inserted)
    by (right; left; reflexivity).
  repeat (split; [ assumption | ]).
  exact (find_rows_differing_by_param_symmetric Example.inserted
           Example.first_row Example.second_row "Di" Hnd Ha Hb).
Defined.



(** The layout matters: in a base parameters file without the empty line
    before the heading of the parameters the first parameter stands at
    place 10, and [read_base_param] does not read it. *)
Example definition_at_a_comment_place :
  defines ExampleMore.shifted_base "Egr" "0.0170000" /\
  exists d,
    read_base_param ExampleMore.shifted_base = inr d /\
    ~ In "Egr" (Py.keys d).
Proof.
  split.
  - exists 10%nat, (Example.text_line "Egr==0.0170000").
    split; reflexivity.
  - eexists. split; [ vm_compute; reflexivity | ].
    simpl. intuition discriminate.
Qed.

(** C7.  No two rows of the images table ever have the same path: starting
    from the table [init_db] creates, after any sequence of
    [insert_data_to_table] and [remove_duplicate_images] the paths of the
    rows are pairwise distinct, so that the path identifies the row. *)
Theorem path_identifies_row store (db_exists : bool) (ops : list operation)
    (t0 t : table) :
  init_db db_exists = inr t0 -> run store ops t0 = inr t ->
  NoDup (map path t) /\
  forall r1 r2, In r1 t -> In r2 t ->
    same_cell (path r1) (path r2) = true -> r1 = r2.
Proof.
  unfold init_db. destruct db_exists; [ discriminate | ].
  intros [= <-] Hrun.
  destruct (sound_run store ops [] t sound_empty Hrun) as (_ & _ & Hpaths).
  split; [ now apply paths_distinct_NoDup | now apply paths_distinct_identify ].
Qed.

Lemma path_identifies_row_witness :
  init_db false = inr [] /\
  run Example.decimal_store Example.session [] = inr Example.after_session /\
  NoDup (map path Example.after_session) /\
  forall r1 r2, In r1 Example.after_session -> In r2 Example.after_session ->
    same_cell (path r1) (path r2) = true -> r1 = r2.
Proof.
  split; [ reflexivity | ]. split; [ vm_compute; reflexivity | ].
  apply (path_identifies_row Example.decimal_store false Example.session []
           Example.after_session).
  - reflexivity.
  - vm_compute; reflexivity.
Defined.

(** The UNIQUE constraint at work: the rows of one scan inserted twice. *)
Example insert_same_path_twice :
  insert_data_to_table Example.decimal_store
    (Example.master_list ++ Example.master_list) []
  = inl Py.IntegrityError.
Proof. vm_compute. reflexivity. Qed.

(** C10.  Called with a row id no row of the images table has, on a
    database that exists, [export_row_to_file] returns normally and leaves
    everything as it was: no file written, no directory created, the
    database unchanged. *)
Theorem export_row_to_file_without_row
    (join : string -> string -> string) (basename : string -> string)
    (project_root : string) (format : cell -> string)
    (w : world) (t : table) (db_path : string) (row_id : Z)
    (timestamp : string) :
  database w = Some t ->
  (forall r, In r t -> id r <> row_id) ->
  export_row_to_file join basename project_root format w db_path row_id
    timestamp
  = (inr tt, w).
Proof.
  intros Hdb Hnone. unfold export_row_to_file.
  now rewrite Hdb, (fetch_by_id_none t row_id Hnone).
Qed.

Lemma export_row_to_file_without_row_witness :
  database Example.machine = Some (images Example.built) /\
  (forall r, In r (images Example.built) -> id r <> 7) /\
  export_row_to_file Example.join Example.basename "/opt/toothseeker"
    Example.format Example.machine "tooth_database.db" 7
    "2024-01-01_12-00-00"
  = (inr tt, Example.machine).
Proof.
  assert (Hdb : database Example.machine = Some (images Example.built))
    by reflexivity.
  assert (Hnone : forall r, In r (images Example.built) -> id r <> 7).
  { intros r [<- | [<- | []]]; discriminate. }
  split; [ exact Hdb | ]. split; [ exact Hnone | ].
  exact (export_row_to_file_without_row Example.join Example.basename
           "/opt/toothseeker" Example.format Example.machine
           (images Example.built) "tooth_database.db" 7
           "2024-01-01_12-00-00" Hdb Hnone).
Defined.

(** C3, on the worked run.  The first and the third inserted row agree on
    all columns but id and path; the first (lowest id) is kept, the third is
    deleted.  The audit file has one [preserved] line for the group, and it
    carries the id of the kept row with the path of the deleted one: the
    path column of that line is the least path of the group, not the path
    of the row of least id.  No [preserved] line carries the path of the
    kept row. *)
Theorem audit_preserved_line_carries_least_path :
  construct_database Example.decimal_store false Example.exports
  = inr Example.built /\
  In Example.first_row (images Example.built) /\
  ~ In Example.third_row (images Example.built) /\
  same_group Example.first_row Example.third_row = true /\
  path Example.first_row <> path Example.third_row /\
  In [ FCell (Some (Int (id Example.first_row)));
       FCell (Some (Int (id Example.first_row)));
       FCell (path Example.third_row); FStr "preserved" ]
     (removed_duplicates_csv Example.built) /\
  forall l, In l (removed_duplicates_csv Example.built) ->
    nth 3 l (FStr "") = FStr "preserved" ->
    nth 2 l (FStr "") <> FCell (path Example.first_row).
Proof.
  split; [ vm_compute; reflexivity | ].
  split; [ left; reflexivity | ].
  split; [ intros [H | [H | []]]; discriminate H | ].
  split; [ vm_compute; reflexivity | ].
  split; [ discriminate | ].
  split; [ right; left; reflexivity | ].
  intros l [<- | [<- | [<- | []]]]; simpl; discriminate.
Qed.

(** The order of [construct_database]: the CSV file is exported before the
    duplicates are removed, and holds the rows as inserted. *)
Theorem construct_database_exports_before_removal store db_exists src out :
  construct_database store db_exists src = inr out ->
  exists inserted,
    process_all_folders store src [] = inr inserted /\
    csv_file out = create_csv inserted /\
    images out = snd (remove_duplicate_images inserted).
Proof.
  intros H.
  destruct (construct_database_steps _ _ _ _ H)
    as (t & Ht & _ & Himg & Hcsv & _).
  exists t. auto.
Qed.

Lemma construct_database_exports_before_removal_witness :
  construct_database Example.decimal_store false Example.exports
  = inr Example.built /\
  exists inserted,
    process_all_folders Example.decimal_store Example.exports []
    = inr inserted /\
    csv_file Example.built = create_csv inserted /\
    images Example.built = snd (remove_duplicate_images inserted).
Proof.
  split; [ vm_compute; reflexivity | ].
  apply (construct_database_exports_before_removal Example.decimal_store
           false Example.exports Example.built).
  vm_compute; reflexivity.
Defined.

(** C5, on the worked run: the CSV file has a line for the third inserted
    row, which is not in the table any more when the run is over. *)
Theorem csv_file_holds_a_deleted_row :
  construct_database Example.decimal_store false Example.exports
  = inr Example.built /\
  In (map FCell (tuple_of Example.third_row)) (csv_file Example.built) /\
  ~ In Example.third_row (images Example.built) /\
  csv_file Example.built <> create_csv (images Example.built).
Proof.
  split; [ vm_compute; reflexivity | ].
  split; [ right; right; right; left; reflexivity | ].
  split; [ intros [H | [H | []]]; discriminate H | ].
  intros H. apply (f_equal (@List.length line)) in H.
  vm_compute in H. discriminate H.
Qed.

(** C6, on the worked run.  [export_row_to_file] for the first row writes
    the settings and the parameters [Egr] .. [Ina]; the row's [uMgr] is in
    the table, and no string written to the file starts with [uMgr==],
    whatever the library functions are. *)
Theorem export_row_to_file_leaves_out_uMgr
    (join : string -> string -> string) (basename : string -> string)
    (project_root : string) (format : cell -> string)
    (db_path timestamp : string) :
  column Example.first_row "uMgr" = Some (Real (20 # 1)) /\
  exists file_path text dirs,
    export_row_to_file join basename project_root format Example.machine
      db_path (id Example.first_row) timestamp
    = (inr tt,
       {| database := database Example.machine;
          directories := dirs;
          files := [(file_path, text)] |}) /\
    In ("Ina==" ++ format (column Example.first_row "Ina") ++ nl)%string text /\
    forall s, In s text -> String.prefix "uMgr==" s = false.
Proof.
  split; [ reflexivity | ].
  do 3 eexists. split; [ reflexivity | ]. split.
  - do 34 right. left. reflexivity.
  - intros s H.
    repeat (destruct H as [<- | H]; [ reflexivity | ]). destruct H.
Qed.

(** The exported file read back by this program's own reader: the base
    parameters dict has thirty names, [uMgr] is not one of them, and the
    rows made of it cannot be inserted. *)
Example exported_file_read_back :
  exists base_param_dict,
    read_base_param (parameters_base_txt Example.scan_c) = inr base_param_dict /\
    List.length (Py.keys base_param_dict) = 30%nat /\
    Py.get base_param_dict "uMgr" = None /\
    Py.get base_param_dict "Ina" = Some "0.0000000" /\
    process_folder Example.decimal_store [] Example.scan_c
    = inl Py.OperationalError /\
    process_folder Example.decimal_store [] Example.scan_a
    = inr [Example.first_row_of_scan_a].
Proof.
  eexists. split; [ vm_compute; reflexivity | ].
  repeat split; vm_compute; reflexivity.
Qed.

(** Where the absence of NULL cells matters.  On a table with a NULL cell
    (none that this program writes) [=] is unknown on that cell: the
    neighbor query returns no row, and the DELETE statement keeps a row that
    the window query, which groups NULL with NULL, has listed as a
    duplicate. *)
Example null_cell_hides_neighbors :
  find_rows_differing_by_param Example.with_null 1 "model"
  = inr (nth 0 Example.with_null Example.no_row, []).
Proof. vm_compute. reflexivity. Qed.

Example null_cell_keeps_duplicates :
  map dup_id (select_duplicates Example.with_null) = [Some (Int 3)] /\
  delete_duplicates Example.with_null = Example.with_null.
Proof. split; vm_compute; reflexivity. Qed.

End Claims.

(** * Further properties *)

(** ** Inserting, again *)

Module InsertFacts.
Import Sql SqlFacts Toothbase DuplicateFacts WriterFacts RowFacts ToothbaseMore.

(** The stored cells of a row list. *)
Lemma insert_row_inr store (t t' : table) (r : list Py.value) :
  insert_row store t r = inr t' ->
  List.length r = 33%nat /\
  exists p ps,
    store_row store (tl schema) (map literal_of r) = p :: ps /\
    (forall x, In x t -> holds (eq (path x) p) = false) /\
    t' = t ++ [mkRow (next_rowid t) p ps].
Proof.
  unfold insert_row, Py.raise, Py.ret.
  destruct (Nat.eqb (S (List.length (map literal_of r))) (List.length schema))
    eqn:Elen; cbn [negb]; [ | intros H; discriminate H ].
  apply Nat.eqb_eq in Elen. rewrite length_map in Elen.
  change (List.length schema) with 34%nat in Elen.
  destruct (store_row store (tl schema) (map literal_of r)) as [ | p ps];
    [ intros H; discriminate H | ].
  destruct (existsb _ t) eqn:Ex; [ intros H; discriminate H | ].
  intros [= <-]. split; [ lia | ]. exists p, ps.
  split; [ reflexivity | ]. split; [ | reflexivity ].
  intros x Hx. destruct (holds (eq (path x) p)) eqn:E; [ | reflexivity ].
  rewrite <- Ex. symmetry. apply existsb_exists. eauto.
Qed.

Lemma insert_row_inl store (t : table) (r : list Py.value) (e : Py.exn) :
  insert_row store t r = inl e ->
  (e = Py.OperationalError /\ List.length r <> 33%nat) \/
  (e = Py.IntegrityError /\ List.length r = 33%nat).
Proof.
  unfold insert_row, Py.raise, Py.ret.
  destruct (Nat.eqb (S (List.length (map literal_of r))) (List.length schema))
    eqn:Elen; cbn [negb].
  - apply Nat.eqb_eq in Elen. rewrite length_map in Elen.
    change (List.length schema) with 34%nat in Elen.
    pose proof (store_row_length store (tl schema) (map literal_of r)) as Hlen.
    rewrite length_map in Hlen.
    change (List.length (tl schema)) with 33%nat in Hlen.
    destruct (store_row store (tl schema) (map literal_of r)) as [ | p ps].
    + simpl in Hlen. lia.
    + destruct (existsb _ t); intros [= <-]. right. split; [ reflexivity | lia ].
  - apply Nat.eqb_neq in Elen. rewrite length_map in Elen.
    change (List.length schema) with 34%nat in Elen.
    intros [= <-]. left. split; [ reflexivity | lia ].
Qed.

Lemma next_rowid_snoc (t : table) (x : row) :
  id x = next_rowid t -> next_rowid (t ++ [x]) = id x + 1.
Proof.
  intros Hx. unfold next_rowid at 1. rewrite map_app. simpl.
  destruct (map id t) as [ | i ids] eqn:E; simpl; [ reflexivity | ].
  rewrite fold_left_app. simpl.
  unfold next_rowid in Hx. rewrite E in Hx. lia.
Qed.

(** [insert_data_to_table], when it returns: the old rows, then one row
    for every item of the list, in order. *)
Lemma insert_data_to_table_inr store (l : list (list Py.value)) :
  forall t t',
    insert_data_to_table store l t = inr t' ->
    exists new,
      t' = t ++ new /\
      map id new
      = map (fun k => next_rowid t + Z.of_nat k) (seq 0 (List.length l)) /\
      Forall2 (stored_as store) l new.
Proof.
  unfold insert_data_to_table.
  induction l as [ | r l IH]; intros t t'; simpl.
  - intros [= <-]. exists []. rewrite app_nil_r. repeat split. constructor.
  - destruct (insert_row store t r) as [e | t1] eqn:E; simpl;
      [ intros H; discriminate H | ].
    intros H. apply insert_row_inr in E as (Hlen & p & ps & Hst & _ & ->).
    destruct (IH _ _ H) as (new & -> & Hids & Hall).
    exists (mkRow (next_rowid t) p ps :: new). split; [ | split ].
    + now rewrite <- app_assoc.
    + simpl. rewrite Z.add_0_r. f_equal.
      rewrite Hids, <- seq_shift, map_map.
      rewrite next_rowid_snoc by reflexivity. simpl id.
      apply map_ext. intros k. lia.
    + constructor; [ | exact Hall ].
      split; [ exact Hlen | ]. rewrite Hst. reflexivity.
Qed.

(** With thirty-three items in every row list the only exception is the
    one of the UNIQUE path. *)
Lemma insert_data_to_table_inl store (l : list (list Py.value)) :
  forall t e,
    Forall (fun r => List.length r = 33%nat) l ->
    insert_data_to_table store l t = inl e -> e = Py.IntegrityError.
Proof.
  unfold insert_data_to_table.
  induction l as [ | r l IH]; intros t e Hl; simpl; [ discriminate | ].
  inversion Hl as [ | ? ? Hr Hl']; subst.
  destruct (insert_row store t r) as [e' | t1] eqn:E; simpl.
  - intros [= <-]. apply insert_row_inl in E as [[_ H] | [H _]];
      [ contradiction | exact H ].
  - now apply IH.
Qed.

(** A path that is in the table stays, and keeps a second insert out. *)
Lemma insert_data_to_table_clash store (l1 l2 : list (list Py.value))
    (p : string) (items : list Py.value) :
  forall t,
    Forall (fun r => List.length r = 33%nat) (l1 ++ (Py.Str p :: items) :: l2) ->
    (exists x, In x t /\
               path x = Some (store AffText (LText (statement_text p)))) ->
    insert_data_to_table store (l1 ++ (Py.Str p :: items) :: l2) t
    = inl Py.IntegrityError.
Proof.
  unfold insert_data_to_table.
  induction l1 as [ | r l1 IH]; intros t Hl (x & Hx & Hp); simpl.
  - inversion Hl as [ | ? ? Hr Hl']; subst.
    destruct (insert_row store t (Py.Str p :: items)) as [e | t1] eqn:E; simpl.
    + apply insert_row_inl in E as [[_ H] | [-> _]];
        [ contradiction | reflexivity ].
    + exfalso. apply insert_row_inr in E as (_ & q & qs & Hst & Hfresh & _).
      change (tl schema) with (("path", TEXT_UNIQUE) :: tl (tl schema)) in Hst.
      cbn [map literal_of store_row affinity_of] in Hst.
      injection Hst as <- _.
      specialize (Hfresh x Hx). rewrite Hp in Hfresh.
      cbn [eq holds] in Hfresh. now rewrite same_refl in Hfresh.
  - inversion Hl as [ | ? ? Hr Hl']; subst.
    destruct (insert_row store t r) as [e | t1] eqn:E; simpl.
    + apply insert_row_inl in E as [[_ H] | [-> _]];
        [ contradiction | reflexivity ].
    + apply insert_row_inr in E as (_ & q & qs & _ & _ & ->).
      apply IH; [ exact Hl' | ].
      exists x. split; [ apply in_or_app; now left | exact Hp ].
Qed.

End InsertFacts.

(** ** Assembling rows, again *)

Module CombineFacts.
Import Sql SqlFacts Toothbase DuplicateFacts WriterFacts RowFacts ToothbaseMore.
Import InsertFacts.

Lemma comprehension_inl {A B} (f : A -> Py.result B) (xs : list A)
    (e : Py.exn) :
  Py.comprehension f xs = inl e -> exists x, In x xs /\ f x = inl e.
Proof.
  induction xs as [ | a xs IH]; simpl; [ discriminate | ].
  destruct (f a) as [e' | b] eqn:Ea; simpl.
  - intros [= <-]. eauto.
  - destruct (Py.comprehension f xs) as [e' | bs]; simpl; [ | discriminate ].
    intros [= <-]. destruct (IH Logic.eq_refl) as (x & Hx & Hf). eauto.
Qed.

Lemma comprehension_inr {A B} (f : A -> Py.result B) (xs : list A) :
  (forall x, In x xs -> exists y, f x = inr y) ->
  exists ys, Py.comprehension f xs = inr ys.
Proof.
  induction xs as [ | a xs IH]; intros H; simpl; [ eexists; reflexivity | ].
  destruct (H a (or_introl Logic.eq_refl)) as [y ->]. simpl.
  destruct IH as [ys ->]; [ intros x Hx; apply H; now right | ].
  simpl. eauto.
Qed.

Lemma param_item_inl (base : Py.dict string) (job : Py.dict (Py.dict string))
    (id_str name : string) (e : Py.exn) :
  In name (Py.keys base) ->
  param_item base job id_str name = inl e ->
  e = Py.KeyError /\ Py.get job id_str = None.
Proof.
  intros Hname. destruct (get_of_key base name Hname) as [default Hd].
  unfold param_item, Py.item, Py.mem, Py.bind, Py.ret, Py.raise.
  destruct (Py.get job id_str) as [overrides | ]; [ | now intros [= <-] ].
  rewrite Hd. destruct (Py.get overrides name); discriminate.
Qed.

Lemma param_item_inr (base : Py.dict string) (job : Py.dict (Py.dict string))
    (id_str name : string) (overrides : Py.dict string) :
  In name (Py.keys base) -> Py.get job id_str = Some overrides ->
  exists y, param_item base job id_str name = inr y.
Proof.
  intros Hname Ho. destruct (get_of_key base name Hname) as [default Hd].
  unfold param_item, Py.item, Py.mem, Py.bind, Py.ret, Py.raise.
  rewrite Ho, Hd. destruct (Py.get overrides name); eauto.
Qed.

(** The row of one image: the exception, or the shape. *)
Lemma combine_row_inl (base : Py.dict string) (job : Py.dict (Py.dict string))
    (path id_str : string) (e : Py.exn) :
  combine_row base job (path, id_str) = inl e ->
  e = Py.KeyError /\ base <> [] /\ Py.get job id_str = None.
Proof.
  unfold combine_row.
  destruct (Py.comprehension _ (Py.keys base)) as [e' | items] eqn:E; simpl;
    [ | discriminate ].
  intros [= <-]. apply comprehension_inl in E as (name & Hname & He).
  apply param_item_inl in He as [-> Hj]; [ | exact Hname ].
  repeat split; auto. intros ->. destruct Hname.
Qed.

Lemma combine_row_missing (base : Py.dict string)
    (job : Py.dict (Py.dict string)) (path id_str : string) :
  base <> [] -> Py.get job id_str = None ->
  combine_row base job (path, id_str) = inl Py.KeyError.
Proof.
  intros Hbase Hj. unfold combine_row.
  destruct base as [ | [name v] base]; [ congruence | ].
  simpl. unfold param_item at 1, Py.item. rewrite Hj. reflexivity.
Qed.

Lemma combine_row_inr (base : Py.dict string) (job : Py.dict (Py.dict string))
    (path id_str : string) (row : list Py.value) :
  combine_row base job (path, id_str) = inr row ->
  List.length row = (List.length base + 2)%nat /\
  nth_error row 0 = Some (Py.Str path) /\
  nth_error row (S (List.length base)) = Some (Py.Int 0).
Proof.
  unfold combine_row.
  destruct (Py.comprehension _ (Py.keys base)) as [e' | items] eqn:E; simpl;
    [ discriminate | ].
  intros [= <-]. apply comprehension_length in E.
  unfold Py.keys in E. rewrite length_map in E.
  split; [ | split; [ reflexivity | ] ].
  - simpl. rewrite length_app. simpl. lia.
  - simpl. rewrite nth_error_app2 by lia. rewrite E, Nat.sub_diag. reflexivity.
Qed.

Lemma combine_row_present (base : Py.dict string)
    (job : Py.dict (Py.dict string)) (path id_str : string)
    (overrides : Py.dict string) :
  Py.get job id_str = Some overrides ->
  exists row, combine_row base job (path, id_str) = inr row.
Proof.
  intros Hj. unfold combine_row.
  destruct (comprehension_inr (param_item base job id_str) (Py.keys base))
    as [items ->].
  - intros name Hname. eapply param_item_inr; eauto.
  - simpl. eauto.
Qed.

(** A comprehension raises what its first failing item raises. *)
Lemma comprehension_raises {A B} (f : A -> Py.result B) (xs : list A)
    (e : Py.exn) :
  (forall x e', In x xs -> f x = inl e' -> e' = e) ->
  (exists x, In x xs /\ f x = inl e) ->
  Py.comprehension f xs = inl e.
Proof.
  induction xs as [ | a xs IH]; intros Hall (x & Hx & Hf); simpl;
    [ destruct Hx | ].
  destruct (f a) as [e' | b] eqn:Ea; simpl.
  - f_equal. apply (Hall a); auto. now left.
  - destruct Hx as [-> | Hx]; [ congruence | ].
    rewrite IH; [ reflexivity | | eauto ].
    intros y e' Hy. apply Hall. now right.
Qed.

End CombineFacts.

(** ** The audit file and the deletion, again *)

Module RemovalFacts.
Import Sql SqlFacts Toothbase DuplicateFacts WriterFacts RowFacts AuditFacts.

Lemma filter_all {A} (f : A -> bool) (l : list A) :
  (forall x, In x l -> f x = true) -> filter f l = l.
Proof.
  induction l as [ | a l IH]; intros H; simpl; [ reflexivity | ].
  rewrite (H a (or_introl Logic.eq_refl)). f_equal. apply IH.
  intros x Hx. apply H. now right.
Qed.

Lemma sound_complete (t : table) :
  sound t -> forall x, In x t -> complete x.
Proof. intros (_ & Hfilled & _) x Hx. apply filled_complete, Hfilled, Hx. Qed.

(** The first SELECT picks a row exactly when it is not the lowest of its
    group. *)
Lemma selected_iff_not_lowest (t : table) (r : row) :
  NoDup (map id t) -> In r t ->
  (ne (Some (Int (id r)))
      (option_map Int (min_int (map id (partition_of t r)))) = Some true
   <-> ~ lowest_in_group t r).
Proof.
  intros Hnd Hr.
  destruct (min_id_of_partition t r Hr) as (kept & Hk & Hs & Hlow & ->).
  simpl option_map. rewrite ne_int. split.
  - intros Hne Hr_low.
    pose proof (Hr_low kept Hk Hs).
    pose proof (Hlow r Hr (same_group_sym _ _ Hs)). lia.
  - intros Hnot E. apply Hnot.
    assert (r = kept) by (apply (id_injective t); auto). now subst.
Qed.

(** A table every row of which is the lowest of its group is left as it
    is, and nothing is logged. *)
Lemma lowest_rows_fixed (t : table) :
  NoDup (map id t) -> (forall x, In x t -> complete x) ->
  (forall r, In r t -> lowest_in_group t r) ->
  select_duplicates t = [] /\ delete_duplicates t = t.
Proof.
  intros Hnd Hc Hlow. split.
  - destruct (select_duplicates t) as [ | d ds] eqn:E; [ reflexivity | ].
    assert (Hd : In d (select_duplicates t)) by (rewrite E; now left).
    apply in_select_duplicates in Hd as (r & Hr & _ & Hne).
    apply selected_iff_not_lowest in Hne; auto. destruct Hne. auto.
  - apply filter_all. intros r Hr.
    assert (H : In r (delete_duplicates t))
      by (apply delete_duplicates_lowest; auto).
    apply filter_In in H. apply H.
Qed.

Lemma lowest_in_rest (t : table) (r : row) :
  lowest_in_group t r -> lowest_in_group (delete_duplicates t) r.
Proof.
  intros H r' Hr'. apply H. eapply delete_duplicates_incl; eauto.
Qed.

Lemma length_insert_by {A} (k : A -> cell) (x : A) (l : list A) :
  List.length (insert_by k x l) = S (List.length l).
Proof.
  induction l as [ | a l IH]; simpl; [ reflexivity | ].
  destruct (cell_le (k a) (k x)); simpl; auto.
Qed.

Lemma length_order_by {A} (k : A -> cell) (l : list A) :
  List.length (order_by k l) = List.length l.
Proof.
  unfold order_by.
  assert (H : forall acc,
             List.length
               (fold_left (fun sorted x => insert_by k x sorted) l acc)
             = (List.length l + List.length acc)%nat).
  { induction l as [ | a l IH]; intros acc; simpl; [ reflexivity | ].
    rewrite IH, length_insert_by. lia. }
  rewrite H. simpl. lia.
Qed.

Lemma length_filter_split {A B} (f : A -> B) (g : B -> bool) (h : A -> bool)
    (l : list A) :
  (forall x, In x l -> g (f x) = negb (h x)) ->
  (List.length (filter g (map f l)) + List.length (filter h l))%nat
  = List.length l.
Proof.
  induction l as [ | a l IH]; intros H; simpl; [ reflexivity | ].
  rewrite (H a (or_introl Logic.eq_refl)).
  assert (IH' := IH (fun x Hx => H x (or_intror Hx))).
  destruct (h a); simpl; lia.
Qed.

(** The first SELECT returns as many rows as the DELETE removes. *)
Lemma length_select_duplicates (t : table) :
  NoDup (map id t) -> (forall x, In x t -> complete x) ->
  (List.length (select_duplicates t) + List.length (delete_duplicates t))%nat
  = List.length t.
Proof.
  intros Hnd Hc. unfold select_duplicates. rewrite length_order_by.
  unfold delete_duplicates at 1. apply length_filter_split.
  intros r Hr.
  pose proof (delete_duplicates_lowest t r Hnd Hc) as Hlow.
  unfold delete_duplicates at 1 in Hlow. rewrite filter_In in Hlow.
  pose proof (selected_iff_not_lowest t r Hnd Hr) as Hsel.
  rewrite <- holds_true in Hsel. unfold windowed. cbn [dup_id dup_min_id].
  destruct (holds (ne _ _)); destruct (negb (holds (is_in _ _)));
    try reflexivity; exfalso.
  - apply (proj1 Hsel Logic.eq_refl). now apply Hlow.
  - assert (~ ~ lowest_in_group t r)
      by (intros Hn; apply Hsel in Hn; discriminate Hn).
    apply H. intros Hl. destruct Hlow as [_ Hlow].
    specialize (Hlow (conj Hr Hl)). destruct Hlow as [_ Hlow].
    discriminate Hlow.
Qed.

Lemma sound_inserted :
  sound Example.inserted.
Proof.
  apply (sound_process_all_folders Example.decimal_store Example.exports []);
    [ apply sound_empty | vm_compute; reflexivity ].
Qed.

End RemovalFacts.

(** ** Rows found by path and by id *)

Module LookupFacts.
Import Sql SqlFacts Toothbase DuplicateFacts WriterFacts RowFacts ToothbaseMore.
Import InsertFacts Imagedrop HelperFunctionsMore.

Lemma statement_text_plain (p : string) :
  has_char "(" p = false -> statement_text p = double_backslashes p.
Proof.
  induction p as [ | c p IH]; simpl; [ reflexivity | ].
  rewrite Ascii.eqb_sym. intros H. apply orb_false_iff in H as [-> H].
  rewrite (IH H). reflexivity.
Qed.

Lemma statement_text_length (p : string) :
  (String.length (double_backslashes p)
   <= String.length (statement_text p))%nat /\
  (has_char "(" p = true ->
   (String.length (double_backslashes p)
    < String.length (statement_text p))%nat).
Proof.
  induction p as [ | c p [IH1 IH2]]; simpl; [ split; [ lia | discriminate ] | ].
  rewrite (Ascii.eqb_sym c "("%char).
  destruct (Ascii.eqb_spec "("%char c) as [<- | Hne]; simpl.
  - split; [ lia | intros _; lia ].
  - destruct (Ascii.eqb c "\"%char); simpl; split; try lia;
      intros H; specialize (IH2 H); lia.
Qed.

Lemma statement_text_parenthesis (p : string) :
  has_char "(" p = true -> statement_text p <> double_backslashes p.
Proof.
  intros H E. apply statement_text_length in H. rewrite E in H. lia.
Qed.

Lemma find_app {A} (f : A -> bool) (l1 l2 : list A) :
  find f (l1 ++ l2)
  = match find f l1 with
    | Some x => Some x
    | None => find f l2
    end.
Proof.
  induction l1 as [ | a l1 IH]; simpl; [ reflexivity | ].
  destruct (f a); auto.
Qed.

Lemma find_none {A} (f : A -> bool) (l : list A) :
  (forall x, In x l -> f x = false) -> find f l = None.
Proof.
  intros H. destruct (find f l) as [x | ] eqn:E; [ | reflexivity ].
  apply find_some in E as [Hx Hf]. rewrite (H x Hx) in Hf. discriminate.
Qed.

(** The path cell an insert stores. *)
Lemma insert_row_path store (t t' : table) (p : string)
    (items : list Py.value) :
  insert_row store t (Py.Str p :: items) = inr t' ->
  exists ps,
    (forall x, In x t ->
       holds (eq (path x) (Some (store AffText (LText (statement_text p)))))
       = false) /\
    t' = t ++ [mkRow (next_rowid t)
                 (Some (store AffText (LText (statement_text p)))) ps].
Proof.
  intros H. apply insert_row_inr in H as (_ & q & qs & Hst & Hfresh & ->).
  change (tl schema) with (("path", TEXT_UNIQUE) :: tl (tl schema)) in Hst.
  cbn [map literal_of store_row affinity_of] in Hst.
  injection Hst as <- _. eauto.
Qed.

Lemma next_rowid_positive (t : table) :
  (forall r, In r t -> 0 < id r) -> 0 < next_rowid t.
Proof.
  intros H. destruct t as [ | r t]; [ reflexivity | ].
  pose proof (H r (or_introl Logic.eq_refl)).
  pose proof (next_rowid_fresh (r :: t) r (or_introl Logic.eq_refl)). lia.
Qed.

Lemma numbered_next_rowid (t : table) :
  numbered t -> next_rowid t = Z.of_nat (List.length t) + 1.
Proof.
  unfold numbered. intros H.
  destruct t as [ | r0 t1]; [ reflexivity | ].
  destruct (exists_last (l := r0 :: t1)) as (t0 & x & E); [ discriminate | ].
  rewrite E in *. clear E r0 t1.
    rewrite map_app, length_app in H. simpl in H.
    replace (List.length t0 + 1)%nat with (S (List.length t0)) in H by lia.
    rewrite seq_S, map_app in H. simpl in H.
    apply app_inj_tail in H as [H0 Hx].
    rewrite length_app. simpl List.length.
    assert (Hbound : forall r, In r t0 -> id r < id x).
    { intros r Hr. apply (in_map id) in Hr. rewrite H0 in Hr.
      apply in_map_iff in Hr as (k & <- & Hk). apply in_seq in Hk. lia. }
    assert (Hmax : forall r, In r (t0 ++ [x]) -> id r <= id x).
    { intros r Hr. apply in_app_or in Hr as [Hr | [<- | []]];
        [ specialize (Hbound r Hr) | ]; lia. }
    assert (Hin : In x (t0 ++ [x])) by (apply in_or_app; right; now left).
    pose proof (next_rowid_fresh (t0 ++ [x]) x Hin).
    assert (Hle : next_rowid (t0 ++ [x]) <= id x + 1).
    { unfold next_rowid.
      destruct (map id (t0 ++ [x])) as [ | i ids] eqn:E;
        [ destruct t0; discriminate E | ].
      destruct (fold_max_bounds ids i) as [_ _].
      assert (Hall : forall j, In j (i :: ids) -> j <= id x).
      { intros j Hj. rewrite <- E in Hj. apply in_map_iff in Hj as (r & <- & Hr).
        auto. }
      assert (Hfold : forall l a, a <= id x -> (forall j, In j l -> j <= id x) ->
                                  fold_left Z.max l a <= id x).
      { induction l as [ | b l IHl]; intros a Ha Hl; simpl; [ exact Ha | ].
        apply IHl; [ | intros j Hj; apply Hl; now right ].
        specialize (Hl b (or_introl Logic.eq_refl)). lia. }
      specialize (Hfold ids i (Hall i (or_introl Logic.eq_refl))
                    (fun j Hj => Hall j (or_intror Hj))).
      lia. }
    lia.
Qed.

Lemma numbered_insert_row store (t t' : table) (r : list Py.value) :
  numbered t -> insert_row store t r = inr t' -> numbered t'.
Proof.
  intros Hn H. pose proof (numbered_next_rowid t Hn) as Hnext.
  apply insert_row_inr in H as (_ & p & ps & _ & _ & ->).
  unfold numbered in *. rewrite map_app, length_app. simpl.
  replace (List.length t + 1)%nat with (S (List.length t)) by lia.
  rewrite seq_S, map_app, Hn. simpl. f_equal. f_equal. lia.
Qed.

Lemma numbered_process_all_folders store (src : list folder) (t t' : table) :
  numbered t -> process_all_folders store src t = inr t' -> numbered t'.
Proof.
  unfold process_all_folders. apply for_each_invariant.
  intros s f s' Hs. unfold process_folder.
  destruct (Py.comprehension image_id_str (image_path_list f)) as [e | ids];
    simpl; [ discriminate | ].
  destruct (read_base_param _) as [e | base]; simpl; [ discriminate | ].
  destruct (read_job_param _) as [e | job]; simpl; [ discriminate | ].
  destruct (combine_lists _ _ _ _) as [e | rows]; simpl; [ discriminate | ].
  unfold insert_data_to_table. revert Hs. apply for_each_invariant.
  intros s0 x s1. apply numbered_insert_row.
Qed.

Lemma existsb_id (t : table) (k : Z) :
  existsb (fun r => Z.eqb (id r) k) t = true <-> exists r, In r t /\ id r = k.
Proof.
  rewrite existsb_exists. split; intros (r & Hr & H); exists r;
    (split; [ exact Hr | ]); now apply Z.eqb_eq.
Qed.

Lemma draw_row_id_closed (t : table) (draws : list Z) (k : Z) :
  draw_row_id (Some t) draws = inr (Closed (Some k)) ->
  In k draws /\ exists r, In r t /\ id r = k.
Proof.
  induction draws as [ | d draws IH]; simpl; [ discriminate | ].
  unfold Py.ret.
  destruct (existsb (fun r => Z.eqb (id r) d) t) eqn:E.
  - intros [= <-]. split; [ now left | now apply existsb_id ].
  - intros H. destruct (IH H). split; [ now right | assumption ].
Qed.

End LookupFacts.

(** ** The view of a row and its neighbors *)

Module ViewFacts.
Import Sql SqlFacts Toothbase DuplicateFacts WriterFacts Stackview.
Import StackviewFacts RowFacts AuditFacts ToothbaseMore StackviewMore.
Import ReaderFacts LookupFacts.

Lemma in_of_index (names : list string) (p : string) (k : nat) :
  index names p = Some k -> In p names.
Proof.
  revert k. induction names as [ | n names IH]; simpl; [ discriminate | ].
  intros k. destruct (String.eqb_spec n p) as [-> | _]; [ auto | ].
  destruct (index names p); simpl; [ | discriminate ].
  intros _. right. eapply IH. reflexivity.
Qed.

Lemma find_rows_inr (t : table) (row_id : Z) (p : string) (base : row) :
  fetch_by_id t row_id = Some base -> In p all_column_names ->
  find_rows_differing_by_param t row_id p
  = inr (base, rows_of (find_rows_differing_by_param t row_id p)).
Proof.
  intros Hf Hp. unfold find_rows_differing_by_param. rewrite Hf.
  destruct (index_in _ _ Hp) as [k ->]. reflexivity.
Qed.

Lemma find_rows_missing (t : table) (row_id : Z) (p : string) :
  fetch_by_id t row_id = None ->
  find_rows_differing_by_param t row_id p = inl Py.TypeError.
Proof.
  intros Hf. unfold find_rows_differing_by_param. now rewrite Hf.
Qed.

Lemma find_rows_unknown (t : table) (row_id : Z) (p : string) (base : row) :
  fetch_by_id t row_id = Some base -> ~ In p all_column_names ->
  find_rows_differing_by_param t row_id p = inl Py.ValueError.
Proof.
  intros Hf Hp. unfold find_rows_differing_by_param. rewrite Hf.
  destruct (index all_column_names p) as [k | ] eqn:E; [ | reflexivity ].
  destruct Hp. eapply in_of_index; eauto.
Qed.

Lemma all_param_names_columns :
  Forall (fun n => In n all_column_names) all_param_names.
Proof.
  apply Forall_forall. intros n Hn.
  assert (H : forallb
                (fun n => existsb (String.eqb n) all_column_names)
                all_param_names = true) by reflexivity.
  rewrite forallb_forall in H. specialize (H n Hn).
  apply existsb_exists in H as (c & Hc & E).
  apply String.eqb_eq in E. now subst.
Qed.

(** The inner loop, when no name is skipped. *)
Lemma count_neighbors_loop (t : table) (row_id : Z) (base : row) :
  fetch_by_id t row_id = Some base ->
  forall names st acc,
    Forall (fun n => In n all_column_names) names ->
    Py.for_each (count_neighbors (fun _ => false) t row_id) names (st, acc)
    = inr (match names with
           | [] => st
           | _ :: _ => Some base
           end,
           acc ++ map (fun n =>
                         List.length
                           (rows_of (find_rows_differing_by_param t row_id n)))
                    names).
Proof.
  intros Hf names. induction names as [ | n names IH]; intros st acc Hall.
  - simpl. now rewrite app_nil_r.
  - inversion Hall as [ | ? ? Hn Hall']; subst.
    cbn [Py.for_each count_neighbors].
    rewrite (find_rows_inr t row_id n base Hf Hn).
    cbn [Py.bind Py.ret fst snd]. rewrite IH by exact Hall'.
    cbn [map rows_of]. rewrite <- app_assoc. cbn [app].
    destruct names; reflexivity.
Qed.

Lemma count_neighbors_missing (t : table) (row_id : Z) (n : string)
    (names : list string) (st : option row * list nat) :
  fetch_by_id t row_id = None ->
  Py.for_each (count_neighbors (fun _ => false) t row_id) (n :: names) st
  = inl Py.TypeError.
Proof.
  intros Hf. destruct st as [b acc]. cbn [Py.for_each count_neighbors].
  now rewrite (find_rows_missing t row_id n Hf).
Qed.

(** The info of one image, for the pick window. *)
Lemma create_param_info_one (t : table) (row_id : Z) (info : param_info) :
  create_param_info_per_slider_index (fun _ => false) t [row_id] = inr info ->
  exists base labels,
    fetch_by_id t row_id = Some base /\
    Py.comprehension (value_label base) (combine all_param_names (seq 5 28))
    = inr labels /\
    info = {| param_value_strings_per_img := [labels];
              nb_count_strings_per_img :=
                [ map (fun n =>
                         List.length
                           (rows_of (find_rows_differing_by_param t row_id n)))
                    all_param_names ] |}.
Proof.
  unfold create_param_info_per_slider_index.
  cbn [Py.for_each]. unfold info_of_image at 1. cbn [fst snd].
  destruct (fetch_by_id t row_id) as [base | ] eqn:Hf.
  - rewrite (count_neighbors_loop t row_id base Hf all_param_names None []
               all_param_names_columns).
    cbn [Py.bind fst snd app].
    change (match all_param_names with
            | [] => None
            | _ :: _ => Some base
            end) with (Some base).
    cbv iota.
    destruct (Py.comprehension (value_label base) _) as [e | labels] eqn:El;
      cbn [Py.bind Py.ret]; [ discriminate | ].
    intros [= <-]. exists base, labels. auto.
  - unfold all_param_names at 1.
    rewrite (count_neighbors_missing t row_id _ _ _ Hf). discriminate.
Qed.

Lemma keys_are_param_names : Py.keys create_param_name_dict = all_param_names.
Proof. reflexivity. Qed.

Lemma nth_error_enumerate {A} (l : list A) (i : nat) (x : A) :
  In (i, x) (Py.enumerate l) <-> nth_error l i = Some x.
Proof.
  unfold Py.enumerate.
  assert (H : forall s, In (i, x) (combine (seq s (List.length l)) l) <->
                        (s <= i)%nat /\ nth_error l (i - s) = Some x).
  { induction l as [ | a l IH]; intros s; simpl.
    - split; [ tauto | ]. intros [_ H]. destruct (i - s)%nat; discriminate.
    - rewrite IH. split.
      + intros [[= <- <-] | [Hle Hn]].
        * rewrite Nat.sub_diag. auto.
        * split; [ lia | ].
          replace (i - s)%nat with (S (i - S s)) by lia. exact Hn.
      + intros [Hle Hn]. destruct (i - s)%nat as [ | k] eqn:E.
        * left. injection Hn as ->. f_equal. lia.
        * right. split; [ lia | ].
          replace (i - S s)%nat with k by lia. exact Hn. }
  rewrite (H 0%nat), Nat.sub_0_r.
  split; [ tauto | auto with arith ].
Qed.

Lemma nth_error_combine {A B} (l : list A) (l' : list B) (i : nat)
    (a : A) (b : B) :
  nth_error (combine l l') i = Some (a, b) <->
  nth_error l i = Some a /\ nth_error l' i = Some b.
Proof.
  revert l' i. induction l as [ | x l IH]; intros l' i.
  - simpl. destruct i; split; try discriminate; intros [H _]; discriminate H.
  - destruct l' as [ | y l'].
    + simpl. destruct i; split; try discriminate; intros [_ H]; discriminate H.
    + destruct i as [ | i]; simpl.
      * split; [ intros [= -> ->]; auto | intros [[= ->] [= ->]]; auto ].
      * apply IH.
Qed.


Lemma all_param_names_NoDup : NoDup all_param_names.
Proof.
  assert (E : nodup string_dec all_param_names = all_param_names)
    by reflexivity.
  rewrite <- E. apply NoDup_nodup.
Qed.

Lemma all_param_names_exist (p : string) :
  In p all_param_names -> check_if_chosen_param_exists (Some p) = true.
Proof.
  intros Hp.
  assert (H : forallb (fun n => check_if_chosen_param_exists (Some n))
                all_param_names = true) by reflexivity.
  rewrite forallb_forall in H. now apply H.
Qed.

(** The places [range(5, 33)] are the columns of the names. *)
Lemma param_name_index (j : nat) (name : string) :
  nth_error all_param_names j = Some name ->
  index all_column_names name = Some (5 + j)%nat.
Proof.
  intros Hj.
  assert (H : forallb
                (fun jn =>
                   match index all_column_names (snd jn) with
                   | Some k => Nat.eqb k (5 + fst jn)
                   | None => false
                   end)
                (Py.enumerate all_param_names) = true) by reflexivity.
  rewrite forallb_forall in H.
  specialize (H (j, name) (proj2 (nth_error_enumerate _ _ _) Hj)).
  cbn [fst snd] in H.
  destruct (index all_column_names name) as [k | ]; [ | discriminate ].
  apply Nat.eqb_eq in H. now subst.
Qed.

Lemma check_if_chosen_param_exists_column (p : string) :
  check_if_chosen_param_exists (Some p) = true -> In p all_column_names.
Proof.
  unfold check_if_chosen_param_exists. intros H.
  apply andb_true_iff in H as [H _].
  apply existsb_exists in H as (c & Hc & E).
  apply String.eqb_eq in E. now subst.
Qed.


(** *** Sorting *)

Lemma compare_antisym (x y : scalar) : compare y x = CompOpp (compare x y).
Proof.
  unfold compare.
  destruct (numeric x) as [a | ] eqn:Ex, (numeric y) as [b | ] eqn:Ey;
    try reflexivity.
  - symmetry. apply Qcompare_antisym.
  - destruct x, y; try discriminate. apply String.compare_antisym.
Qed.

Lemma cell_le_total (a b : cell) : cell_le a b = true \/ cell_le b a = true.
Proof.
  destruct a as [x | ], b as [y | ]; simpl; auto.
  rewrite (compare_antisym x y). destruct (compare x y); simpl; auto.
Qed.

Lemma HdRel_insert_by {A} (k : A -> cell) (x y : A) (l : list A) :
  cell_le (k y) (k x) = true ->
  HdRel (fun a b => cell_le (k a) (k b) = true) y l ->
  HdRel (fun a b => cell_le (k a) (k b) = true) y (insert_by k x l).
Proof.
  intros Hx Hl. destruct l as [ | z l]; simpl; [ now constructor | ].
  inversion Hl; subst. destruct (cell_le (k z) (k x)); now constructor.
Qed.

Lemma insert_by_Sorted {A} (k : A -> cell) (x : A) (l : list A) :
  Sorted (fun a b => cell_le (k a) (k b) = true) l ->
  Sorted (fun a b => cell_le (k a) (k b) = true) (insert_by k x l).
Proof.
  induction l as [ | y l IH]; intros Hs; simpl.
  - repeat constructor.
  - inversion Hs as [ | ? ? Hs' Hhd]; subst.
    destruct (cell_le (k y) (k x)) eqn:E.
    + constructor; [ auto | now apply HdRel_insert_by ].
    + constructor; [ exact Hs | ]. constructor.
      destruct (cell_le_total (k x) (k y)); congruence.
Qed.

Lemma order_by_Sorted {A} (k : A -> cell) (l : list A) :
  Sorted (fun a b => cell_le (k a) (k b) = true) (order_by k l).
Proof.
  unfold order_by.
  assert (H : forall acc,
             Sorted (fun a b => cell_le (k a) (k b) = true) acc ->
             Sorted (fun a b => cell_le (k a) (k b) = true)
               (fold_left (fun sorted x => insert_by k x sorted) l acc)).
  { induction l as [ | a l IH]; intros acc Hacc; simpl; [ exact Hacc | ].
    apply IH. now apply insert_by_Sorted. }
  apply H. constructor.
Qed.

Lemma insert_by_Permutation {A} (k : A -> cell) (x : A) (l : list A) :
  Permutation (insert_by k x l) (x :: l).
Proof.
  induction l as [ | y l IH]; simpl; [ reflexivity | ].
  destruct (cell_le (k y) (k x)); [ | reflexivity ].
  rewrite IH. apply perm_swap.
Qed.

Lemma order_by_Permutation {A} (k : A -> cell) (l : list A) :
  Permutation (order_by k l) l.
Proof.
  unfold order_by.
  assert (H : forall acc,
             Permutation
               (fold_left (fun sorted x => insert_by k x sorted) l acc)
               (acc ++ l)).
  { induction l as [ | a l IH]; intros acc; simpl.
    - now rewrite app_nil_r.
    - rewrite IH, insert_by_Permutation. simpl. apply Permutation_middle. }
  apply (H []).
Qed.

Lemma Sorted_map {A B} (R : B -> B -> Prop) (f : A -> B) (l : list A) :
  Sorted (fun a b => R (f a) (f b)) l -> Sorted R (map f l).
Proof.
  induction 1 as [ | a l Hs IH Hhd]; simpl; constructor; auto.
  destruct Hhd; simpl; now constructor.
Qed.

Lemma combine_fst_snd {A B} (l : list (A * B)) :
  combine (map fst l) (map snd l) = l.
Proof.
  induction l as [ | [a b] l IH]; simpl; [ reflexivity | now rewrite IH ].
Qed.

Lemma filter_none {A} (f : A -> bool) (l : list A) :
  (forall y, In y l -> f y = false) -> filter f l = [].
Proof.
  induction l as [ | a l IH]; intros H; simpl; [ reflexivity | ].
  rewrite (H a (or_introl Logic.eq_refl)). apply IH.
  intros y Hy. apply H. now right.
Qed.

Lemma filter_unique {A} (f : A -> Z) (l : list A) (x : A) :
  NoDup (map f l) -> In x l ->
  filter (fun y => Z.eqb (f y) (f x)) l = [x].
Proof.
  induction l as [ | a l IH]; simpl; [ tauto | ].
  intros Hnd Hx. inversion Hnd as [ | ? ? Ha Hnd']; subst.
  destruct Hx as [-> | Hx].
  - rewrite Z.eqb_refl. f_equal. apply filter_none.
    intros y Hy. apply Z.eqb_neq. intros E. apply Ha. rewrite <- E.
    now apply in_map.
  - destruct (Z.eqb_spec (f a) (f x)) as [E | _]; [ | auto ].
    destruct Ha. rewrite E. now apply in_map.
Qed.

Lemma fetch_by_id_some (t : table) (row_id : Z) (base : row) :
  fetch_by_id t row_id = Some base -> In base t /\ id base = row_id.
Proof.
  unfold fetch_by_id. intros H. apply find_some in H as [Hin Hid].
  split; [ exact Hin | now apply Z.eqb_eq ].
Qed.

(** The rows found, with the base row before them: distinct ids. *)
Lemma stack_ids_NoDup (t : table) (row_id : Z) (p : string) (base : row) :
  NoDup (map id t) -> fetch_by_id t row_id = Some base ->
  In p all_column_names ->
  NoDup (map id
           (base :: rows_of (find_rows_differing_by_param t row_id p))) /\
  forall r, In r (rows_of (find_rows_differing_by_param t row_id p)) ->
            In r t.
Proof.
  intros Hnd Hf Hp. destruct (fetch_by_id_some _ _ _ Hf) as [Hb Hid].
  subst row_id.
  assert (Hrows : forall r,
             In r (rows_of (find_rows_differing_by_param t (id base) p)) ->
             In r t /\ id r <> id base).
  { intros r Hr. apply in_find_rows in Hr; tauto. }
  split; [ | intros r Hr; now apply Hrows ].
  cbn [map]. constructor.
  - intros Hin. apply in_map_iff in Hin as (r & E & Hr).
    apply Hrows in Hr. tauto.
  - unfold find_rows_differing_by_param.
    rewrite (fetch_by_id_in t base Hnd Hb).
    destruct (index all_column_names p); [ | constructor ].
    unfold Py.ret. cbn [rows_of]. now apply NoDup_map_filter.
Qed.



Lemma partition_columns_are_columns (c : string) :
  In c partition_columns ->
  In c all_column_names /\ c <> "id"%string /\ c <> "path"%string.
Proof.
  intros H. split.
  - change all_column_names with ("id"%string :: "path"%string
                                  :: partition_columns).
    now right; right.
  - assert (Hid : existsb (String.eqb "id") partition_columns = false)
      by reflexivity.
    assert (Hpath : existsb (String.eqb "path") partition_columns = false)
      by reflexivity.
    split; intros ->.
    + assert (existsb (String.eqb "id") partition_columns = true)
        by (apply existsb_exists; exists "id"%string; split;
            [ exact H | reflexivity ]).
      congruence.
    + assert (existsb (String.eqb "path") partition_columns = true)
        by (apply existsb_exists; exists "path"%string; split;
            [ exact H | reflexivity ]).
      congruence.
Qed.

(** A row of the stack agrees with the base row in every column but id,
    path and the chosen one. *)
Lemma stack_row_agrees (t : table) (p : string) (base r : row) :
  NoDup (map id t) -> In base t ->
  In r (base :: rows_of (find_rows_differing_by_param t (id base) p)) ->
  In r t /\
  forall c, In c partition_columns -> c <> p ->
    same_cell (column r c) (column base c) = true.
Proof.
  intros Hnd Hb [<- | Hr].
  - split; [ exact Hb | ]. intros c _ _. apply same_cell_refl.
  - apply in_find_rows in Hr as (_ & Hr & _ & _ & Hall); auto.
    split; [ exact Hr | ]. intros c Hc Hcp.
    destruct (partition_columns_are_columns c Hc) as (H1 & H2 & H3).
    apply eq_true_same. now apply Hall.
Qed.

Lemma stack_images_rows (k : nat) (p : string) (l : list row) :
  index all_column_names p = Some k ->
  map (fun r => (id r, at_index r k)) l
  = map (fun r => (id r, column r p)) l.
Proof.
  intros Hk. apply map_ext. intros r. unfold column. now rewrite Hk.
Qed.


(** The inner loop, with the names it skips. *)
Lemma count_neighbors_skipping (same_object : string -> bool) (t : table)
    (row_id : Z) (base : row) :
  fetch_by_id t row_id = Some base ->
  forall names st acc,
    Forall (fun n => In n all_column_names) names ->
    Py.for_each (count_neighbors same_object t row_id) names (st, acc)
    = inr (if forallb same_object names then st else Some base,
           acc ++ map (fun n =>
                         if same_object n then 0%nat
                         else
                           List.length
                             (rows_of
                                (find_rows_differing_by_param t row_id n)))
                    names).
Proof.
  intros Hf names. induction names as [ | n names IH]; intros st acc Hall.
  - simpl. now rewrite app_nil_r.
  - inversion Hall as [ | ? ? Hn Hall']; subst.
    cbn [Py.for_each count_neighbors forallb map].
    destruct (same_object n); cbn [andb].
    + cbn [Py.bind Py.ret]. rewrite IH by exact Hall'.
      now rewrite <- app_assoc.
    + rewrite (find_rows_inr t row_id n base Hf Hn).
      cbn [Py.bind Py.ret fst snd]. rewrite IH by exact Hall'.
      cbn [rows_of]. rewrite <- app_assoc. cbn [app].
      destruct (forallb same_object names); reflexivity.
Qed.

Lemma count_neighbors_none (same_object : string -> bool) (t : table)
    (row_id : Z) :
  fetch_by_id t row_id = None ->
  forall names acc,
    match
      Py.for_each (count_neighbors same_object t row_id) names (None, acc)
    with
    | inl e => e = Py.TypeError
    | inr st => fst st = None
    end.
Proof.
  intros Hf names. induction names as [ | n names IH]; intros acc.
  - reflexivity.
  - cbn [Py.for_each count_neighbors]. destruct (same_object n).
    + cbn [Py.bind Py.ret]. apply IH.
    + now rewrite (find_rows_missing t row_id n Hf).
Qed.

Lemma create_param_info_skipping (same_object : string -> bool) (t : table)
    (row_id : Z) (info : param_info) :
  create_param_info_per_slider_index same_object t [row_id] = inr info ->
  exists base labels,
    fetch_by_id t row_id = Some base /\
    Py.comprehension (value_label base) (combine all_param_names (seq 5 28))
    = inr labels /\
    info = {| param_value_strings_per_img := [labels];
              nb_count_strings_per_img :=
                [ map (fun n =>
                         if same_object n then 0%nat
                         else
                           List.length
                             (rows_of
                                (find_rows_differing_by_param t row_id n)))
                    all_param_names ] |}.
Proof.
  unfold create_param_info_per_slider_index.
  cbn [Py.for_each]. unfold info_of_image at 1. cbn [fst snd].
  destruct (fetch_by_id t row_id) as [base | ] eqn:Hf.
  - rewrite (count_neighbors_skipping same_object t row_id base Hf
               all_param_names None [] all_param_names_columns).
    cbn [Py.bind fst snd app].
    destruct (forallb same_object all_param_names); [ discriminate | ].
    destruct (Py.comprehension (value_label base) _) as [e | labels] eqn:El;
      cbn [Py.bind Py.ret]; [ discriminate | ].
    intros [= <-]. exists base, labels. auto.
  - pose proof (count_neighbors_none same_object t row_id Hf
                  all_param_names []) as H.
    destruct (Py.for_each _ all_param_names (None, [])) as [e | st];
      cbn [Py.bind]; [ discriminate | ].
    rewrite H. discriminate.
Qed.

End ViewFacts.

(** ** The exported parameters file *)

Module ExportFacts.
Import Sql Toothbase ToothbaseMore Stackview HelperFunctions HelperFunctionsMore.
Import WriterFacts RowFacts ReaderFacts JobFacts.

Lemma write_all_file_writes (format : cell -> string) (r : row) :
  write_all (file_writes format (params_of r))
  = (exported_text format r, inr tt).
Proof. reflexivity. Qed.


#[local] Open Scope string_scope.

Lemma all_chars_app (f : ascii -> bool) (a b : string) :
  all_chars f (a ++ b) = all_chars f a && all_chars f b.
Proof.
  induction a as [ | c a IH]; simpl; [ reflexivity | ].
  now rewrite IH, andb_assoc.
Qed.

Lemma all_chars_weaken (f g : ascii -> bool) (s : string) :
  (forall c, f c = true -> g c = true) ->
  all_chars f s = true -> all_chars g s = true.
Proof.
  intros Hfg. induction s as [ | c s IH]; simpl; [ reflexivity | ].
  intros H. apply andb_true_iff in H as [Hc Hs].
  now rewrite (Hfg c Hc), IH.
Qed.

Lemma plain_no_newline (s : string) :
  plain_value s = true -> has_char Py.newline s = false.
Proof.
  unfold plain_value. induction s as [ | c s IH]; simpl; [ reflexivity | ].
  intros H. apply andb_true_iff in H as [Hc Hs].
  apply andb_true_iff in Hc as [Hc _]. rewrite (IH Hs), orb_false_r.
  destruct (Ascii.eqb_spec c Py.newline) as [-> | ]; [ discriminate Hc | ].
  reflexivity.
Qed.

Lemma file_lines_line (x rest : string) :
  has_char Py.newline x = false ->
  Py.file_lines (x ++ String Py.newline rest)
  = (x ++ Py.nl) :: Py.file_lines rest.
Proof.
  induction x as [ | c x IH]; intros H.
  - reflexivity.
  - simpl in H. apply orb_false_iff in H as [Hc H].
    cbn [append Py.file_lines]. rewrite Hc, (IH H). reflexivity.
Qed.

Lemma file_lines_text (x rest : string) :
  has_char Py.newline x = false ->
  Py.file_lines ((x ++ Py.nl) ++ rest) = (x ++ Py.nl) :: Py.file_lines rest.
Proof.
  intros H. rewrite append_assoc. now apply file_lines_line.
Qed.

Lemma file_lines_text2 (x rest : string) :
  has_char Py.newline x = false ->
  Py.file_lines ((x ++ Py.nl ++ Py.nl) ++ rest)
  = (x ++ Py.nl) :: Py.nl :: Py.file_lines rest.
Proof.
  intros H. rewrite append_assoc.
  change ((Py.nl ++ Py.nl) ++ rest)
    with (String Py.newline (String Py.newline rest)).
  rewrite (file_lines_line x _ H). reflexivity.
Qed.

Section Setting.
Variable format : cell -> string.
Variable r : row.

Lemma setting_text_line (name tail : string) :
  setting_text format r name tail
  = (name ++ "==" ++ format (column r name)) ++ tail.
Proof. unfold setting_text. now rewrite !append_assoc. Qed.

Lemma setting_no_newline (name : string) :
  plain_value name = true -> plain_value (format (column r name)) = true ->
  has_char Py.newline (name ++ "==" ++ format (column r name)) = false.
Proof.
  intros H1 H2. rewrite !has_char_app.
  now rewrite (plain_no_newline _ H1), (plain_no_newline _ H2).
Qed.

Lemma file_lines_setting (name rest : string) :
  plain_value name = true -> plain_value (format (column r name)) = true ->
  Py.file_lines (setting_text format r name nl ++ rest)
  = setting_text format r name nl :: Py.file_lines rest.
Proof.
  intros H1 H2. rewrite setting_text_line.
  apply file_lines_text. now apply setting_no_newline.
Qed.

Lemma file_lines_setting2 (name rest : string) :
  plain_value name = true -> plain_value (format (column r name)) = true ->
  Py.file_lines (setting_text format r name (nl ++ nl) ++ rest)
  = setting_text format r name nl :: Py.nl :: Py.file_lines rest.
Proof.
  intros H1 H2. rewrite !setting_text_line.
  apply file_lines_text2. now apply setting_no_newline.
Qed.

End Setting.

Lemma concat_cons (x y : string) (l : list string) :
  String.concat "" (x :: y :: l) = x ++ String.concat "" (y :: l).
Proof. reflexivity. Qed.


Lemma concat_one (x : string) : String.concat "" [x] = x.
Proof. reflexivity. Qed.

Lemma rstrip_plain (x : string) :
  all_chars (fun c => negb (Py.isspace c)) x = true ->
  Py.rstrip (x ++ Py.nl) = x.
Proof.
  induction x as [ | c x IH]; intros H; [ reflexivity | ].
  simpl in H. apply andb_true_iff in H as [Hc Hx].
  cbn [append Py.rstrip]. rewrite (IH Hx).
  apply negb_true_iff in Hc. rewrite Hc. destruct x; reflexivity.
Qed.

Lemma split_plain (v : string) :
  all_chars (fun c => negb (Ascii.eqb c "=")) v = true ->
  Py.split_eqeq v = [v].
Proof.
  induction v as [ | c v IH]; intros H; [ reflexivity | ].
  simpl in H. apply andb_true_iff in H as [Hc Hv].
  apply negb_true_iff in Hc.
  cbn [Py.split_eqeq]. rewrite Hc, (IH Hv). reflexivity.
Qed.

Lemma split_setting (name v : string) :
  all_chars (fun c => negb (Ascii.eqb c "=")) name = true ->
  all_chars (fun c => negb (Ascii.eqb c "=")) v = true ->
  Py.split_eqeq (name ++ "==" ++ v) = [name; v].
Proof.
  intros Hn Hv. induction name as [ | c name IH].
  - cbn [append Py.split_eqeq]. rewrite (split_plain v Hv).
    destruct v as [ | c v]; [ reflexivity | ].
    simpl in Hv. apply andb_true_iff in Hv as [Hc _].
    apply negb_true_iff in Hc.
    change (Ascii.eqb "=" "=") with true. cbv iota. reflexivity.
  - simpl in Hn. apply andb_true_iff in Hn as [Hc Hn].
    apply negb_true_iff in Hc.
    change (String c name ++ "==" ++ v) with (String c (name ++ "==" ++ v)).
    cbn [Py.split_eqeq]. rewrite Hc, (IH Hn). reflexivity.
Qed.

Lemma plain_no_space (s : string) :
  plain_value s = true -> all_chars (fun c => negb (Py.isspace c)) s = true.
Proof.
  apply all_chars_weaken. intros c H. now apply andb_true_iff in H as [H _].
Qed.

Lemma plain_no_equals (s : string) :
  plain_value s = true ->
  all_chars (fun c => negb (Ascii.eqb c "=")) s = true.
Proof.
  apply all_chars_weaken. intros c H. now apply andb_true_iff in H as [_ H].
Qed.

Section ReadBack.
Variable format : cell -> string.
Variable r : row.

Lemma file_lines_last (name : string) :
  plain_value name = true -> plain_value (format (column r name)) = true ->
  Py.file_lines (setting_text format r name nl)
  = [setting_text format r name nl].
Proof.
  intros H1 H2. rewrite setting_text_line. unfold nl, Py.nl.
  rewrite file_lines_line by now apply setting_no_newline.
  reflexivity.
Qed.

Lemma parts_of_setting (name : string) :
  name <> "" -> plain_value name = true ->
  plain_value (format (column r name)) = true ->
  Py.split_eqeq (Py.strip (setting_text format r name nl))
  = [name; format (column r name)].
Proof.
  intros Hne H1 H2. unfold Py.strip.
  assert (Hl : Py.lstrip (setting_text format r name nl)
               = setting_text format r name nl).
  { unfold setting_text. destruct name as [ | c name]; [ congruence | ].
    unfold plain_value in H1. simpl in H1.
    apply andb_true_iff in H1 as [Hc _]. apply andb_true_iff in Hc as [Hc _].
    apply negb_true_iff in Hc. cbn [append Py.lstrip]. now rewrite Hc. }
  rewrite Hl, setting_text_line. unfold nl. rewrite rstrip_plain.
  - apply split_setting; now apply plain_no_equals.
  - rewrite !all_chars_app.
    rewrite (plain_no_space _ H1), (plain_no_space _ H2). reflexivity.
Qed.

Lemma exported_text_read_back :
  (forall name, In name exported_names ->
     plain_value (format (column r name)) = true) ->
  read_base_param (Py.file_lines (String.concat "" (exported_text format r)))
  = inr (map (fun name => (name, format (column r name))) exported_names).
Proof.
  intros Hplain.
  assert (Hval : forall name,
             existsb (String.eqb name) exported_names = true ->
             plain_value (format (column r name)) = true).
  { intros name H. apply Hplain. apply existsb_exists in H as (x & Hx & E).
    apply String.eqb_eq in E. now subst. }
  unfold exported_text. cbn [app map skipn exported_names].
  rewrite !concat_cons, concat_one.
  rewrite !file_lines_text by reflexivity.
  rewrite file_lines_text2 by reflexivity.
  rewrite !file_lines_text by reflexivity.
  rewrite !file_lines_setting by (try reflexivity; apply Hval; reflexivity).
  rewrite file_lines_setting2 by (try reflexivity; apply Hval; reflexivity).
  rewrite !file_lines_text by reflexivity.
  rewrite !file_lines_setting by (try reflexivity; apply Hval; reflexivity).
  rewrite file_lines_last by (try reflexivity; apply Hval; reflexivity).
  unfold read_base_param, Py.enumerate.
  cbn [List.length seq combine filter negb existsb skipped_lines Nat.eqb
         fst snd orb map].
  rewrite !parts_of_setting
    by (try discriminate; try reflexivity; apply Hval; reflexivity).
  reflexivity.
Qed.

End ReadBack.


(** The export of a row that is there. *)
Lemma export_row_to_file_existing
    (join : string -> string -> string) (basename : string -> string)
    (project_root : string) (format : cell -> string)
    (w : world) (t : table) (r : row) (db_path : string) (row_id : Z)
    (timestamp : string) :
  database w = Some t -> fetch_by_id t row_id = Some r ->
  export_row_to_file join basename project_root format w db_path row_id
    timestamp
  = (inr tt,
     {| database := Some t;
        directories :=
          if existsb
               (String.eqb (join project_root "parameters_exported_to_txt"))
               (directories w ++ map fst (files w))
          then directories w
          else join project_root "parameters_exported_to_txt"
               :: directories w;
        files :=
          (join (join project_root "parameters_exported_to_txt")
             ("id-" ++ format (Some (Int row_id)) ++ "___"
              ++ basename db_path ++ "___" ++ timestamp ++ ".txt")%string,
           exported_text format r)
          :: files w |}).
Proof.
  intros Hdb Hf. unfold export_row_to_file. rewrite Hdb, Hf.
  rewrite write_all_file_writes. reflexivity.
Qed.

End ExportFacts.

(** ** Tabs, and the name of the CSV file *)

Module TabFacts.
Import Toothbase ToothbaseMore Toothseeker JobFacts.

Lemma nth_error_middle {A} (l s : list A) (x : A) :
  nth_error (l ++ x :: s) (List.length l) = Some x.
Proof. induction l as [ | a l IH]; simpl; auto. Qed.

Lemma remove_tab_middle (l s : list string) (x : string) :
  remove_tab (List.length l) (l ++ x :: s) = l ++ s.
Proof. induction l as [ | a l IH]; simpl; [ reflexivity | now rewrite IH ]. Qed.

Lemma set_tab_text_middle (l s : list string) (x y : string) :
  set_tab_text (List.length l) y (l ++ x :: s) = l ++ y :: s.
Proof. induction l as [ | a l IH]; simpl; [ reflexivity | now rewrite IH ]. Qed.

(** The loop from the last tab down leaves the tabs behind it alone. *)
Lemma close_tabs_loop (l : list string) :
  forall s,
    fold_left close_or_alter (rev (seq 0 (List.length l))) (l ++ s)
    = map changed_name
        (filter (fun name => negb (contains "ImageDrop" name)) l) ++ s.
Proof.
  induction l as [ | x l IH] using rev_ind; intros s; [ reflexivity | ].
  rewrite length_app. simpl List.length.
  replace (List.length l + 1)%nat with (S (List.length l)) by lia.
  rewrite seq_S, rev_app_distr. cbn [rev app fold_left Nat.add].
  unfold close_or_alter at 2. rewrite <- app_assoc. cbn [app].
  rewrite nth_error_middle, filter_app, map_app. cbn [filter].
  destruct (contains "ImageDrop" x); cbn [negb map].
  - rewrite remove_tab_middle, IH, app_nil_r. reflexivity.
  - rewrite set_tab_text_middle, IH, <- app_assoc. reflexivity.
Qed.

(** *** The name of the CSV file *)

#[local] Open Scope string_scope.

Lemma occurs_cons (c : ascii) (s : string) :
  occurs "db" s -> occurs "db" (String c s).
Proof. intros (a & b & ->). exists (String c a), b. reflexivity. Qed.

Lemma occurs_tail (c : ascii) (s : string) :
  strip_prefix "db" (String c s) = None ->
  occurs "db" (String c s) -> occurs "db" s.
Proof.
  intros Hp (a & b & E). destruct a as [ | c' a].
  - rewrite E in Hp. simpl in Hp. discriminate Hp.
  - injection E as _ ->. exists a, b. reflexivity.
Qed.

Lemma replace_db_spec (n : nat) :
  forall s, (String.length s <= n)%nat ->
    (String.length s <= String.length (replace_db s))%nat /\
    (occurs "db" s ->
     (String.length s < String.length (replace_db s))%nat) /\
    (~ occurs "db" s -> replace_db s = s).
Proof.
  induction n as [ | n IH]; intros s Hn.
  - destruct s; [ | simpl in Hn; lia ].
    split; [ simpl; lia | ]. split; [ | reflexivity ].
    intros (a & b & E). destruct a; discriminate E.
  - destruct s as [ | c s]; [ apply (IH ""); simpl; lia | ].
    simpl in Hn.
    assert (Hkeep : strip_prefix "db" (String c s) = None ->
              replace_db (String c s) = String c (replace_db s) ->
              (String.length (String c s)
               <= String.length (replace_db (String c s)))%nat /\
              (occurs "db" (String c s) ->
               (String.length (String c s)
                < String.length (replace_db (String c s)))%nat) /\
              (~ occurs "db" (String c s) ->
               replace_db (String c s) = String c s)).
    { intros Hp ->. destruct (IH s ltac:(lia)) as (H1 & H2 & H3).
      split; [ simpl; lia | ]. split.
      - intros H. apply occurs_tail in H; [ | exact Hp ].
        specialize (H2 H). simpl. lia.
      - intros H. rewrite H3; [ reflexivity | ].
        intros H'. apply H. now apply occurs_cons. }
    destruct (Ascii.eqb_spec c "d") as [-> | Hc].
    + destruct s as [ | c' s'].
      * apply Hkeep; reflexivity.
      * destruct (Ascii.eqb_spec c' "b") as [-> | Hc'].
        -- destruct (IH s' ltac:(simpl in Hn; lia)) as (H1 & _ & _).
           assert (E : replace_db (String "d" (String "b" s'))
                       = "csv" ++ replace_db s') by reflexivity.
           rewrite E.
           split; [ simpl; lia | ]. split; [ intros _; simpl; lia | ].
           intros H. destruct H. exists "", s'. reflexivity.
        -- apply Hkeep.
           ++ cbn [strip_prefix]. change (Ascii.eqb "d" "d") with true.
              cbv iota. destruct (Ascii.eqb_spec "b" c'); congruence.
           ++ cbn [replace_db]. change (Ascii.eqb "d" "d") with true.
              cbv iota.
              destruct (Ascii.eqb_spec c' "b"); [ contradiction | ].
              reflexivity.
    + apply Hkeep.
      * apply strip_prefix_head. congruence.
      * cbn [replace_db].
        destruct (Ascii.eqb_spec c "d"); [ contradiction | ]. reflexivity.
Qed.

End TabFacts.

(** ** The further properties *)

Module Extras.
Import Sql SqlFacts Toothbase DuplicateFacts WriterFacts.
Import Stackview StackviewFacts RowFacts AuditFacts HelperFunctions.
Import ToothbaseMore InsertFacts CombineFacts RemovalFacts ReaderFacts.
Import Imagedrop HelperFunctionsMore LookupFacts.
Import StackviewMore ViewFacts JobFacts ExportFacts Toothseeker TabFacts.

(** X1.  [insert_data_to_table] adds one row for every item of the list, in
    the order of the list and after the rows that were there, which it
    leaves as they are; the ids it gives are consecutive, from one more than
    the largest id in use (from 1 in an empty table); every row list has
    thirty-three items, and the cells of a new row are what SQLite stores
    of them. *)
Theorem insert_data_to_table_appends store (l : list (list Py.value))
    (t t' : table) :
  insert_data_to_table store l t = inr t' ->
  exists new,
    t' = t ++ new /\
    map id new
    = map (fun k => next_rowid t + Z.of_nat k) (seq 0 (List.length l)) /\
    Forall2 (stored_as store) l new.
Proof. apply insert_data_to_table_inr. Qed.

Lemma insert_data_to_table_appends_witness :
  insert_data_to_table Example.decimal_store Example.master_list
    [Example.third_row]
  = inr ([Example.third_row] ++ ExampleMore.after_third) /\
  exists new,
    [Example.third_row] ++ ExampleMore.after_third
    = [Example.third_row] ++ new /\
    map id new
    = map (fun k => next_rowid [Example.third_row] + Z.of_nat k)
        (seq 0 (List.length Example.master_list)) /\
    Forall2 (stored_as Example.decimal_store) Example.master_list new.
Proof.
  split; [ vm_compute; reflexivity | ].
  apply (insert_data_to_table_appends Example.decimal_store
           Example.master_list [Example.third_row]).
  vm_compute; reflexivity.
Defined.

(** X2.  The path is UNIQUE: when every row list has its thirty-three items
    and two of them have the same path, [insert_data_to_table] raises
    [IntegrityError], whatever the table holds. *)
Theorem insert_data_to_table_same_path store
    (l1 l2 l3 : list (list Py.value)) (p : string)
    (items1 items2 : list Py.value) (t : table) :
  Forall (fun r => List.length r = 33%nat)
    (l1 ++ (Py.Str p :: items1) :: l2 ++ (Py.Str p :: items2) :: l3) ->
  insert_data_to_table store
    (l1 ++ (Py.Str p :: items1) :: l2 ++ (Py.Str p :: items2) :: l3) t
  = inl Py.IntegrityError.
Proof.
  intros Hl.
  destruct (insert_data_to_table store
              (l1 ++ (Py.Str p :: items1) :: l2 ++ (Py.Str p :: items2) :: l3) t)
    as [e | t'] eqn:E.
  - f_equal. eapply insert_data_to_table_inl; eauto.
  - exfalso. revert E.
    replace (l1 ++ (Py.Str p :: items1) :: l2 ++ (Py.Str p :: items2) :: l3)
      with ((l1 ++ [Py.Str p :: items1]) ++ l2 ++ (Py.Str p :: items2) :: l3)
      in * by (rewrite <- app_assoc; reflexivity).
    unfold insert_data_to_table.
    assert (Hsplit : forall (a b : list (list Py.value)) s,
              Py.for_each (insert_row store) (a ++ b) s
              = Py.bind (Py.for_each (insert_row store) a s)
                  (Py.for_each (insert_row store) b)).
    { induction a as [ | x a IH]; intros b s; simpl; [ reflexivity | ].
      destruct (insert_row store s x); simpl; [ reflexivity | apply IH ]. }
    rewrite Hsplit.
    destruct (Py.for_each (insert_row store) (l1 ++ [Py.Str p :: items1]) t)
      as [e | t1] eqn:E1; simpl; [ discriminate | ].
    intros E2.
    apply insert_data_to_table_inr in E1 as (new & -> & _ & Hall).
    apply Forall_app in Hl as [_ Hl].
    assert (Hex : exists x, In x (t ++ new) /\
                path x = Some (store AffText (LText (statement_text p)))).
    { apply Forall2_app_inv_l in Hall as (n1 & n2 & _ & Hlast & ->).
      inversion Hlast as [ | ? x ? ? [_ Hx] Hnil]; subst.
      exists x. split;
        [ apply in_or_app; right; apply in_or_app; right; now left | ].
      change (tl schema) with (("path", TEXT_UNIQUE) :: tl (tl schema)) in Hx.
      cbn [map literal_of store_row affinity_of] in Hx. now injection Hx. }
    pose proof (insert_data_to_table_clash store l2 l3 p items2 (t ++ new)
                  Hl Hex) as Hc.
    unfold insert_data_to_table in Hc. rewrite Hc in E2. discriminate E2.
Qed.

Lemma insert_data_to_table_same_path_witness :
  Forall (fun r => List.length r = 33%nat)
    ([] ++ (Py.Str "a.png" :: tl (nth 0 Example.master_list []))
        :: Example.master_list
        ++ (Py.Str "a.png" :: tl (nth 1 Example.master_list [])) :: []) /\
  insert_data_to_table Example.decimal_store
    ([] ++ (Py.Str "a.png" :: tl (nth 0 Example.master_list []))
        :: Example.master_list
        ++ (Py.Str "a.png" :: tl (nth 1 Example.master_list [])) :: []) []
  = inl Py.IntegrityError.
Proof.
  assert (H : Forall (fun r => List.length r = 33%nat)
                ([] ++ (Py.Str "a.png" :: tl (nth 0 Example.master_list []))
                    :: Example.master_list
                    ++ (Py.Str "a.png" :: tl (nth 1 Example.master_list []))
                       :: []))
    by (repeat constructor).
  split; [ exact H | ].
  exact (insert_data_to_table_same_path Example.decimal_store []
           Example.master_list [] "a.png" _ _ [] H).
Defined.

(** X3.  [combine_lists] raises nothing but [KeyError], and raises it
    exactly when the base parameters dict is not empty and the index string
    of some image is no key of the job parameters dict.  When it returns,
    there is one row for every pair of [zip], of as many items as the base
    dict has names and two more: the path first, the 0 of [faulty] last. *)
Theorem combine_lists_key_error
    (image_path_list image_id_str_list : list string)
    (base_param_dict : Py.dict string)
    (job_param_dict : Py.dict (Py.dict string)) :
  (forall e,
     combine_lists image_path_list image_id_str_list base_param_dict
       job_param_dict = inl e <->
     e = Py.KeyError /\ base_param_dict <> [] /\
     exists path id_str,
       In (path, id_str) (combine image_path_list image_id_str_list) /\
       Py.get job_param_dict id_str = None) /\
  (forall master_list,
     combine_lists image_path_list image_id_str_list base_param_dict
       job_param_dict = inr master_list ->
     List.length master_list
     = List.length (combine image_path_list image_id_str_list) /\
     forall n path id_str,
       nth_error (combine image_path_list image_id_str_list) n
       = Some (path, id_str) ->
       exists this_row,
         nth_error master_list n = Some this_row /\
         List.length this_row = (List.length base_param_dict + 2)%nat /\
         nth_error this_row 0 = Some (Py.Str path) /\
         nth_error this_row (S (List.length base_param_dict))
         = Some (Py.Int 0)).
Proof.
  unfold combine_lists. split.
  - intros e. split.
    + intros H. apply comprehension_inl in H as ([path id_str] & Hin & He).
      apply combine_row_inl in He as (-> & Hb & Hj). eauto 6.
    + intros (-> & Hb & path & id_str & Hin & Hj).
      apply comprehension_raises.
      * intros [p i] e' _ He. now apply combine_row_inl in He as (-> & _).
      * exists (path, id_str). split; [ exact Hin | ].
        exact (combine_row_missing _ _ path id_str Hb Hj).
  - intros master_list H. split; [ eapply comprehension_length; eauto | ].
    intros n path id_str Hn.
    destruct (comprehension_nth _ _ _ H n _ Hn) as (this_row & Hrow & Hc).
    exists this_row. split; [ exact Hrow | ].
    exact (combine_row_inr _ job_param_dict path id_str _ Hc).
Qed.

(** X4.  The table has room for thirty-one parameters and no more: a folder
    with an image is processed without exception only when its base
    parameters file defines exactly thirty-one names. *)
Theorem process_folder_thirty_one_names store (t t' : table) (f : folder)
    (base_param_dict : Py.dict string) :
  read_base_param (parameters_base_txt f) = inr base_param_dict ->
  process_folder store t f = inr t' ->
  image_path_list f <> [] ->
  List.length (Py.keys base_param_dict) = 31%nat.
Proof.
  intros Hbase H Himg. unfold process_folder in H. rewrite Hbase in H.
  destruct (Py.comprehension image_id_str (image_path_list f))
    as [e | ids] eqn:Eids; simpl in H; [ discriminate | ].
  destruct (read_job_param _) as [e | job]; simpl in H; [ discriminate | ].
  destruct (combine_lists _ _ _ _) as [e | rows] eqn:Erows; simpl in H;
    [ discriminate | ].
  apply insert_data_to_table_inr in H as (new & _ & _ & Hall).
  apply comprehension_length in Eids.
  destruct (image_path_list f) as [ | p paths] eqn:Ep; [ congruence | ].
  destruct ids as [ | i ids]; [ discriminate | ].
  unfold combine_lists in Erows.
  destruct (comprehension_nth _ _ _ Erows 0%nat (p, i) Logic.eq_refl)
    as (row & Hrow & Hc).
  apply combine_row_inr in Hc as (Hlen & _).
  destruct rows as [ | r rows]; [ discriminate | ].
  injection Hrow as ->.
  inversion Hall as [ | ? x ? ? [H33 _] _]; subst.
  unfold Py.keys. rewrite length_map. lia.
Qed.

Lemma process_folder_thirty_one_names_witness :
  read_base_param (parameters_base_txt Example.scan_a) = inr Example.base /\
  process_folder Example.decimal_store [] Example.scan_a
  = inr [Example.first_row_of_scan_a] /\
  image_path_list Example.scan_a <> [] /\
  List.length (Py.keys Example.base) = 31%nat.
Proof.
  assert (H1 : read_base_param (parameters_base_txt Example.scan_a)
               = inr Example.base) by (vm_compute; reflexivity).
  assert (H2 : process_folder Example.decimal_store [] Example.scan_a
               = inr [Example.first_row_of_scan_a])
    by (vm_compute; reflexivity).
  assert (H3 : image_path_list Example.scan_a <> []) by discriminate.
  repeat (split; [ assumption | ]).
  exact (process_folder_thirty_one_names Example.decimal_store [] _
           Example.scan_a Example.base H1 H2 H3).
Defined.


(** X5.  A second run of [remove_duplicate_images] changes nothing: on the
    table a first run leaves, it deletes no row and writes an audit file of
    the header line alone. *)
Theorem remove_duplicate_images_twice (t : table) :
  sound t ->
  remove_duplicate_images (snd (remove_duplicate_images t))
  = ([[FStr "min_id"; FStr "id"; FStr "path"; FStr "status"]],
     snd (remove_duplicate_images t)).
Proof.
  intros Hs. unfold remove_duplicate_images. cbn [snd].
  pose proof (sound_delete_duplicates t Hs) as Hs'.
  pose proof Hs as (Hnd & _). pose proof Hs' as (Hnd' & _).
  destruct (lowest_rows_fixed (delete_duplicates t) Hnd'
              (sound_complete _ Hs')) as [-> ->]; [ | reflexivity ].
  intros r Hr. apply lowest_in_rest.
  apply (delete_duplicates_lowest t r Hnd (sound_complete _ Hs)) in Hr.
  apply Hr.
Qed.

Lemma remove_duplicate_images_twice_witness :
  sound Example.inserted /\
  remove_duplicate_images (snd (remove_duplicate_images Example.inserted))
  = ([[FStr "min_id"; FStr "id"; FStr "path"; FStr "status"]],
     snd (remove_duplicate_images Example.inserted)).
Proof.
  split; [ exact sound_inserted | ].
  exact (remove_duplicate_images_twice Example.inserted sound_inserted).
Defined.

(** X6.  The audit file tells what was deleted: a row of the table is
    missing after [remove_duplicate_images] exactly when the file has a
    [removed] line with its id and its path, and that line starts with the
    id of a row of the same group that is still in the table. *)
Theorem removed_line_iff_deleted (t : table) (r : row) :
  sound t -> In r t ->
  (~ In r (snd (remove_duplicate_images t)) <->
   exists kept,
     In kept (snd (remove_duplicate_images t)) /\ same_group r kept = true /\
     In [ FCell (Some (Int (id kept))); FCell (Some (Int (id r)));
          FCell (path r); FStr "removed" ]
        (fst (remove_duplicate_images t))).
Proof.
  intros Hs Hr. unfold remove_duplicate_images. cbn [fst snd].
  pose proof Hs as (Hnd & _). split.
  - now apply audit_csv_logs_removed.
  - intros (kept & Hk & Hsame & Hline) Hin.
    apply (delete_duplicates_lowest t _ Hnd (sound_complete _ Hs)) in Hk
      as [Hkt Hklow].
    apply (delete_duplicates_lowest t _ Hnd (sound_complete _ Hs)) in Hin
      as [_ Hrlow].
    apply audit_csv_lines in Hline
      as [E | (r' & kept' & Hr' & Hk' & Hs' & Hlow' & Hne & [E | E])];
      try discriminate E.
    injection E as E1 E2 E3.
    pose proof (Hrlow kept Hkt Hsame).
    pose proof (Hklow r Hr (same_group_sym _ _ Hsame)). lia.
Qed.

Lemma removed_line_iff_deleted_witness :
  sound Example.inserted /\
  In Example.third_row Example.inserted /\
  (~ In Example.third_row (snd (remove_duplicate_images Example.inserted)) <->
   exists kept,
     In kept (snd (remove_duplicate_images Example.inserted)) /\
     same_group Example.third_row kept = true /\
     In [ FCell (Some (Int (id kept)));
          FCell (Some (Int (id Example.third_row)));
          FCell (path Example.third_row); FStr "removed" ]
        (fst (remove_duplicate_images Example.inserted))).
Proof.
  assert (Hin : In Example.third_row Example.inserted)
    by (right; right; left; reflexivity).
  split; [ exact sound_inserted | ]. split; [ exact Hin | ].
  exact (removed_line_iff_deleted Example.inserted Example.third_row
           sound_inserted Hin).
Defined.

(** X7.  For every row [remove_duplicate_images] deletes, the audit file
    has exactly one [preserved] line of the row kept for its group. *)
Theorem one_preserved_line_per_group (t : table) (r : row) :
  sound t -> In r t -> ~ In r (snd (remove_duplicate_images t)) ->
  exists kept,
    In kept (snd (remove_duplicate_images t)) /\ same_group r kept = true /\
    List.length
      (filter (preserved_for (id kept)) (fst (remove_duplicate_images t)))
    = 1%nat.
Proof.
  intros Hs Hr Hgone. unfold remove_duplicate_images in *. cbn [fst snd] in *.
  pose proof Hs as (Hnd & _).
  destruct (lowest_exists t r Hr) as (kept & Hk & Hsame & Hlow).
  exists kept. split; [ | split; [ exact Hsame | ] ].
  - apply delete_duplicates_lowest; auto. now apply sound_complete.
  - apply (audit_csv_one_preserved_line t r kept); auto.
    intros E. apply Hgone.
    apply delete_duplicates_lowest; auto; [ now apply sound_complete | ].
    assert (r = kept) by (apply (id_injective t); auto).
    subst. auto.
Qed.

Lemma one_preserved_line_per_group_witness :
  sound Example.inserted /\
  In Example.third_row Example.inserted /\
  ~ In Example.third_row (snd (remove_duplicate_images Example.inserted)) /\
  exists kept,
    In kept (snd (remove_duplicate_images Example.inserted)) /\
    same_group Example.third_row kept = true /\
    List.length
      (filter (preserved_for (id kept))
         (fst (remove_duplicate_images Example.inserted)))
    = 1%nat.
Proof.
  assert (Hin : In Example.third_row Example.inserted)
    by (right; right; left; reflexivity).
  assert (Hgone : ~ In Example.third_row
                      (snd (remove_duplicate_images Example.inserted))).
  { vm_compute. intros [H | [H | []]]; discriminate H. }
  split; [ exact sound_inserted | ]. split; [ exact Hin | ].
  split; [ exact Hgone | ].
  exact (one_preserved_line_per_group Example.inserted Example.third_row
           sound_inserted Hin Hgone).
Defined.

(** X8.  The first SELECT of [remove_duplicate_images] and its DELETE agree
    on the number of rows: the list [duplicates] the audit file is written
    from has one entry for every row deleted, and it is sorted by the id
    kept. *)
Theorem select_duplicates_counts_deleted (t : table) :
  sound t ->
  (List.length (select_duplicates t)
   + List.length (snd (remove_duplicate_images t)))%nat
  = List.length t /\
  StronglySorted by_min_id (select_duplicates t).
Proof.
  intros Hs. pose proof Hs as (Hnd & _). split.
  - apply length_select_duplicates; auto. now apply sound_complete.
  - unfold select_duplicates. apply order_by_sorted.
    apply Forall_forall. intros d Hd.
    pose proof (select_duplicates_int_keyed t) as Hk.
    rewrite Forall_forall in Hk. apply Hk.
    unfold select_duplicates. now apply in_order_by.
Qed.

Lemma select_duplicates_counts_deleted_witness :
  sound Example.inserted /\
  (List.length (select_duplicates Example.inserted)
   + List.length (snd (remove_duplicate_images Example.inserted)))%nat
  = List.length Example.inserted /\
  StronglySorted by_min_id (select_duplicates Example.inserted).
Proof.
  split; [ exact sound_inserted | ].
  exact (select_duplicates_counts_deleted Example.inserted sound_inserted).
Defined.


Lemma combine_lists_key_error_witness :
  List.length Example.master_list
  = List.length (combine (image_path_list Example.scan_b) ["0"; "1"]%string).
Proof.
  exact (proj1 (proj2 (combine_lists_key_error
                         (image_path_list Example.scan_b) ["0"; "1"]%string
                         Example.base Example.job_b)
                  Example.master_list Logic.eq_refl)).
Defined.

(** X9.  The index string [process_folder] takes from an image path
    starts after the leftmost [ToothMaker_] that has an underscore after it
    on its line, and runs to the last underscore of that line: a string is
    the index string of the path exactly when the path splits so. *)
Theorem image_id_str_to_last_underscore (path id_str : string) :
  image_id_str path = inr id_str <->
  exists pre rest tail,
    path = (pre ++ "ToothMaker_" ++ rest)%string /\
    line_of rest = (id_str ++ "_" ++ tail)%string /\
    has_char "_" tail = false /\
    forall pre' rest',
      path = (pre' ++ "ToothMaker_" ++ rest')%string ->
      (String.length pre' < String.length pre)%nat ->
      has_char "_" (line_of rest') = false.
Proof.
  assert (Hp : "ToothMaker_"%string <> ""%string) by discriminate.
  unfold image_id_str, findall_0. split.
  - destruct (first_match _ _ path) as [g | ] eqn:E; [ | discriminate ].
    intros [= <-].
    apply (first_match_leftmost _ _ _ _ Hp) in E
      as (pre & rest & -> & Hg & Hleft).
    apply before_last_spec in Hg as (tail & Hl & Ht).
    exists pre, rest, tail. repeat split; auto.
    intros pre' rest' Heq Hlt. apply before_last_none.
    exact (Hleft pre' rest' Heq Hlt).
  - intros (pre & rest & tail & Hpath & Hl & Ht & Hleft).
    assert (E : first_match "ToothMaker_" (Some "_"%char) path = Some id_str).
    { apply (first_match_leftmost _ _ _ _ Hp). exists pre, rest.
      split; [ exact Hpath | ]. split.
      - apply before_last_spec. exists tail. auto.
      - intros pre' rest' Heq Hlt. apply before_last_none.
        exact (Hleft pre' rest' Heq Hlt). }
    now rewrite E.
Qed.

Lemma image_id_str_to_last_underscore_witness :
  image_id_str "scan/screenshots/ToothMaker_00_Anterior_0000009000.png"
  = inr "00_Anterior"%string /\
  image_id_str
    "exports/ToothMaker_runs_1/screenshots/ToothMaker_01_0000009000.png"
  = inr "runs_1/screenshots/ToothMaker_01"%string /\
  exists pre rest tail,
    "exports/ToothMaker_runs_1/screenshots/ToothMaker_01_0000009000.png"%string
    = (pre ++ "ToothMaker_" ++ rest)%string /\
    line_of rest
    = ("runs_1/screenshots/ToothMaker_01" ++ "_" ++ tail)%string /\
    has_char "_" tail = false /\
    forall pre' rest',
      "exports/ToothMaker_runs_1/screenshots/ToothMaker_01_0000009000.png"%string
      = (pre' ++ "ToothMaker_" ++ rest')%string ->
      (String.length pre' < String.length pre)%nat ->
      has_char "_" (line_of rest') = false.
Proof.
  assert (H1 : image_id_str
                 "scan/screenshots/ToothMaker_00_Anterior_0000009000.png"
               = inr "00_Anterior"%string) by (vm_compute; reflexivity).
  assert (H2 : image_id_str
                 "exports/ToothMaker_runs_1/screenshots/ToothMaker_01_0000009000.png"
               = inr "runs_1/screenshots/ToothMaker_01"%string)
    by (vm_compute; reflexivity).
  split; [ exact H1 | ]. split; [ exact H2 | ].
  exact (proj1 (image_id_str_to_last_underscore _ _) H2).
Defined.

(** X10.  The index string of a path cannot be taken, and [IndexError] is
    raised, exactly when no [ToothMaker_] of the path has an underscore
    after it on its line; nothing else is raised. *)
Theorem image_id_str_index_error (path : string) (e : Py.exn) :
  image_id_str path = inl e <->
  e = Py.IndexError /\
  forall pre rest,
    path = (pre ++ "ToothMaker_" ++ rest)%string ->
    has_char "_" (line_of rest) = false.
Proof.
  unfold image_id_str, findall_0.
  destruct (first_match _ _ path) as [g | ] eqn:E; split.
  - discriminate.
  - intros (_ & H). apply first_match_some in E as (pre & rest & Hp & Hg).
    apply before_last_spec in Hg as (tail & Hl & _).
    specialize (H pre rest Hp). rewrite Hl in H. exfalso.
    clear - H. induction g as [ | c g IH]; simpl in H.
    + discriminate H.
    + apply orb_false_iff in H as [_ H]. auto.
  - intros [= <-]. split; [ reflexivity | ]. intros pre rest Hp.
    apply before_last_none.
    assert (Hne : "ToothMaker_"%string <> ""%string) by discriminate.
    exact (first_match_none _ _ _ Hne E pre rest Hp).
  - intros (-> & _). reflexivity.
Qed.

(** X11.  [read_base_param] raises nothing but [ValueError], and raises it
    exactly when some line it does not skip has, once stripped, not
    exactly one [==]: its parts are not two. *)
Theorem read_base_param_value_error (lines : list string) (e : Py.exn) :
  read_base_param lines = inl e <->
  e = Py.ValueError /\
  exists parts,
    In parts (base_definitions lines) /\ List.length parts <> 2%nat.
Proof. rewrite read_base_param_unfold. apply make_dict_inl. Qed.

(** X12.  When the base parameters file defines a name more than once, the
    dict has the value of the last definition. *)
Theorem read_base_param_last_definition (lines : list string)
    (d : Py.dict string) (pre post : list (list string))
    (name value : string) :
  read_base_param lines = inr d ->
  base_definitions lines = pre ++ [name; value] :: post ->
  (forall v, ~ In [name; v] post) ->
  Py.get d name = Some value.
Proof.
  rewrite read_base_param_unfold. intros H Hd Hno.
  rewrite Hd, for_each_app in H.
  match type of H with
  | Py.bind ?m _ = _ => destruct m as [e | d1]
  end; simpl in H; [ discriminate | ].
  apply (make_dict_last post name value Hno _ _ (get_set_same d1 name value) H).
Qed.

Lemma read_base_param_last_definition_witness :
  read_base_param ExampleMore.repeated_base = inr ExampleMore.repeated_dict /\
  base_definitions ExampleMore.repeated_base
  = base_definitions Example.parameters_base
    ++ ["Egr"; "0.5"]%string :: [] /\
  (forall v, ~ In ["Egr"%string; v] []) /\
  Py.get ExampleMore.repeated_dict "Egr" = Some "0.5"%string.
Proof.
  assert (H1 : read_base_param ExampleMore.repeated_base
               = inr ExampleMore.repeated_dict) by (vm_compute; reflexivity).
  assert (H2 : base_definitions ExampleMore.repeated_base
               = base_definitions Example.parameters_base
                 ++ ["Egr"; "0.5"]%string :: [])
    by (vm_compute; reflexivity).
  assert (H3 : forall v, ~ In ["Egr"%string; v] []) by (intros v []).
  split; [ exact H1 | ]. split; [ exact H2 | ]. split; [ exact H3 | ].
  exact (read_base_param_last_definition _ _ _ _ _ _ H1 H2 H3).
Defined.


(** X13.  An image dropped on the window is found by its path: after a row
    list with path [p] is inserted, [process_image] on [p] emits the signal
    with the id the insert gave, when [p] has no opening parenthesis.  The
    doubled backslashes of [process_image] are those [repr] left in the
    INSERT statement. *)
Theorem process_image_finds_inserted store (t t' : table) (p : string)
    (items : list Py.value) :
  (forall s, store AffText (LText s) = Text s) ->
  (forall r, In r t -> 0 < id r) ->
  insert_row store t (Py.Str p :: items) = inr t' ->
  has_char "(" p = false ->
  process_image (Some t') p = inr (Some (next_rowid t)).
Proof.
  intros Hstore Hpos H Hp.
  apply insert_row_path in H as (ps & Hfresh & ->).
  rewrite Hstore, statement_text_plain in * by exact Hp.
  unfold process_image, get_rowid_from_path.
  rewrite find_app, (find_none _ t Hfresh).
  cbn [find path eq holds]. rewrite same_refl. cbn [Py.bind Py.ret id].
  pose proof (next_rowid_positive t Hpos).
  destruct (Z.eqb_spec (next_rowid t) 0); [ lia | reflexivity ].
Qed.

Lemma process_image_finds_inserted_witness :
  (forall s, Example.decimal_store AffText (LText s) = Text s) /\
  (forall r, In r [] -> 0 < id r) /\
  insert_row Example.decimal_store []
    (Py.Str "exports/scan_b/screenshots/ToothMaker_0_0000009000.png"
     :: tl (nth 0 Example.master_list []))
  = inr [Example.first_row] /\
  has_char "(" "exports/scan_b/screenshots/ToothMaker_0_0000009000.png"
  = false /\
  process_image (Some [Example.first_row])
    "exports/scan_b/screenshots/ToothMaker_0_0000009000.png"
  = inr (Some (next_rowid [])).
Proof.
  assert (H1 : forall s, Example.decimal_store AffText (LText s) = Text s)
    by reflexivity.
  assert (H2 : forall r : row, In r [] -> 0 < id r) by (intros r []).
  assert (H3 : insert_row Example.decimal_store []
                 (Py.Str "exports/scan_b/screenshots/ToothMaker_0_0000009000.png"
                  :: tl (nth 0 Example.master_list []))
               = inr [Example.first_row]) by (vm_compute; reflexivity).
  assert (H4 : has_char "("
                 "exports/scan_b/screenshots/ToothMaker_0_0000009000.png"
               = false) by reflexivity.
  repeat (split; [ assumption | ]).
  exact (process_image_finds_inserted _ _ _ _ _ H1 H2 H3 H4).
Defined.

(** X14.  An image whose path has an opening parenthesis is not found by
    its path: the INSERT statement stored another text, and
    [process_image] answers as it did before the row was inserted. *)
Theorem process_image_misses_parenthesis store (t t' : table) (p : string)
    (items : list Py.value) :
  (forall s, store AffText (LText s) = Text s) ->
  insert_row store t (Py.Str p :: items) = inr t' ->
  has_char "(" p = true ->
  process_image (Some t') p = process_image (Some t) p.
Proof.
  intros Hstore H Hp.
  apply insert_row_path in H as (ps & _ & ->).
  unfold process_image, get_rowid_from_path.
  rewrite find_app. destruct (find _ t) as [r | ]; [ reflexivity | ].
  cbn [find path]. rewrite Hstore. cbn [eq holds same numeric].
  destruct (String.eqb_spec (statement_text p) (double_backslashes p))
    as [E | _]; [ | reflexivity ].
  now apply statement_text_parenthesis in E.
Qed.

Lemma process_image_misses_parenthesis_witness :
  (forall s, Example.decimal_store AffText (LText s) = Text s) /\
  insert_row Example.decimal_store []
    (Py.Str ExampleMore.parenthesis_path
     :: tl (nth 0 Example.master_list []))
  = inr ExampleMore.parenthesis_table /\
  has_char "(" ExampleMore.parenthesis_path = true /\
  process_image (Some ExampleMore.parenthesis_table)
    ExampleMore.parenthesis_path
  = process_image (Some []) ExampleMore.parenthesis_path.
Proof.
  assert (H1 : forall s, Example.decimal_store AffText (LText s) = Text s)
    by reflexivity.
  assert (H2 : insert_row Example.decimal_store []
                 (Py.Str ExampleMore.parenthesis_path
                  :: tl (nth 0 Example.master_list []))
               = inr ExampleMore.parenthesis_table)
    by (vm_compute; reflexivity).
  assert (H3 : has_char "(" ExampleMore.parenthesis_path = true)
    by reflexivity.
  repeat (split; [ assumption | ]).
  exact (process_image_misses_parenthesis _ _ _ _ _ H1 H2 H3).
Defined.

(** X15.  [process_all_folders] numbers the rows it inserts into a new
    table 1, 2, 3, ... in the order of insertion. *)
Theorem process_all_folders_numbers_rows store (src : list folder)
    (t : table) :
  process_all_folders store src [] = inr t ->
  map id t = map Z.of_nat (seq 1 (List.length t)).
Proof.
  apply (numbered_process_all_folders store src []). reflexivity.
Qed.

Lemma process_all_folders_numbers_rows_witness :
  process_all_folders Example.decimal_store Example.exports []
  = inr Example.inserted /\
  map id Example.inserted
  = map Z.of_nat (seq 1 (List.length Example.inserted)).
Proof.
  assert (H : process_all_folders Example.decimal_store Example.exports []
              = inr Example.inserted) by (vm_compute; reflexivity).
  split; [ exact H | ].
  exact (process_all_folders_numbers_rows _ _ _ H).
Defined.

(** X16.  The row id [save_input_value] accepts is the id of a row of the
    table and is not above the number of rows; one drawn at random is
    below that number; one typed in is the number typed. *)
Theorem save_input_value_accepts (t : table) (value : Z) (draws : list Z)
    (k : Z) :
  (forall d, In d draws -> 1 <= d < Z.of_nat (List.length t)) ->
  save_input_value (Some t) value draws = inr (Closed (Some k)) ->
  (exists r, In r t /\ id r = k) /\
  k <= Z.of_nat (List.length t) /\
  (value = 0 -> k < Z.of_nat (List.length t)) /\
  (value <> 0 -> k = value).
Proof.
  intros Hdraws. unfold save_input_value, check_database_max_row.
  destruct (Z.eqb_spec (Z.of_nat (List.length t)) 0) as [_ | Hn];
    [ discriminate | ].
  destruct (Z.eqb_spec value 0) as [-> | Hv].
  - destruct (Z.leb_spec (Z.of_nat (List.length t)) 1) as [Hle | Hgt];
      [ discriminate | ].
    intros H. apply draw_row_id_closed in H as [Hk Hr].
    specialize (Hdraws k Hk). repeat split; auto; try lia; congruence.
  - destruct (Z.ltb_spec (Z.of_nat (List.length t)) value) as [Hlt | Hge];
      [ discriminate | ].
    cbn [row_exists_in_database Py.bind Py.ret].
    destruct (existsb _ t) eqn:E; [ | discriminate ].
    intros [= <-]. apply existsb_id in E.
    repeat split; auto; try lia; congruence.
Qed.

Lemma save_input_value_accepts_witness :
  (forall d, In d [2] -> 1 <= d < Z.of_nat (List.length Example.inserted)) /\
  save_input_value (Some Example.inserted) 0 [2] = inr (Closed (Some 2)) /\
  (exists r, In r Example.inserted /\ id r = 2) /\
  2 <= Z.of_nat (List.length Example.inserted) /\
  (0 = 0 -> 2 < Z.of_nat (List.length Example.inserted)) /\
  (0 <> 0 -> 2 = 0).
Proof.
  assert (H1 : forall d, In d [2] ->
                         1 <= d < Z.of_nat (List.length Example.inserted))
    by (intros d [<- | []]; vm_compute; split; [ discriminate | reflexivity ]).
  assert (H2 : save_input_value (Some Example.inserted) 0 [2]
               = inr (Closed (Some 2))) by (vm_compute; reflexivity).
  split; [ exact H1 | ]. split; [ exact H2 | ].
  exact (save_input_value_accepts Example.inserted 0 [2] 2 H1 H2).
Defined.

(** X17.  A row whose id is above the number of rows cannot be opened by
    its id: [save_input_value] leaves the window open and the id unset.
    There is such a row after [remove_duplicate_images] has deleted a row
    that was not the last. *)
Theorem save_input_value_refuses_high_id (t : table) (r : row)
    (draws : list Z) :
  In r t -> Z.of_nat (List.length t) < id r ->
  save_input_value (Some t) (id r) draws = inr Open.
Proof.
  intros Hr Hid. unfold save_input_value, check_database_max_row.
  destruct t as [ | x t]; [ destruct Hr | ].
  destruct (Z.eqb_spec (Z.of_nat (List.length (x :: t))) 0) as [E | _];
    [ simpl in E; lia | ].
  destruct (Z.eqb_spec (id r) 0) as [E | _]; [ lia | ].
  destruct (Z.ltb_spec (Z.of_nat (List.length (x :: t))) (id r));
    [ reflexivity | lia ].
Qed.

Lemma save_input_value_refuses_high_id_witness :
  In ExampleMore.last_of_reordered (images ExampleMore.reordered) /\
  Z.of_nat (List.length (images ExampleMore.reordered))
  < id ExampleMore.last_of_reordered /\
  save_input_value (Some (images ExampleMore.reordered))
    (id ExampleMore.last_of_reordered) []
  = inr Open.
Proof.
  assert (H1 : In ExampleMore.last_of_reordered (images ExampleMore.reordered))
    by (right; left; reflexivity).
  assert (H2 : Z.of_nat (List.length (images ExampleMore.reordered))
               < id ExampleMore.last_of_reordered) by reflexivity.
  split; [ exact H1 | ]. split; [ exact H2 | ].
  exact (save_input_value_refuses_high_id _ _ [] H1 H2).
Defined.


(** X18.  [find_rows_differing_by_param] raises [TypeError] exactly when
    no row has the id, [ValueError] exactly when a row has it and the
    chosen parameter is no column of the table, and nothing else; so after
    the two checks of [init_ui] it raises nothing. *)
Theorem find_rows_differing_by_param_raises (t : table) (row_id : Z)
    (chosen_param : string) :
  (forall e,
     find_rows_differing_by_param t row_id chosen_param = inl e <->
     (e = Py.TypeError /\ check_if_row_id_exists t row_id = false) \/
     (e = Py.ValueError /\ check_if_row_id_exists t row_id = true /\
      ~ In chosen_param all_column_names)) /\
  (check_if_row_id_exists t row_id = true ->
   check_if_chosen_param_exists (Some chosen_param) = true ->
   exists base_row rows,
     find_rows_differing_by_param t row_id chosen_param
     = inr (base_row, rows)).
Proof.
  unfold check_if_row_id_exists.
  destruct (fetch_by_id t row_id) as [base | ] eqn:Hf.
  - destruct (in_dec string_dec chosen_param all_column_names) as [Hp | Hp].
    + split.
      * intros e. rewrite (find_rows_inr _ _ _ _ Hf Hp).
        split; [ discriminate | ].
        intros [(_ & H) | (_ & _ & H)]; [ discriminate H | contradiction ].
      * intros _ _. rewrite (find_rows_inr _ _ _ _ Hf Hp). eauto.
    + split.
      * intros e. rewrite (find_rows_unknown _ _ _ _ Hf Hp). split.
        -- intros [= <-]. right. auto.
        -- intros [(_ & H) | (-> & _)]; [ discriminate H | reflexivity ].
      * intros _ H. apply check_if_chosen_param_exists_column in H.
        contradiction.
  - split.
    + intros e. rewrite (find_rows_missing _ _ _ Hf). split.
      * intros [= <-]. left. auto.
      * intros [(-> & _) | (_ & H & _)]; [ reflexivity | discriminate H ].
    + discriminate.
Qed.

(** X19.  A [StackView] for an id that no row has: with a chosen parameter
    nothing is shown and nothing raised; without one the pick window is
    made first, and making it raises [TypeError]. *)
Theorem init_without_row (t : table) (row_id : Z)
    (old_chosen_param : option string) (clicked : option nat) :
  row_id <> 0 -> fetch_by_id t row_id = None ->
  (forall c p,
     init t row_id (Some (String c p)) old_chosen_param clicked = inr None) /\
  init t row_id None old_chosen_param clicked = inl Py.TypeError /\
  init t row_id (Some ""%string) old_chosen_param clicked = inl Py.TypeError.
Proof.
  intros Hid Hf. unfold init.
  destruct (Z.eqb_spec row_id 0) as [E | _]; [ contradiction | ].
  assert (Hpick : show_pick_axis_param_option_window t row_id
                    old_chosen_param clicked = inl Py.TypeError).
  { unfold show_pick_axis_param_option_window, param_buttons,
      create_param_info_per_slider_index.
    cbn [Py.for_each]. unfold info_of_image at 1, all_param_names at 1.
    now rewrite (count_neighbors_missing t row_id _ _ _ Hf). }
  split; [ | rewrite Hpick; auto ].
  intros c p. cbn [Py.bind Py.ret]. unfold init_ui, check_if_row_id_exists.
  now rewrite Hf.
Qed.

Lemma init_without_row_witness :
  7 <> 0 /\ fetch_by_id Example.inserted 7 = None /\
  (forall c p,
     init Example.inserted 7 (Some (String c p)) None None = inr None) /\
  init Example.inserted 7 None None None = inl Py.TypeError /\
  init Example.inserted 7 (Some ""%string) None None = inl Py.TypeError.
Proof.
  assert (H1 : 7 <> 0) by discriminate.
  assert (H2 : fetch_by_id Example.inserted 7 = None) by reflexivity.
  split; [ exact H1 | ]. split; [ exact H2 | ].
  exact (init_without_row Example.inserted 7 None None H1 H2).
Defined.

(** X20.  A parameter the pick window returns has neighbors: it is a
    column other than id and path, it is not the parameter of the view the
    window was opened from, and [find_rows_differing_by_param] finds at
    least one row for it. *)
Theorem picked_param_has_neighbors (t : table) (row_id : Z)
    (old_chosen_param : option string) (clicked : option nat)
    (picked_param : string) :
  show_pick_axis_param_option_window t row_id old_chosen_param clicked
  = inr (Some picked_param) ->
  check_if_chosen_param_exists (Some picked_param) = true /\
  old_chosen_param <> Some picked_param /\
  exists base_row r rows,
    find_rows_differing_by_param t row_id picked_param
    = inr (base_row, r :: rows).
Proof.
  unfold show_pick_axis_param_option_window, param_buttons.
  destruct (create_param_info_per_slider_index _ t [row_id])
    as [e | info] eqn:Hinfo; [ discriminate | ].
  apply create_param_info_one in Hinfo as (base & labels & Hf & _ & ->).
  cbn [Py.bind Py.ret nb_count_strings_per_img].
  set (counts := map _ all_param_names).
  set (buttons := filter _ _).
  destruct buttons as [ | b bs] eqn:Eb; [ discriminate | ].
  rewrite <- Eb. clear Eb b bs.
  destruct clicked as [i | ]; [ | discriminate ].
  destruct (existsb (Nat.eqb i) (map fst buttons)) eqn:Ex; [ | discriminate ].
  destruct (Nat.eqb i 0); [ discriminate | ].
  destruct (Nat.ltb i _); [ | discriminate ].
  intros [= Hnth].
  apply existsb_exists in Ex as (j & Hj & E). apply Nat.eqb_eq in E. subst j.
  apply in_map_iff in Hj as ([i' [key n]] & E & Hb). cbn [fst] in E. subst i'.
  apply filter_In in Hb as [Hb Hcond]. cbn [fst snd] in Hcond.
  apply andb_true_iff in Hcond as [Hn Hold].
  apply nth_error_enumerate, nth_error_combine in Hb as [Hkey Hcount].
  change (nth_error all_param_names i = Some picked_param) in Hnth.
  change (nth_error all_param_names i = Some key) in Hkey.
  rewrite Hnth in Hkey. injection Hkey as <-.
  unfold counts in Hcount. rewrite nth_error_map, Hnth in Hcount.
  injection Hcount as Hcount.
  assert (Hin : In picked_param all_param_names)
    by (eapply nth_error_In; eauto).
  split; [ now apply all_param_names_exist | ]. split.
  - destruct old_chosen_param as [old | ]; [ | discriminate ].
    intros [= ->]. now rewrite String.eqb_refl in Hold.
  - pose proof all_param_names_columns as Hcols.
    rewrite Forall_forall in Hcols.
    rewrite (find_rows_inr t row_id picked_param base Hf (Hcols _ Hin)) in *.
    cbn [rows_of] in Hcount.
    destruct (rows_of _) as [ | r rows]; [ | eauto ].
    subst n. discriminate Hn.
Qed.

Lemma picked_param_has_neighbors_witness :
  show_pick_axis_param_option_window Example.inserted 1 None (Some 10%nat)
  = inr (Some "Di"%string) /\
  check_if_chosen_param_exists (Some "Di"%string) = true /\
  None <> Some "Di"%string /\
  exists base_row r rows,
    find_rows_differing_by_param Example.inserted 1 "Di"
    = inr (base_row, r :: rows).
Proof.
  assert (H : show_pick_axis_param_option_window Example.inserted 1 None
                (Some 10%nat) = inr (Some "Di"%string))
    by (vm_compute; reflexivity).
  split; [ exact H | ].
  exact (picked_param_has_neighbors Example.inserted 1 None (Some 10%nat)
           "Di" H).
Defined.

(** X21.  The first button of the pick window cannot be picked: its id is
    0, which is [QDialog.Rejected], so a click on [iter] is taken for the
    window being closed and no parameter is returned. *)
Theorem first_button_is_not_picked (t : table) (row_id : Z)
    (old_chosen_param : option string)
    (buttons : list (nat * (string * nat))) (count : nat) :
  param_buttons t row_id old_chosen_param = inr buttons ->
  In (0%nat, ("iter"%string, count)) buttons ->
  show_pick_axis_param_option_window t row_id old_chosen_param (Some 0%nat)
  = inr None.
Proof.
  intros Hb Hin. unfold show_pick_axis_param_option_window. rewrite Hb.
  cbn [Py.bind]. destruct buttons as [ | b bs]; [ reflexivity | ].
  destruct (existsb (Nat.eqb 0) (map fst (b :: bs))); reflexivity.
Qed.

Lemma first_button_is_not_picked_witness :
  param_buttons ExampleMore.two_iterations 1 None
  = inr [(0%nat, ("iter"%string, 1%nat))] /\
  In (0%nat, ("iter"%string, 1%nat)) [(0%nat, ("iter"%string, 1%nat))] /\
  show_pick_axis_param_option_window ExampleMore.two_iterations 1 None
    (Some 0%nat)
  = inr None.
Proof.
  assert (H1 : param_buttons ExampleMore.two_iterations 1 None
               = inr [(0%nat, ("iter"%string, 1%nat))])
    by (vm_compute; reflexivity).
  assert (H2 : In (0%nat, ("iter"%string, 1%nat))
                 [(0%nat, ("iter"%string, 1%nat))]) by (left; reflexivity).
  split; [ exact H1 | ]. split; [ exact H2 | ].
  exact (first_button_is_not_picked _ _ _ _ _ H1 H2).
Defined.

(** X22.  The two label columns say what they name: for the image of a
    row, label [j] of the first column carries the name [j] of the
    parameter list and the value the row has in the column of that name
    (the places 5 to 32 of the row are those columns), and label [j] of the
    second the number of rows [find_rows_differing_by_param] finds along
    that parameter, or 0 for a name the loop has skipped. *)
Theorem create_param_info_labels (same_object : string -> bool) (t : table)
    (row_id : Z) (info : param_info) :
  create_param_info_per_slider_index same_object t [row_id] = inr info ->
  exists base_row labels counts,
    fetch_by_id t row_id = Some base_row /\
    param_value_strings_per_img info = [labels] /\
    nb_count_strings_per_img info = [counts] /\
    forall j name,
      nth_error all_param_names j = Some name ->
      (exists v,
         nth_error labels j = Some (name, v) /\
         column base_row name = Some v) /\
      nth_error counts j
      = Some (if same_object name then 0%nat
              else
                List.length
                  (rows_of (find_rows_differing_by_param t row_id name))).
Proof.
  intros H.
  apply create_param_info_skipping in H as (base & labels & Hf & Hl & ->).
  exists base, labels. eexists. split; [ exact Hf | ].
  split; [ reflexivity | ]. split; [ reflexivity | ].
  intros j name Hj. split.
  - assert (Hpair : nth_error (combine all_param_names (seq 5 28)) j
                    = Some (name, (5 + j)%nat)).
    { apply nth_error_combine. split; [ exact Hj | ].
      assert (Hlt : (j < List.length all_param_names)%nat)
        by (apply nth_error_Some; rewrite Hj; discriminate).
      change (List.length all_param_names) with 28%nat in Hlt.
      rewrite nth_error_nth' with (d := 0%nat) by (rewrite length_seq; lia).
      now rewrite seq_nth. }
    destruct (comprehension_nth _ _ _ Hl j _ Hpair) as ([name' v] & Hn & Hv).
    unfold value_label in Hv. cbn [fst snd] in Hv.
    destruct (at_index base (5 + j)) as [v' | ] eqn:Ev; [ | discriminate ].
    injection Hv as <- <-. exists v'. split; [ exact Hn | ].
    unfold column. now rewrite (param_name_index j name Hj).
  - rewrite nth_error_map, Hj. reflexivity.
Qed.

Lemma create_param_info_labels_witness :
  exists info,
    create_param_info_per_slider_index (String.eqb "Di") Example.inserted [1]
    = inr info /\
    exists base_row labels counts,
      fetch_by_id Example.inserted 1 = Some base_row /\
      param_value_strings_per_img info = [labels] /\
      nb_count_strings_per_img info = [counts] /\
      forall j name,
        nth_error all_param_names j = Some name ->
        (exists v,
           nth_error labels j = Some (name, v) /\
           column base_row name = Some v) /\
        nth_error counts j
        = Some (if String.eqb "Di" name then 0%nat
                else
                  List.length
                    (rows_of
                       (find_rows_differing_by_param Example.inserted 1
                          name))).
Proof.
  destruct (create_param_info_per_slider_index (String.eqb "Di")
              Example.inserted [1]) as [e | info] eqn:E;
    [ vm_compute in E; discriminate E | ].
  exists info. split; [ reflexivity | ].
  exact (create_param_info_labels (String.eqb "Di") Example.inserted 1 info
           E).
Defined.


(** X23.  What [init_ui] shows on the table [construct_database] leaves:
    the base row and the rows found for it, each with its value of the
    chosen parameter, in ascending order of that value; no two of them have
    the same value; and the slider is set at the value of the base row. *)
Theorem init_ui_shows store db_exists src out (row_id : Z)
    (chosen_param : string) (s : stack) :
  construct_database store db_exists src = inr out ->
  init_ui (images out) row_id (Some chosen_param) = inr (Some s) ->
  exists base_row rows,
    find_rows_differing_by_param (images out) row_id chosen_param
    = inr (base_row, rows) /\
    Permutation (combine (img_ids s) (chosen_param_values s))
      (map (fun r => (id r, column r chosen_param)) (base_row :: rows)) /\
    ascending (chosen_param_values s) /\
    slider s = column base_row chosen_param /\
    forall a b,
      In a (base_row :: rows) -> In b (base_row :: rows) ->
      same_cell (column a chosen_param) (column b chosen_param) = true ->
      a = b.
Proof.
  intros Hc H.
  destruct (construct_database_steps _ _ _ _ Hc) as (t & _ & Hsound & Himg & _).
  pose proof (sound_delete_duplicates t Hsound) as (Hnd & _).
  rewrite <- Himg in Hnd. unfold init_ui in H.
  unfold check_if_row_id_exists in H.
  destruct (fetch_by_id (images out) row_id) as [base | ] eqn:Hf;
    cbn [negb] in H; [ | discriminate ].
  destruct (check_if_chosen_param_exists (Some chosen_param)) eqn:Ep;
    cbn [negb] in H; [ | discriminate ].
  apply check_if_chosen_param_exists_column in Ep.
  rewrite (find_rows_inr _ _ _ _ Hf Ep) in H |- *.
  cbn [Py.bind fst snd] in H.
  destruct (fetch_by_id_some _ _ _ Hf) as [Hb Hid]. subst row_id.
  set (rows := rows_of _) in *.
  destruct rows as [ | r rows'] eqn:Erows; [ discriminate | ].
  rewrite <- Erows in *. clear Erows r rows'.
  unfold stack_images, sort_by in H.
  destruct (index all_column_names chosen_param) as [k | ] eqn:Hk;
    [ | discriminate ].
  rewrite (stack_images_rows k chosen_param _ Hk) in H.
  set (shown := map _ (base :: rows)) in *.
  destruct (_ || _ || _); [ | discriminate ].
  cbn [Py.bind Py.ret fst snd] in H. rewrite combine_fst_snd in H.
  destruct (filter _ (order_by snd shown)) as [ | [i v] [ | ? ?]] eqn:Efil;
    try discriminate.
  injection H as <-. cbn [img_ids chosen_param_values slider].
  exists base, rows. split; [ reflexivity | ].
  split; [ rewrite combine_fst_snd; apply order_by_Permutation | ].
  split; [ apply Sorted_map, order_by_Sorted | ]. split.
  - assert (Hin : In (i, v) (filter (fun iv => Z.eqb (fst iv) (id base))
                               (order_by snd shown)))
      by (rewrite Efil; now left).
    apply filter_In in Hin as [Hin Hi]. cbn [fst] in Hi.
    apply Z.eqb_eq in Hi. subst i.
    apply in_order_by in Hin. unfold shown in Hin.
    apply in_map_iff in Hin as (r & [= Hr <-] & Hin).
    destruct (stack_row_agrees _ _ _ _ Hnd Hb Hin) as [Hrt _].
    now rewrite (id_injective _ _ _ Hnd Hrt Hb Hr).
  - intros a b Ha Hb' Hsame.
    destruct (stack_row_agrees _ _ _ _ Hnd Hb Ha) as [Hat Haa].
    destruct (stack_row_agrees _ _ _ _ Hnd Hb Hb') as [Hbt Hba].
    assert (Hg : same_group a b = true).
    { apply same_group_iff. intros c Hc'.
      destruct (string_dec c chosen_param) as [-> | Hne]; [ exact Hsame | ].
      eapply same_cell_trans; [ apply Haa; auto | ].
      rewrite same_cell_sym. now apply Hba. }
    pose proof Hsound as (Hndt & _).
    rewrite Himg in Hat, Hbt.
    apply (delete_duplicates_lowest t _ Hndt (sound_complete _ Hsound)) in Hat
      as [Hat Hla].
    apply (delete_duplicates_lowest t _ Hndt (sound_complete _ Hsound)) in Hbt
      as [Hbt Hlb].
    apply (id_injective t); auto.
    pose proof (Hla b Hbt Hg).
    pose proof (Hlb a Hat (same_group_sym _ _ Hg)). lia.
Qed.

Lemma init_ui_shows_witness :
  exists s,
    construct_database Example.decimal_store false Example.exports
    = inr Example.built /\
    init_ui (images Example.built) 1 (Some "Di"%string) = inr (Some s) /\
    exists base_row rows,
      find_rows_differing_by_param (images Example.built) 1 "Di"
      = inr (base_row, rows) /\
      Permutation (combine (img_ids s) (chosen_param_values s))
        (map (fun r => (id r, column r "Di")) (base_row :: rows)) /\
      ascending (chosen_param_values s) /\
      slider s = column base_row "Di" /\
      forall a b,
        In a (base_row :: rows) -> In b (base_row :: rows) ->
        same_cell (column a "Di") (column b "Di") = true ->
        a = b.
Proof.
  assert (H1 : construct_database Example.decimal_store false Example.exports
               = inr Example.built) by (vm_compute; reflexivity).
  destruct (init_ui (images Example.built) 1 (Some "Di"%string))
    as [e | [s | ]] eqn:E;
    [ vm_compute in E; discriminate E | | vm_compute in E; discriminate E ].
  exists s. split; [ exact H1 | ]. split; [ reflexivity | ].
  exact (init_ui_shows _ _ _ _ 1 "Di" s H1 E).
Defined.

(** X24.  On a table with distinct ids whose column of the chosen
    parameter holds numbers only, [init_ui] raises nothing up to the
    setting of the slider (the image files aside); it shows nothing
    exactly when one of its three messages is printed: no row has the id,
    the parameter is no column (or is id or path), or the row has no
    neighbor. *)
Theorem init_ui_returns (t : table) (row_id : Z) (chosen_param : string) :
  NoDup (map id t) ->
  (forall r, In r t -> is_number (column r chosen_param) = true) ->
  exists shown,
    init_ui t row_id (Some chosen_param) = inr shown /\
    (shown = None <->
     check_if_row_id_exists t row_id = false \/
     check_if_chosen_param_exists (Some chosen_param) = false \/
     rows_of (find_rows_differing_by_param t row_id chosen_param) = []).
Proof.
  intros Hnd Hnum. unfold init_ui.
  destruct (check_if_row_id_exists t row_id) eqn:Erow; cbn [negb];
    [ | exists None; split; [ reflexivity | tauto ] ].
  destruct (check_if_chosen_param_exists (Some chosen_param)) eqn:Ep;
    cbn [negb]; [ | exists None; split; [ reflexivity | tauto ] ].
  unfold check_if_row_id_exists in Erow.
  destruct (fetch_by_id t row_id) as [base | ] eqn:Hf; [ | discriminate ].
  apply check_if_chosen_param_exists_column in Ep.
  destruct (stack_ids_NoDup t row_id chosen_param base Hnd Hf Ep)
    as [Hids Hrows].
  rewrite (find_rows_inr _ _ _ _ Hf Ep) in *.
  cbn [Py.bind fst snd rows_of] in *.
  destruct (fetch_by_id_some _ _ _ Hf) as [Hb Hid]. subst row_id.
  set (rows := rows_of _) in *.
  destruct rows as [ | r rows'] eqn:Erows;
    [ exists None; split; [ reflexivity | tauto ] | ].
  rewrite <- Erows in *.
  assert (Hne : rows <> []) by (rewrite Erows; discriminate).
  clear Erows r rows'.
  unfold stack_images, sort_by.
  destruct (index_in _ _ Ep) as [k Hk]. rewrite Hk.
  rewrite (stack_images_rows k chosen_param _ Hk).
  set (shown := map _ (base :: rows)).
  assert (Hall : forallb (fun x : Z * cell => is_number (snd x)) shown = true).
  { apply forallb_forall. intros [i v] Hin. unfold shown in Hin.
    apply in_map_iff in Hin as (r & [= _ <-] & Hr).
    apply Hnum. destruct Hr as [<- | Hr]; auto. }
  rewrite Hall, orb_true_r. cbn [orb Py.bind Py.ret fst snd].
  rewrite combine_fst_snd.
  assert (Hnd' : NoDup (map fst (order_by snd shown))).
  { eapply Permutation_NoDup;
      [ apply Permutation_map; symmetry; apply order_by_Permutation | ].
    unfold shown. rewrite map_map. exact Hids. }
  assert (Hin : In (id base, column base chosen_param) (order_by snd shown))
    by (apply in_order_by; left; reflexivity).
  pose proof (filter_unique fst _ _ Hnd' Hin) as Hfil. cbn [fst] in Hfil.
  rewrite Hfil. eexists. split; [ reflexivity | ].
  split; [ discriminate | ].
  intros [H | [H | H]]; try discriminate H. contradiction.
Qed.

Lemma init_ui_returns_witness :
  NoDup (map id Example.inserted) /\
  (forall r, In r Example.inserted -> is_number (column r "Di") = true) /\
  exists shown,
    init_ui Example.inserted 1 (Some "Di"%string) = inr shown /\
    (shown = None <->
     check_if_row_id_exists Example.inserted 1 = false \/
     check_if_chosen_param_exists (Some "Di"%string) = false \/
     rows_of (find_rows_differing_by_param Example.inserted 1 "Di") = []).
Proof.
  assert (H1 : NoDup (map id Example.inserted)) by apply sound_inserted.
  assert (H2 : forall r, In r Example.inserted ->
                         is_number (column r "Di") = true)
    by (intros r [<- | [<- | [<- | []]]]; reflexivity).
  split; [ exact H1 | ]. split; [ exact H2 | ].
  exact (init_ui_returns Example.inserted 1 "Di" H1 H2).
Defined.




(** X26.  A job parameters file with no line but empty ones, or no line at
    all, makes [read_job_param] raise [UnboundLocalError]: the last section
    is stored under a name that was never bound. *)
Theorem read_job_param_without_header (lines : list string) :
  Forall (fun line => line = Py.nl) lines ->
  read_job_param lines = inl Py.UnboundLocalError.
Proof.
  intros H. unfold read_job_param, Py.enumerate.
  assert (Hloop : forall start st,
             Py.for_each read_job_line
               (combine (seq start (List.length lines)) lines) st = inr st).
  { induction H as [ | line lines -> _ IH]; intros start st;
      [ reflexivity | ].
    cbn [List.length seq combine Py.for_each].
    rewrite read_blank_line. cbn [Py.bind]. apply IH. }
  rewrite Hloop. reflexivity.
Qed.

Lemma read_job_param_without_header_witness :
  Forall (fun line => line = Py.nl) [Py.nl; Py.nl] /\
  read_job_param [Py.nl; Py.nl] = inl Py.UnboundLocalError.
Proof.
  assert (H : Forall (fun line => line = Py.nl) [Py.nl; Py.nl])
    by (repeat constructor).
  split; [ exact H | ].
  exact (read_job_param_without_header _ H).
Defined.




(** X28.  The file [export_row_to_file] writes is read back by
    [read_base_param] as it was written: the dict has the thirty names in
    order, each with the text of the value the row has in that column,
    when those texts have no whitespace and no equals sign. *)
Theorem exported_file_reads_back
    (join : string -> string -> string) (basename : string -> string)
    (project_root : string) (format : cell -> string)
    (w : world) (t : table) (r : row) (db_path : string) (row_id : Z)
    (timestamp : string) :
  database w = Some t -> fetch_by_id t row_id = Some r ->
  (forall name, In name exported_names ->
     plain_value (format (column r name)) = true) ->
  exists file_path text,
    files (snd (export_row_to_file join basename project_root format w
                  db_path row_id timestamp))
    = (file_path, text) :: files w /\
    read_base_param (Py.file_lines (String.concat "" text))
    = inr (map (fun name => (name, format (column r name))) exported_names).
Proof.
  intros Hdb Hf Hplain.
  rewrite (export_row_to_file_existing join basename project_root format
             w t r db_path row_id timestamp Hdb Hf).
  cbn [snd files]. do 2 eexists. split; [ reflexivity | ].
  now apply exported_text_read_back.
Qed.

Lemma exported_file_reads_back_witness :
  database Example.machine = Some (images Example.built) /\
  fetch_by_id (images Example.built) 1 = Some Example.first_row /\
  (forall name, In name exported_names ->
     plain_value (Example.format (column Example.first_row name)) = true) /\
  exists file_path text,
    files
      (snd (export_row_to_file Example.join Example.basename
              "/opt/toothseeker" Example.format Example.machine
              "tooth_database.db" 1 "2024-01-01_12-00-00"))
    = (file_path, text) :: files Example.machine /\
    read_base_param (Py.file_lines (String.concat "" text))
    = inr (map (fun name =>
                  (name, Example.format (column Example.first_row name)))
             exported_names).
Proof.
  assert (H1 : database Example.machine = Some (images Example.built))
    by reflexivity.
  assert (H2 : fetch_by_id (images Example.built) 1 = Some Example.first_row)
    by reflexivity.
  assert (H3 : forall name, In name exported_names ->
                 plain_value (Example.format (column Example.first_row name))
                 = true).
  { intros name H.
    repeat (destruct H as [<- | H]; [ vm_compute; reflexivity | ]).
    destruct H. }
  split; [ exact H1 | ]. split; [ exact H2 | ]. split; [ exact H3 | ].
  exact (exported_file_reads_back Example.join Example.basename
           "/opt/toothseeker" Example.format Example.machine _ _
           "tooth_database.db" 1 "2024-01-01_12-00-00" H1 H2 H3).
Defined.


(** X29.  [close_tabs_or_alter_name] closes every tab whose name holds
    [ImageDrop] and renames every other tab, and keeps their order: going
    through the indices from the last down, no removal moves a tab still
    to visit.  [open_new_imagedrop_tab] then puts the new tab last and in
    front. *)
Theorem close_tabs_or_alter_name_closes_and_renames (tabs : list string) :
  close_tabs_or_alter_name tabs
  = map changed_name
      (filter (fun name => negb (contains "ImageDrop" name)) tabs) /\
  open_new_imagedrop_tab tabs
  = (map changed_name
       (filter (fun name => negb (contains "ImageDrop" name)) tabs)
     ++ ["ImageDrop"%string],
     List.length
       (map changed_name
          (filter (fun name => negb (contains "ImageDrop" name)) tabs))).
Proof.
  assert (E : close_tabs_or_alter_name tabs
              = map changed_name
                  (filter (fun name => negb (contains "ImageDrop" name))
                     tabs)).
  { unfold close_tabs_or_alter_name.
    pose proof (close_tabs_loop tabs []) as H.
    now rewrite !app_nil_r in H. }
  split; [ exact E | ].
  unfold open_new_imagedrop_tab. rewrite E. f_equal. lia.
Qed.

(** X30.  The CSV file of [create_csv] is named by replacing every [db] of
    the database path by [csv]: the name is the database path itself (a
    file [create_csv] then opens for appending) exactly when the path holds
    no [db]. *)
Theorem csv_path_is_db_path (db_path : string) :
  replace_db db_path = db_path <-> ~ occurs "db" db_path.
Proof.
  destruct (replace_db_spec (String.length db_path) db_path (Nat.le_refl _))
    as (_ & Hlonger & Hsame).
  split; [ | exact Hsame ].
  intros E H. specialize (Hlonger H). rewrite E in Hlonger. lia.
Qed.

End Extras.
